(** * npanalyst: basket scoring, association network and orchestration

    A shallow embedding of [npanalyst/activity.py], of the
    orchestration entry points of [npanalyst/core.py] and of the command
    line of [metabolate/cli.py], followed by the properties of these
    functions.

    Conventions of the embedding.
    - A Python [str] is a Rocq [string], one character per code (0 to
      255); a Python [set] of strings is a [gset string].  Where the code
      iterates a set, the order is given by a function [set_iter], about
      which the properties assume only that it lists the elements of the
      set, each once.
    - A [float] or [numpy.float64] is a real number and arithmetic is
      exact; rounding errors and overflow are not in the model, except
      in the module [F64], which computes the cluster score in IEEE
      binary64.  The cells of the activity table are finite numbers.
      The non-finite values the code then meets are the [NaN] of a
      correlation with a zero divisor, which is [None] in [option R],
      and the [NaN] or infinity of the division by a zero range of
      activity scores, which [round] turns into an exception.
    - An exception is a value of [exn]; code that may raise returns a
      [result]; code that logs returns its log records next to its
      result; code that writes files takes and returns the files.
    - The activity table is a [pandas.DataFrame] indexed by sample name
      with unique labels: a finite map from the row label to the row of
      values.
    - The functions of [npanalyst.utils] are parameters of the functions
      of [core.py] that call them.
    - [Parallel(...)] over pure tasks returns the list of results in
      task order and raises the exception of a task that raises; over
      tasks that write files it is modelled for one worker, the tasks run
      in order. *)

From Stdlib Require Import Reals Lra Lia String Ascii List Sorting.Sorted.
From Stdlib Require Floats.PrimFloat.
From stdpp Require Import gmap strings list pretty.

Open Scope string_scope.

(** ** Exceptions, results, log records *)

Inductive exn : Type :=
| KeyError (key : string)
| IndexError
| ValueError (msg : string)
| OverflowError (msg : string)
| AttributeError (msg : string)
| OSError (path : string).

Inductive result (A : Type) : Type :=
| Ok (a : A)
| Raise (e : exn).
Arguments Ok {A} a.
Arguments Raise {A} e.

#[global] Instance result_ret : MRet result := fun A a => Ok a.
#[global] Instance result_bind : MBind result := fun A B k r =>
  match r with
  | Ok a => k a
  | Raise e => Raise e
  end.

(** The records of [logger.warning] and [logger.info]; [logger.debug]
    is not part of the model. *)
Inductive logrec : Type :=
| Warning (e : exn)
| Info (msg : string).

(** ** Strings *)

Module Str.

(** [s.split(sep)] for a one-character separator: never empty, an empty
    piece between two adjacent separators and at either end. *)
Fixpoint split (sep : ascii) (s : string) : list string :=
  match s with
  | EmptyString => [EmptyString]
  | String c rest =>
      if Ascii.eqb c sep then EmptyString :: split sep rest
      else match split sep rest with
           | piece :: pieces => String c piece :: pieces
           | [] => [String c EmptyString]
           end
  end.

Definition is_digit (c : ascii) : bool :=
  (48 <=? nat_of_ascii c)%nat && (nat_of_ascii c <=? 57)%nat.

Definition newline : ascii := ascii_of_nat 10.

(** Where the regular expression anchor [$] matches: at the end of the
    string and just before a newline that is the last character. *)
Definition at_dollar (rest : string) : bool :=
  match rest with
  | EmptyString => true
  | String c EmptyString => Ascii.eqb c newline
  | _ => false
  end.

(** [re.search("_[0-9]$", s)]: some position of [s] holds an underscore,
    then one digit of [0-9], then [$]. *)
Fixpoint search_underscore_digit (s : string) : bool :=
  match s with
  | EmptyString => false
  | String c rest =>
      (Ascii.eqb c "_" &&
       match rest with
       | String d rest' => is_digit d && at_dollar rest'
       | EmptyString => false
       end)
      || search_underscore_digit rest
  end.

(** The characters before the first occurrence of [sep]; all of [s] when
    [sep] does not occur. *)
Fixpoint before_first (sep : ascii) (s : string) : string :=
  match s with
  | EmptyString => EmptyString
  | String c rest =>
      if Ascii.eqb c sep then EmptyString else String c (before_first sep rest)
  end.

(** [s] ends with an underscore followed by one decimal digit. *)
Fixpoint ends_underscore_digit (s : string) : bool :=
  match s with
  | EmptyString => false
  | String c rest =>
      match rest with
      | String d EmptyString => Ascii.eqb c "_" && is_digit d
      | _ => ends_underscore_digit rest
      end
  end.

(** [s] without its last character when that is a newline. *)
Fixpoint chomp (s : string) : string :=
  match s with
  | EmptyString => EmptyString
  | String c rest =>
      match rest with
      | EmptyString => if Ascii.eqb c newline then EmptyString else s
      | _ => String c (chomp rest)
      end
  end.

End Str.

(** ** [filenames2samples] *)

Definition delim : ascii := "|"%char.
Definition fn_delim : ascii := "_"%char.

(** [filename.split(fn_delim)[sampleidx]] at the default [sampleidx = 0];
    [split] never returns an empty list, so the index is always valid. *)
Definition split_at_sampleidx (filename : string) : string :=
  match Str.split fn_delim filename with
  | piece :: _ => piece
  | [] => EmptyString
  end.

Definition filenames2samples_step (samples : gset string) (filename : string)
  : gset string :=
  if Str.search_underscore_digit filename
  then samples ∪ {[ split_at_sampleidx filename ]}
  else samples ∪ {[ filename ]}.

Definition filenames2samples (filenames : string) : gset string :=
  foldl filenames2samples_step ∅ (Str.split delim filenames).

(** ** Numbers, vectors and the library functions the scoring relies on *)

Module Np.

Open Scope R_scope.

Abbreviation vec := (list R).

(** [np.sum] of a one-dimensional array. *)
Definition sum (v : vec) : R := foldr Rplus 0 v.

(** Element-wise sum of two rows of a matrix. *)
Definition vadd (a b : vec) : vec := zip_with Rplus a b.

(** [np.vstack(rows).mean(axis=0)]: the rows are reduced by element-wise
    addition, then every entry is divided by the number of rows. *)
Definition mean_axis0 (rows : list vec) : vec :=
  match rows with
  | [] => []
  | r :: rs => map (fun s => s / INR (length rows)) (foldl vadd r rs)
  end.

(** [np.nansum]: a [NaN] entry adds nothing. *)
Definition nansum (v : list (option R)) : R := sum (map (default 0) v).

Definition mean (x : vec) : R := sum x / INR (length x).

(** Deviations from the mean, and the sum of products of two vectors. *)
Definition dev (x : vec) : vec := map (fun v => v - mean x) x.
Definition dot (a b : vec) : R := sum (zip_with Rmult a b).

(** One entry of [DataFrame.corr("pearson")]: the co-moment of the two
    columns over the square root of the product of their sums of squared
    deviations, [NaN] when that divisor is zero.  This is the value in
    exact arithmetic; [F64.pearson] is the binary64 computation, whose
    result pandas does not clip to the interval from [-1] to [1]. *)
Definition pearson (x y : vec) : option R :=
  let covxy := dot (dev x) (dev y) in
  let divisor := sqrt (dot (dev x) (dev x) * dot (dev y) (dev y)) in
  if Req_dec_T divisor 0 then None else Some (covxy / divisor).

(** [pd.DataFrame(np.transpose(fps)).corr("pearson").values]: entry
    [(i, k)] correlates row [i] of [fps] with row [k]. *)
Definition corr (fps : list vec) : list (list (option R)) :=
  map (fun x => map (pearson x) fps) fps.

(** [np.triu_indices_from(m, k=1)] for an [n] by [n] matrix: the index
    pairs strictly above the diagonal, row by row. *)
Definition triu_indices (n : nat) : list (nat * nat) :=
  flat_map (fun i => map (pair i) (seq (S i) (n - S i))) (seq 0 n).

(** [m[idx]] for a list of index pairs. *)
Definition take_at {A} (d : A) (m : list (list A)) (idx : list (nat * nat))
  : list A :=
  map (fun ik => nth (snd ik) (nth (fst ik) m []) d) idx.

(** [round(x)] with no digits: the nearest integer, a tie goes to the
    even neighbour. *)
Definition round (x : R) : Z :=
  let f := Zfloor x in
  let d := x - IZR f in
  if Rlt_dec d (1 / 2) then f
  else if Rlt_dec (1 / 2) d then (f + 1)%Z
  else if Z.even f then f else (f + 1)%Z.

(** [round(x, ndigits)]: rounding of the value scaled by the power of
    ten, scaled back. *)
Definition round_to (x : R) (ndigits : nat) : R :=
  IZR (round (x * 10 ^ ndigits)) / 10 ^ ndigits.

(** [min(l)] and [max(l)] of a non-empty list. *)
Definition list_min (l : list R) : option R :=
  match l with
  | [] => None
  | x :: xs => Some (foldl Rmin x xs)
  end.

Definition list_max (l : list R) : option R :=
  match l with
  | [] => None
  | x :: xs => Some (foldl Rmax x xs)
  end.

End Np.

(** ** Code that logs and may raise *)

Definition Py (A : Type) : Type := (list logrec * result A)%type.

#[global] Instance Py_ret : MRet Py := fun A a => ([], Ok a).
#[global] Instance Py_bind : MBind Py := fun A B k m =>
  match m with
  | (log, Ok a) => let '(log', r) := k a in ((log ++ log')%list, r)
  | (log, Raise e) => (log, Raise e)
  end.

Definition py_lift {A} (r : result A) : Py A := ([], r).
Definition py_info (msg : string) : Py unit := ([Info msg], Ok tt).

Definition py_log {A} (m : Py A) : list logrec := fst m.
Definition py_result {A} (m : Py A) : result A := snd m.

(** ** Scoring ([activity.py]) *)

Record Score : Type := mkScore { activity : R; cluster : R }.

(** A basket as [load_basket_data] builds it: the numeric MS1 columns by
    name, the value of the file name column, and the ["samples"] set. *)
Record basket : Type := mkBasket {
  ms1 : gmap string R;
  filenames : string;
  samples : gset string
}.

(** The body of the loop of [load_basket_data] on one record. *)
Definition load_basket_record (cols : gmap string R) (fnames : string) : basket :=
  {| ms1 := cols; filenames := fnames; samples := filenames2samples fnames |}.

(** The loop of [get_samples_fps]: [fpd.loc[samp].values] is appended for
    a sample that labels a row, the [KeyError] of any other sample is
    logged as a warning. *)
Fixpoint collect_fps (fpd : gmap string Np.vec) (samples : list string)
  : list logrec * list Np.vec :=
  match samples with
  | [] => ([], [])
  | samp :: rest =>
      let '(log, to_cat) := collect_fps fpd rest in
      match fpd !! samp with
      | Some row => (log, row :: to_cat)
      | None => (Warning (KeyError samp) :: log, to_cat)
      end
  end.

Definition no_fingerprints : exn := KeyError "No Fingerprints found...".

Definition get_samples_fps (fpd : gmap string Np.vec) (samples : list string)
  : Py (list Np.vec) :=
  let '(log, to_cat) := collect_fps fpd samples in
  match to_cat with
  | [] => (log, Raise no_fingerprints)
  | _ => (log, Ok to_cat)
  end.

Definition feature_synthetic_fp (act_df : gmap string Np.vec) (samples : list string)
  : Py Np.vec :=
  to_cat ← get_samples_fps act_df samples;
  mret (Np.mean_axis0 to_cat).

Definition cluster_score (fpd : gmap string Np.vec) (samples : list string) : Py R :=
  fps ← get_samples_fps fpd samples;
  let j := length fps in
  if decide (j = 1%nat) then mret 0%R
  else
    let corr := Np.corr fps in
    mret (Np.nansum (Np.take_at None corr (Np.triu_indices (length corr)))
          / ((INR j ^ 2 - INR j) / 2))%R.

Section Scoring.

(** The order in which Python iterates a set. *)
Variable set_iter : gset string → list string.

Definition score_basket (bask : basket) (activity_df : gmap string Np.vec) : Py Score :=
  let samples := set_iter (samples bask) in
  sfp ← feature_synthetic_fp activity_df samples;
  let act_score := Np.sum (map (fun v => v ^ 2)%R sfp) in
  clust_score ← cluster_score activity_df samples;
  mret (mkScore act_score clust_score).

(** [Parallel(...)(delayed(score_basket)(bask, activity_df) for bask in
    baskets)]: the results in the order of [baskets]; an exception of a
    task is raised again by the call. *)
Fixpoint score_baskets (baskets : list basket) (activity_df : gmap string Np.vec)
  : Py (list Score) :=
  match baskets with
  | [] => mret []
  | bask :: rest =>
      s ← score_basket bask activity_df;
      ss ← score_baskets rest activity_df;
      mret (s :: ss)
  end.

End Scoring.

(** ** Built-ins used by the output table *)

Module Builtin.

(** [sorted] on strings: ascending in the order of the character codes. *)
Fixpoint insert_sorted (x : string) (l : list string) : list string :=
  match l with
  | [] => [x]
  | y :: l' => if String.leb x y then x :: l else y :: insert_sorted x l'
  end.

Definition sorted (l : list string) : list string := foldr insert_sorted [] l.

(** [sep.join(l)]. *)
Fixpoint join (sep : string) (l : list string) : string :=
  match l with
  | [] => EmptyString
  | [x] => x
  | x :: rest => x ++ sep ++ join sep rest
  end.

Definition quote : ascii := ascii_of_nat 34.
Definition backslash : ascii := ascii_of_nat 92.

Definition hex_digit (n : nat) : ascii :=
  nth n ["0"; "1"; "2"; "3"; "4"; "5"; "6"; "7"; "8"; "9";
         "a"; "b"; "c"; "d"; "e"; "f"]%char "0"%char.

(** The escape [json.dumps] (with [ensure_ascii]) writes for one
    character: a short escape for the quote, the backslash and five
    control characters, the character itself from space to tilde, and
    a four-digit code otherwise. *)
Definition json_escape (c : ascii) : string :=
  let n := nat_of_ascii c in
  if (n =? 34)%nat then String backslash (String quote EmptyString)
  else if (n =? 92)%nat then String backslash (String backslash EmptyString)
  else if (n =? 8)%nat then String backslash "b"
  else if (n =? 12)%nat then String backslash "f"
  else if (n =? 10)%nat then String backslash "n"
  else if (n =? 13)%nat then String backslash "r"
  else if (n =? 9)%nat then String backslash "t"
  else if (32 <=? n)%nat && (n <=? 126)%nat then String c EmptyString
  else String backslash
         (String "u" (String "0" (String "0"
            (String (hex_digit (n / 16)) (String (hex_digit (n mod 16)) EmptyString))))).

Fixpoint json_escape_string (s : string) : string :=
  match s with
  | EmptyString => EmptyString
  | String c rest => json_escape c ++ json_escape_string rest
  end.

Definition json_string (s : string) : string :=
  String quote (json_escape_string s ++ String quote EmptyString).

(** [json.dumps] of a list of strings. *)
Definition json_dumps (l : list string) : string :=
  "[" ++ join ", " (map json_string l) ++ "]".

End Builtin.

(** ** The output table ([create_output_table]) *)

(** One row, in the order of the tuple the code builds: [bid], [freq],
    [bask["PrecMz"]], [bask["PrecIntensity"]], [bask["RetTime"]],
    [samplelist], [act], [clust]. *)
Definition table_row : Type := (nat * nat * R * R * R * string * R * R)%type.

Definition row_BasketID (r : table_row) : nat := r.1.1.1.1.1.1.1.
Definition row_Frequency (r : table_row) : nat := r.1.1.1.1.1.1.2.
Definition row_PrecMz (r : table_row) : R := r.1.1.1.1.1.2.
Definition row_PrecIntensity (r : table_row) : R := r.1.1.1.1.2.
Definition row_RetTime (r : table_row) : R := r.1.1.1.2.
Definition row_SampleList (r : table_row) : string := r.1.1.2.
Definition row_ACTIVITY_SCORE (r : table_row) : R := r.1.2.
Definition row_CLUSTER_SCORE (r : table_row) : R := r.2.

Record OutputTable : Type := mkOutputTable {
  columns : list string;
  data : list table_row
}.

(** [bask[key]] on the numeric columns of a basket. *)
Definition bask_get (bask : basket) (key : string) : result R :=
  match ms1 bask !! key with
  | Some v => Ok v
  | None => Raise (KeyError key)
  end.

(** [scores[i]]. *)
Definition scores_get (scores : list Score) (i : nat) : result Score :=
  match scores !! i with
  | Some s => Ok s
  | None => Raise IndexError
  end.

Section OutputTable.

Variable set_iter : gset string → list string.

(** The body of the [try] block for basket [i]. *)
Definition output_row (i : nat) (bask : basket) (scores : list Score)
  : result table_row :=
  let bid := i in
  let freq := size (samples bask) in
  let samplelist := Builtin.json_dumps (Builtin.sorted (set_iter (samples bask))) in
  sc ← scores_get scores i;
  let act := activity sc in
  let clust := cluster sc in
  mz ← bask_get bask "PrecMz";
  inten ← bask_get bask "PrecIntensity";
  rt ← bask_get bask "RetTime";
  mret (bid, freq, mz, inten, rt, samplelist, act, clust).

(** The loop over [enumerate(baskets)], from index [i] on: a [KeyError]
    is passed over, any other exception leaves the function. *)
Fixpoint output_rows (i : nat) (baskets : list basket) (scores : list Score)
  : result (list table_row) :=
  match baskets with
  | [] => Ok []
  | bask :: rest =>
      match output_row i bask scores with
      | Ok row => data ← output_rows (S i) rest scores; mret (row :: data)
      | Raise (KeyError _) => output_rows (S i) rest scores
      | Raise e => Raise e
      end
  end.

Definition output_columns : list string :=
  ["BasketID"; "Frequency"; "PrecMz"; "PrecIntensity"; "RetTime";
   "SampleList"; "ACTIVITY_SCORE"; "CLUSTER_SCORE"].

Definition create_output_table (baskets : list basket) (scores : list Score)
  : result OutputTable :=
  data ← output_rows 0 baskets scores;
  mret (mkOutputTable output_columns data).

End OutputTable.

(** ** The association network ([create_association_network]) *)

Definition _BASKET_KEYS : list string := ["PrecMz"; "RetTime"; "PrecIntensity"].

Module Basket.

(** The named tuple [Basket]. *)
Record t : Type := mk {
  id : nat;
  freq : nat;
  samples : string;
  PrecMz : R;
  RetTime : R;
  PrecIntensity : R;
  activity_score : R;
  cluster_score : R
}.

End Basket.

Inductive node_key : Type :=
| SampleKey (samp : string)
| BasketKey (bid : nat).

#[global] Instance node_key_eq_dec : EqDecision node_key.
Proof. solve_decision. Defined.

(** The attribute dictionary of a node: the four attributes of a sample
    node, those of a basket node together with the fields of its named
    tuple, or nothing for a node that only [add_edge] created. *)
Inductive node_attrs : Type :=
| SampleAttrs (type_ : string) (radius : Z) (depth : nat) (color : string)
| BasketAttrs (b : Basket.t) (type_ : string) (radius : Z) (depth : nat)
    (color : string)
| NoAttrs.

Record Graph : Type := mkGraph {
  nodes : list (node_key * node_attrs);
  edges : list (node_key * node_key)
}.

Definition has_node (G : Graph) (k : node_key) : bool :=
  existsb (fun n => bool_decide (fst n = k)) (nodes G).

(** [G.add_node(k, **attrs)]: a new node goes last, the attributes of an
    existing one are replaced. *)
Definition add_node (G : Graph) (k : node_key) (a : node_attrs) : Graph :=
  if has_node G k
  then mkGraph (map (fun n => if bool_decide (fst n = k) then (k, a) else n) (nodes G))
               (edges G)
  else mkGraph (nodes G ++ [(k, a)]) (edges G).

Definition ensure_node (G : Graph) (k : node_key) : Graph :=
  if has_node G k then G else mkGraph (nodes G ++ [(k, NoAttrs)]) (edges G).

(** [G.add_edge(u, v)]: both ends become nodes if they are not yet. *)
Definition add_edge (G : Graph) (e : node_key * node_key) : Graph :=
  let G' := ensure_node (ensure_node G (fst e)) (snd e) in
  mkGraph (nodes G') (edges G' ++ [e]).

(** The lists and the set the first loop fills. *)
Record collected : Type := mkCollected {
  c_edges : list (node_key * node_key);
  c_basket_info : list Basket.t;
  c_samples : gset string;
  c_activity_scores : list R
}.

(** The colour of a basket node, from the [cluster_score] attribute of
    the node. *)
Definition node_color (cluster_score : R) : string :=
  if Rlt_dec 0.75 cluster_score then "rgb(165,0,38)"
  else if Rlt_dec 0.5 cluster_score then "rgb(215,48,39)"
  else if Rlt_dec 0.25 cluster_score then "rgb(244,109,67)"
  else if Rlt_dec 0 cluster_score then "rgb(253,174,97)"
  else if Rlt_dec (-0.25) cluster_score then "rgb(171,217,233)"
  else if Rlt_dec (-0.5) cluster_score then "rbg(116,173,209)"
  else if Rlt_dec (-0.75) cluster_score then "rgb(69,117,180)"
  else "rgb(49,54,149)".

(** [round(3 + ((10 - 3) * (a - min(scores))) / (max(scores) - min(scores)))]
    on [numpy.float64] values: a zero divisor gives [NaN] or an infinity,
    which [round] refuses to convert to an integer. *)
Definition node_size (a : R) (activity_scores : list R) : result Z :=
  match Np.list_min activity_scores, Np.list_max activity_scores with
  | Some lo, Some hi =>
      let num := ((10 - 3) * (a - lo))%R in
      let den := (hi - lo)%R in
      if Req_dec_T den 0 then
        if Req_dec_T num 0
        then Raise (ValueError "cannot convert float NaN to integer")
        else Raise (OverflowError "cannot convert float infinity to integer")
      else Ok (Np.round (3 + num / den))
  | _, _ => Raise (ValueError "min() arg is an empty sequence")
  end.

Section Network.

Variable set_iter : gset string → list string.

(** [[round(bask[k], 4) for k in _BASKET_KEYS]]: the [KeyError] of the
    first missing key, or the rounded values. *)
Fixpoint rounded_values (bask : basket) (keys : list string) : result (list R) :=
  match keys with
  | [] => Ok []
  | k :: rest =>
      v ← bask_get bask k;
      vs ← rounded_values bask rest;
      mret (Np.round_to v 4 :: vs)
  end.

(** The three values that fill the fields [PrecMz], [RetTime] and
    [PrecIntensity] of the named tuple. *)
Definition basket_keys_rounded (bask : basket) : result (R * R * R) :=
  vs ← rounded_values bask _BASKET_KEYS;
  match vs with
  | [mz; rt; inten] => mret (mz, rt, inten)
  | _ => Raise (ValueError "Basket() takes 8 positional arguments")
  end.

(** One turn of the first loop.  [scores[i]] outside the list leaves the
    function; a [KeyError] is logged after the score, the samples and the
    edges of the basket have been recorded. *)
Definition collect_basket (i : nat) (bask : basket) (scores : list Score)
    (c : collected) : Py collected :=
  let bid := i in
  match scores_get scores i with
  | Raise e => ([], Raise e)
  | Ok sc =>
      let act := activity sc in
      let clust := cluster sc in
      let c1 := mkCollected
        (c_edges c ++ map (fun samp => (BasketKey bid, SampleKey samp))
                          (set_iter (samples bask)))
        (c_basket_info c)
        (c_samples c ∪ samples bask)
        (c_activity_scores c ++ [act]) in
      match basket_keys_rounded bask with
      | Ok (mz, rt, inten) =>
          let b := Basket.mk bid (size (samples bask))
                     (Builtin.join ";" (set_iter (samples bask)))
                     mz rt inten (Np.round_to act 2) (Np.round_to clust 2) in
          ([], Ok (mkCollected (c_edges c1) (c_basket_info c1 ++ [b])
                     (c_samples c1) (c_activity_scores c1)))
      | Raise (KeyError k) => ([Warning (KeyError k)], Ok c1)
      | Raise e => ([], Raise e)
      end
  end.

Fixpoint collect_baskets (i : nat) (baskets : list basket) (scores : list Score)
    (c : collected) : Py collected :=
  match baskets with
  | [] => mret c
  | bask :: rest =>
      c' ← collect_basket i bask scores c;
      collect_baskets (S i) rest scores c'
  end.

Definition add_sample_node (G : Graph) (samp : string) : Graph :=
  add_node G (SampleKey samp) (SampleAttrs "sample" 6 0 "rgb(51,51,51)").

(** One turn of the loop over [basket_info]. *)
Definition add_basket_node (activity_scores : list R) (G : Graph) (b : Basket.t)
  : result Graph :=
  nodeSize ← node_size (Basket.activity_score b) activity_scores;
  let color := node_color (Basket.cluster_score b) in
  mret (add_node G (BasketKey (Basket.id b)) (BasketAttrs b "basket" nodeSize 1 color)).

Fixpoint add_basket_nodes (activity_scores : list R) (G : Graph)
    (basket_info : list Basket.t) : result Graph :=
  match basket_info with
  | [] => Ok G
  | b :: rest =>
      G' ← add_basket_node activity_scores G b;
      add_basket_nodes activity_scores G' rest
  end.

Definition create_association_network (baskets : list basket) (scores : list Score)
  : Py Graph :=
  _ ← py_info "Generating association network...";
  c ← collect_baskets 0 baskets scores (mkCollected [] [] ∅ []);
  let G0 := foldl add_sample_node (mkGraph [] []) (set_iter (c_samples c)) in
  py_lift (G1 ← add_basket_nodes (c_activity_scores c) G0 (c_basket_info c);
           mret (foldl add_edge G1 (c_edges c))).

End Network.

(** ** Feature tables and the file system ([core.py]) *)

Inductive cell : Type :=
| CStr (s : string)
| CNum (x : R).

(** A [pandas.DataFrame] of features: the column labels and the rows; a
    row maps a column to its cell, a column it does not map is null
    ([NaN]) in that row. *)
Record Frame : Type := mkFrame {
  f_columns : list string;
  f_rows : list (gmap string cell)
}.

(** [df[col]]. *)
Definition frame_get (df : Frame) (col : string) : result (list (option cell)) :=
  if bool_decide (col ∈ f_columns df)
  then Ok (map (fun r => r !! col) (f_rows df))
  else Raise (KeyError col).

(** [np.where(cond, a, b)] on three columns of one length. *)
Fixpoint np_where {A} (cond : list bool) (a b : list A) : list A :=
  match cond, a, b with
  | c :: cond', x :: a', y :: b' => (if c then x else y) :: np_where cond' a' b'
  | _, _, _ => []
  end.

Definition isnull (col : list (option cell)) : list bool :=
  map (fun v => match v with None => true | Some _ => false end) col.

Definition set_cell (col : string) (r : gmap string cell) (v : option cell)
  : gmap string cell :=
  match v with
  | Some c => <[col := c]> r
  | None => delete col r
  end.

(** [df[col] = values]. *)
Definition frame_set (df : Frame) (col : string) (values : list (option cell)) : Frame :=
  mkFrame (if bool_decide (col ∈ f_columns df) then f_columns df
           else f_columns df ++ [col])
          (zip_with (set_cell col) (f_rows df) values).

(** [df.dropna(subset=[col], inplace=True)]. *)
Definition dropna (df : Frame) (col : string) : Frame :=
  mkFrame (f_columns df) (filter (fun r => is_Some (r !! col)) (f_rows df)).

(** [df.shape[0]] and [len(df)]. *)
Definition frame_len (df : Frame) : nat := length (f_rows df).

(** [series.apply(lambda x: len(x.split("|")))] on one cell: only a
    string has [split]. *)
Definition count_files (v : option cell) : result (option cell) :=
  match v with
  | Some (CStr x) => Ok (Some (CNum (INR (length (Str.split delim x)))))
  | Some (CNum _) => Raise (AttributeError "'float' object has no attribute 'split'")
  | None => Raise (AttributeError "'float' object has no attribute 'split'")
  end.

Fixpoint apply_count_files (col : list (option cell)) : result (list (option cell)) :=
  match col with
  | [] => Ok []
  | v :: rest =>
      n ← count_files v;
      ns ← apply_count_files rest;
      mret (n :: ns)
  end.

Record config : Type := mkConfig {
  FILENAMECOL : string;
  MS1COLS : list string;
  MS1COLSTOMATCH : list string;
  MS1ERRORCOLS : list string;
  ERRORINFO : list (string * (option string * option R));
  CALCBASKETINFO : bool;
  MINREPS : nat
}.

(** The files written so far, by path. *)
Definition Io (A : Type) : Type :=
  gmap string Frame → (gmap string Frame * list logrec * result A)%type.

#[global] Instance Io_ret : MRet Io := fun A a fs => (fs, [], Ok a).
#[global] Instance Io_bind : MBind Io := fun A B k m fs =>
  match m fs with
  | (fs1, log, Ok a) =>
      let '(fs2, log', r) := k a fs1 in (fs2, (log ++ log')%list, r)
  | (fs1, log, Raise e) => (fs1, log, Raise e)
  end.

Definition io_lift {A} (r : result A) : Io A := fun fs => (fs, [], r).
Definition io_log (l : logrec) : Io unit := fun fs => (fs, [l], Ok tt).

(** [df.to_csv(path)]. *)
Definition to_csv (df : Frame) (path : string) : Io unit :=
  fun fs => (<[path := df]> fs, [], Ok tt).

(** [dir.joinpath(name)]. *)
Definition joinpath (dir name : string) : string := dir ++ "/" ++ name.

(** [pd.concat(dfs)]: the columns in the order they first appear, the
    rows of the tables one after the other. *)
Definition pd_concat (dfs : list Frame) : result Frame :=
  match dfs with
  | [] => Raise (ValueError "No objects to concatenate")
  | _ => Ok (mkFrame (remove_dups (concat (map f_columns dfs)))
                     (concat (map f_rows dfs)))
  end.

Section Core.

(** The functions of [npanalyst.utils] the orchestration calls. *)
Variable rtree_index : Type.
Variable hyperrectangle : Type.
Variable mzml_to_df : string → config → result Frame.
Variable add_error_cols :
  Frame → list string → list (string * (option string * option R)) → Frame.
Variable build_rtree : Frame → list string → rtree_index.
Variable get_hyperrectangles : Frame → list string → list hyperrectangle.
Variable generate_connected_components :
  rtree_index → list hyperrectangle → list (list nat).
Variable collapse_connected_components :
  list (list nat) → Frame → config → nat → Frame.
Variable generate_rep_df_paths : string → list (string * list string).

(** The consolidated tables stored in a directory, as the external
    loader reads them. *)
Variable read_replicated : string → list Frame.

(** Modelled from the spec: [utils.make_repdf], whose source is
    missing; it "loads all per-sample consolidated tables, concatenates
    them into one table". *)
Definition make_repdf (datadir : string) : result Frame :=
  pd_concat (read_replicated datadir).

(** [outputdir.joinpath("replicated").joinpath(f"{sample}_replicated.csv")]. *)
Definition replicated_path (outputdir sample : string) : string :=
  joinpath (joinpath outputdir "replicated") (sample ++ "_replicated.csv").

(** [[utils.mzml_to_df(p, configd) for p in data_paths]]. *)
Fixpoint load_all (data_paths : list string) (configd : config)
  : result (list Frame) :=
  match data_paths with
  | [] => Ok []
  | p :: rest =>
      df ← mzml_to_df p configd;
      dfs ← load_all rest configd;
      mret (df :: dfs)
  end.

Definition replicate_compare_sample (sample : string) (data_paths : list string)
    (configd : config) (outputdir : string) : Io unit :=
  _ ← io_log (Info ("Loading " ++ pretty (length data_paths)
                      ++ " MS data files for " ++ sample));
  dfs ← io_lift (load_all data_paths configd);
  df ← io_lift (pd_concat dfs);
  let df := add_error_cols df (MS1COLSTOMATCH configd) (ERRORINFO configd) in
  let rtree := build_rtree df (MS1ERRORCOLS configd) in
  let con_comps := generate_connected_components rtree
                     (get_hyperrectangles df (MS1ERRORCOLS configd)) in
  let ndf := collapse_connected_components con_comps df configd (MINREPS configd) in
  to_csv ndf (replicated_path outputdir sample).

(** The table [replicate_compare_sample] computes for a sample, or the
    exception that stops it. *)
Definition replicated_table (data_paths : list string) (configd : config)
  : result Frame :=
  dfs ← load_all data_paths configd;
  df ← pd_concat dfs;
  let df := add_error_cols df (MS1COLSTOMATCH configd) (ERRORINFO configd) in
  mret (collapse_connected_components
          (generate_connected_components
             (build_rtree df (MS1ERRORCOLS configd))
             (get_hyperrectangles df (MS1ERRORCOLS configd)))
          df configd (MINREPS configd)).

(** The tasks of [process_replicates] run one after the other, in the
    order of [paths_iter]: the schedule of [Parallel] with one worker.
    The first exception of a task leaves the call. *)
Fixpoint run_replicate_tasks (tasks : list (string * list string))
    (configd : config) (outputdir : string) : Io unit :=
  match tasks with
  | [] => mret tt
  | (sample, paths) :: rest =>
      _ ← replicate_compare_sample sample paths configd outputdir;
      run_replicate_tasks rest configd outputdir
  end.

(** The directory [replicated] that the function first makes has no
    counterpart in the map of files. *)
Definition process_replicates (datadir outputdir : string) (configd : config)
  : Io unit :=
  run_replicate_tasks (generate_rep_df_paths datadir) configd outputdir.

Definition basket_replicated (datadir : string) (configd : config) : Io unit :=
  _ ← io_log (Info "Loading Rep Files");
  df ← io_lift (make_repdf datadir);
  let orig_len := frame_len df in
  fcol ← io_lift (frame_get df (FILENAMECOL configd));
  scol ← io_lift (frame_get df "Sample");
  let df := frame_set df (FILENAMECOL configd) (np_where (isnull fcol) scol fcol) in
  let df := dropna df (FILENAMECOL configd) in
  _ ← io_log (Info ("Dropped " ++ pretty (orig_len - frame_len df)%nat
                      ++ " rows missing values in " ++ FILENAMECOL configd));
  let df := add_error_cols df (MS1COLSTOMATCH configd) (ERRORINFO configd) in
  _ ← io_log (Info "Making Rtree Index");
  let rtree := build_rtree df (MS1ERRORCOLS configd) in
  _ ← io_log (Info "Generating Baskets");
  let con_comps := generate_connected_components rtree
                     (get_hyperrectangles df (MS1ERRORCOLS configd)) in
  let ndf := collapse_connected_components con_comps df configd 1 in
  ncol ← io_lift (frame_get ndf (FILENAMECOL configd));
  freq ← io_lift (apply_count_files ncol);
  let ndf := frame_set ndf "freq" freq in
  to_csv ndf (joinpath datadir "basketed.csv").

End Core.

(** ** Reference definitions the properties are stated against *)

(** [s] ends with [suffix]. *)
Definition ends_with (s suffix : string) : Prop := ∃ pre, s = pre ++ suffix.

(** An underscore and a digit [d]. *)
Definition underscore_digit (d : ascii) : string := String "_" (String d EmptyString).

(** The entry ends with an underscore and one decimal digit. *)
Definition numbered (e : string) : Prop :=
  ∃ d, Str.is_digit d = true ∧ ends_with e (underscore_digit d).

(** The same, or that followed by one last newline. *)
Definition numbered_or_newline (e : string) : Prop :=
  ∃ d, Str.is_digit d = true ∧
       (ends_with e (underscore_digit d) ∨
        ends_with e (underscore_digit d ++ String Str.newline EmptyString)).

(** The set the entries of a file name string give when an entry that
    ends with an underscore and a digit gives its part before the first
    underscore, and any other entry gives itself. *)
Definition samples_of_numbered_entries (filenames : string) : gset string :=
  list_to_set
    (map (fun e => if Str.ends_underscore_digit e
                   then Str.before_first fn_delim e else e)
         (Str.split delim filenames)).

(** Every row of the table has [ncols] entries. *)
Definition rectangular (fpd : gmap string Np.vec) (ncols : nat) : Prop :=
  ∀ s row, fpd !! s = Some row → length row = ncols.

(** The samples of a set that label a row of the table. *)
Definition found_samples (fpd : gmap string Np.vec) (S : gset string) : list string :=
  elements (filter (fun s => is_Some (fpd !! s)) S).

(** Entry [c] of the fingerprint of sample [s]. *)
Definition fingerprint_entry (fpd : gmap string Np.vec) (s : string) (c : nat) : R :=
  nth c (default [] (fpd !! s)) 0%R.

(** Entry [c] of the arithmetic mean of the fingerprints of [found]. *)
Definition mean_fingerprint_entry (fpd : gmap string Np.vec) (found : list string)
    (c : nat) : R :=
  (Np.sum (map (fun s => fingerprint_entry fpd s c) found) / INR (length found))%R.

(** The sum of the squares of the entries of that mean. *)
Definition activity_of_mean_fingerprint (fpd : gmap string Np.vec)
    (found : list string) (ncols : nat) : R :=
  Np.sum (map (fun c => (mean_fingerprint_entry fpd found c ^ 2)%R) (seq 0 ncols)).

(** The index pairs of an [n] by [n] matrix off its diagonal. *)
Definition offdiag_indices (n : nat) : list (nat * nat) :=
  flat_map (fun i => map (pair i) (filter (fun k => k ≠ i) (seq 0 n))) (seq 0 n).

(** The correlation of fingerprints [i] and [k], [0] in place of [NaN]. *)
Definition corr_or_zero (fps : list Np.vec) (ik : nat * nat) : R :=
  default 0%R (Np.pearson (nth (fst ik) fps []) (nth (snd ik) fps [])).

(** The mean of the off-diagonal entries of the correlation matrix of
    [fps], a [NaN] entry adding [0] to the sum and [1] to the count. *)
Definition mean_offdiag_corr (fps : list Np.vec) : R :=
  (Np.sum (map (corr_or_zero fps) (offdiag_indices (length fps)))
   / INR (length (offdiag_indices (length fps))))%R.

(** The warnings [get_samples_fps] logs for a sample list. *)
Definition missing_warnings (fpd : gmap string Np.vec) (samples : list string)
  : list logrec :=
  map (fun s => Warning (KeyError s)) (filter (fun s => ¬ is_Some (fpd !! s)) samples).

(** The value [cluster_score] returns once it has the fingerprints. *)
Definition cluster_of_fps (fps : list Np.vec) : R :=
  if decide (length fps = 1%nat) then 0%R
  else (Np.nansum (Np.take_at None (Np.corr fps)
                     (Np.triu_indices (length (Np.corr fps))))
        / ((INR (length fps) ^ 2 - INR (length fps)) / 2))%R.

(** The value [score_basket] returns once it has the fingerprints. *)
Definition score_of_fps (fps : list Np.vec) : Score :=
  mkScore (Np.sum (map (fun v => v ^ 2)%R (Np.mean_axis0 fps))) (cluster_of_fps fps).

(** The graph has a node for basket [i] that carries basket attributes. *)
Definition has_basket_node (G : Graph) (i : nat) : Prop :=
  ∃ b t r d c, (BasketKey i, BasketAttrs b t r d c) ∈ nodes G ∧ Basket.id b = i.

(** The order of [sorted] on strings. *)
Definition str_le (a b : string) : Prop := String.leb a b = true.

(** What the row of basket [i] holds, given the score of the basket. *)
Definition row_of (i : nat) (bask : basket) (sc : Score) (row : table_row) : Prop :=
  row_BasketID row = i ∧
  row_Frequency row = size (samples bask) ∧
  ms1 bask !! "PrecMz" = Some (row_PrecMz row) ∧
  ms1 bask !! "PrecIntensity" = Some (row_PrecIntensity row) ∧
  ms1 bask !! "RetTime" = Some (row_RetTime row) ∧
  (∃ names, row_SampleList row = Builtin.json_dumps names ∧
            Sorted str_le names ∧ names ≡ₚ elements (samples bask)) ∧
  row_ACTIVITY_SCORE row = activity sc ∧
  row_CLUSTER_SCORE row = cluster sc.

(** A row after the repair of the file name column: unchanged when it
    has a file name, with the value of [Sample] as file name when it has
    only that, dropped when it has neither. *)
Definition repair_row (fcol : string) (r : gmap string cell)
  : option (gmap string cell) :=
  match r !! fcol with
  | Some _ => Some r
  | None =>
      match r !! "Sample" with
      | Some v => Some (<[fcol := v]> r)
      | None => None
      end
  end.

Definition repaired_rows (fcol : string) (rows : list (gmap string cell))
  : list (gmap string cell) :=
  omap (repair_row fcol) rows.


(** The number of ['|']-delimited file names of a file name string. *)
Definition file_count (x : string) : nat := length (Str.split delim x).

(** The sums of [f i k] over the pairs above the diagonal, below it, and
    above it with the arguments exchanged. *)
Definition upper_sum (f : nat → nat → R) (n : nat) : R :=
  Np.sum (map (fun i => Np.sum (map (f i) (seq (S i) (n - S i)))) (seq 0 n)).

Definition lower_sum (f : nat → nat → R) (n : nat) : R :=
  Np.sum (map (fun i => Np.sum (map (f i) (seq 0 i))) (seq 0 n)).

Definition upper_swapped_sum (f : nat → nat → R) (n : nat) : R :=
  Np.sum (map (fun i => Np.sum (map (fun k => f k i) (seq (S i) (n - S i)))) (seq 0 n)).

(** The named tuple [b] belongs to one of the first [n] baskets and
    carries the scores of that basket, rounded to two digits. *)
Definition info_of (scores : list Score) (n : nat) (b : Basket.t) : Prop :=
  (Basket.id b < n)%nat ∧
  ∃ sc, scores !! Basket.id b = Some sc ∧
        Basket.activity_score b = Np.round_to (activity sc) 2 ∧
        Basket.cluster_score b = Np.round_to (cluster sc) 2.

(** The basket has the three columns the table and the network read. *)
Definition has_basket_keys (bask : basket) : Prop :=
  is_Some (ms1 bask !! "PrecMz") ∧ is_Some (ms1 bask !! "RetTime") ∧
  is_Some (ms1 bask !! "PrecIntensity").

(** The attributes are those of a basket node made from the named tuple
    of one of the first [n] baskets, its radius the node size for the
    activity scores [acts] and its colour that of its own
    [cluster_score]. *)
Definition basket_attrs_ok (scores : list Score) (n : nat) (acts : list R)
    (kn : node_key * node_attrs) : Prop :=
  match kn.2 with
  | BasketAttrs b t r d c =>
      info_of scores n b ∧
      kn.1 = BasketKey (Basket.id b) ∧ t = "basket" ∧ d = 1%nat ∧
      node_size (Basket.activity_score b) acts = Ok r ∧
      c = node_color (Basket.cluster_score b)
  | _ => True
  end.

(** ** Example data *)

Definition example_cols : gmap string R :=
  <["PrecMz" := 500%R]> (<["RetTime" := 5%R]> (<["PrecIntensity" := 1000%R]> ∅)).

Definition one_file_newline : string := "A_1" ++ String Str.newline EmptyString.

(** An activity table with the rows of samples [A] and [B]. *)
Definition table_AB : gmap string Np.vec :=
  <["A" := [1; 2]%R]> (<["B" := [3; 4]%R]> ∅).

(** A basket seen in [A], [B] and in a sample the table does not have, a
    basket seen in [A] only, and one seen in no sample of the table. *)
Definition basket_ABZ : basket := mkBasket example_cols "A_1|B_1|Z" ({[ "A" ]} ∪ {[ "B" ]} ∪ {[ "Z" ]}).
Definition basket_A : basket := mkBasket example_cols "A_1" {[ "A" ]}.
Definition basket_Z : basket := mkBasket example_cols "Z" {[ "Z" ]}.

(** The run of [score_baskets] returns its list of scores. *)
Definition run_completes (baskets : list basket) (activity_df : gmap string Np.vec)
  : Prop :=
  ∃ scores, py_result (score_baskets elements baskets activity_df) = Ok scores.

(** Two baskets with different activity scores, and with the same. *)
Definition two_baskets : list basket := [basket_A; basket_ABZ].
Definition scores_1_2 : list Score := [mkScore 1 0.8; mkScore 2 (-0.9)].


(** The colours of the eight bands, from the highest band down. *)
Definition band_colors : list string :=
  ["rgb(165,0,38)"; "rgb(215,48,39)"; "rgb(244,109,67)"; "rgb(253,174,97)";
   "rgb(171,217,233)"; "rbg(116,173,209)"; "rgb(69,117,180)"; "rgb(49,54,149)"].

(** The eight cluster scores of the basket table scenario. *)
Definition scenario_cluster_scores : list R :=
  [0.8; 0.6; 0.3; 0.1; -0.1; -0.3; -0.6; -0.9]%R.

(** The files an [Io] computation leaves, and its result. *)
Definition io_files {A} (out : gmap string Frame * list logrec * result A)
  : gmap string Frame := out.1.1.
Definition io_result {A} (out : gmap string Frame * list logrec * result A)
  : result A := out.2.

(** A loader that cannot read the file [bad.mzml], and stand-ins for
    the consolidation functions that keep the table as it is. *)
Definition one_row (fname : string) : Frame :=
  mkFrame ["Sample"; "PrecMz"]
          [<["Sample" := CStr fname]> (<["PrecMz" := CNum 500]> ∅)].

Definition loader (p : string) (configd : config) : result Frame :=
  if bool_decide (p = "bad.mzml") then Raise (OSError p) else Ok (one_row p).

Definition keep_cols (df : Frame) (cols : list string)
    (errors : list (string * (option string * option R))) : Frame := df.
Definition no_index (df : Frame) (cols : list string) : unit := tt.
Definition no_rectangles (df : Frame) (cols : list string) : list unit := [].
Definition no_components (idx : unit) (rects : list unit) : list (list nat) := [].
Definition keep_table (comps : list (list nat)) (df : Frame) (configd : config)
    (min_reps : nat) : Frame := df.

Definition example_config : config :=
  mkConfig "Sample" ["PrecMz"] ["PrecMz"] ["PrecMz_low"; "PrecMz_high"] [] false 2.

(** Two samples; the only file of the first cannot be read. *)
Definition bad_then_good (datadir : string) : list (string * list string) :=
  [("S1", ["bad.mzml"]); ("S2", ["good.mzml"])].

Definition good_only (datadir : string) : list (string * list string) :=
  [("S2", ["good.mzml"])].

(** Two stored tables: a row with file names, a row with only a
    [Sample] value, and a row with neither. *)
Definition row_files : gmap string cell :=
  <["FileName" := CStr "A_1|A_2"]> (<["Sample" := CStr "A"]> (<["PrecMz" := CNum 500]> ∅)).
Definition row_sample_only : gmap string cell :=
  <["Sample" := CStr "B"]> (<["PrecMz" := CNum 501]> ∅).
Definition row_neither : gmap string cell := <["PrecMz" := CNum 502]> ∅.


Definition stored_concat : Frame :=
  mkFrame ["FileName"; "Sample"; "PrecMz"] [row_files; row_sample_only; row_neither].

Definition filename_config : config :=
  mkConfig "FileName" ["PrecMz"] ["PrecMz"] ["PrecMz_low"; "PrecMz_high"] [] false 2.

(** ** Further reference definitions *)

(** The number of occurrences of a character in a string. *)
Fixpoint count_char (c : ascii) (s : string) : nat :=
  match s with
  | EmptyString => 0
  | String c' rest => (if Ascii.eqb c' c then 1 else 0) + count_char c rest
  end.

(** The sum of [g x y] over the pairs of members of a list, [x] the one
    that comes first. *)
Fixpoint upper_pairs (g : Np.vec → Np.vec → R) (l : list Np.vec) : R :=
  match l with
  | [] => 0%R
  | x :: r => (Np.sum (map (g x) r) + upper_pairs g r)%R
  end.

(** The correlation of two fingerprints, [0] in place of [NaN]. *)
Definition pearson_or_zero (x y : Np.vec) : R := default 0%R (Np.pearson x y).

(** A fingerprint whose entries are all the same. *)
Definition constant_row (row : Np.vec) : Prop := ∃ c n, row = replicate n c.

(** The iteration order of a set, reversed. *)
Definition elements_rev (S : gset string) : list string := reverse (elements S).

(** A basket seen in [A] and [B]. *)
Definition basket_AB : basket := mkBasket example_cols "B_1|A_1" ({[ "A" ]} ∪ {[ "B" ]}).

(** An activity table whose rows are flat, and one whose rows agree. *)
Definition table_flat : gmap string Np.vec :=
  <["A" := [2; 2]%R]> (<["B" := [5; 5]%R]> ∅).

#[global] Instance has_basket_keys_dec (bask : basket) : Decision (has_basket_keys bask).
Proof. unfold has_basket_keys. apply _. Defined.

(** The positions, counted from [i], of the baskets that have the three
    columns. *)
Fixpoint keyed_ids (i : nat) (baskets : list basket) : list nat :=
  match baskets with
  | [] => []
  | bask :: rest =>
      if decide (has_basket_keys bask) then i :: keyed_ids (S i) rest
      else keyed_ids (S i) rest
  end.

(** A basket without the column [RetTime]. *)
Definition basket_no_rt : basket :=
  mkBasket (<["PrecMz" := 500%R]> (<["PrecIntensity" := 1000%R]> ∅)) "B_1" {[ "B" ]}.

(** The edges of the baskets from position [i] on: one for each basket
    and each of its samples, in the order of the loop. *)
Fixpoint membership_edges (set_iter : gset string → list string) (i : nat)
    (baskets : list basket) : list (node_key * node_key) :=
  match baskets with
  | [] => []
  | bask :: rest =>
      (map (fun samp => (BasketKey i, SampleKey samp)) (set_iter (samples bask))
       ++ membership_edges set_iter (S i) rest)%list
  end.

(** The samples of all baskets. *)
Definition all_samples (baskets : list basket) : gset string :=
  ⋃ (map samples baskets).

(** The first of the three columns that a basket lacks. *)
Definition first_missing_key (bask : basket) : option string :=
  List.find (fun k => bool_decide (ms1 bask !! k = None)) _BASKET_KEYS.

(** The warning the first loop of the network logs for a basket. *)
Definition key_warning (bask : basket) : list logrec :=
  match first_missing_key bask with
  | Some k => [Warning (KeyError k)]
  | None => []
  end.

Definition node_keys (G : Graph) : list node_key := map fst (nodes G).

(** The attributes of a sample node. *)
Definition sample_attrs : node_attrs := SampleAttrs "sample" 6 0 "rgb(51,51,51)".

(** What the attributes of a node say about its key: a sample node has
    a sample key, a basket node the position of one of the baskets that
    have the three columns. *)
Definition attrs_match_key (baskets : list basket) (n : node_key * node_attrs) : Prop :=
  match n.2 with
  | SampleAttrs _ _ _ _ => ∃ s, n.1 = SampleKey s
  | BasketAttrs b _ _ _ _ => ∃ j, n.1 = BasketKey j ∧ j ∈ keyed_ids 0 baskets
  | NoAttrs => True
  end.

(** Three baskets, the first without the column [RetTime], and a score
    for each. *)
Definition three_baskets : list basket := [basket_no_rt; basket_A; basket_ABZ].
Definition scores_5_1_2 : list Score := [mkScore 5 0; mkScore 1 0.8; mkScore 2 (-0.9)].

(** One stored table without the column [Sample], whose rows all have a
    file name. *)
Definition tables_no_sample (datadir : string) : list Frame :=
  [mkFrame ["FileName"; "PrecMz"]
     [<["FileName" := CStr "A_1|A_2"]> (<["PrecMz" := CNum 500]> ∅)]].

(** The two statements of [basket_replicated] that repair the file name
    column [fcol] of a table: the fill from [Sample], then [dropna]. *)
Definition fill_and_dropna (df : Frame) (fcol : string) : Frame :=
  dropna (frame_set df fcol
            (np_where (isnull (map (fun r => r !! fcol) (f_rows df)))
                      (map (fun r => r !! "Sample") (f_rows df))
                      (map (fun r => r !! fcol) (f_rows df))))
         fcol.

(** ** The tolerances of the configuration ([load_config]) *)

Section Tolerances.

(** [float(s)] of Python. *)
Variable py_float : string → result R.

(** The body of the loop over [config["Tolerances"].items()]:
    [etype, ev = tup.split(",")], then ["None"] becomes [None] and any
    other [ev] goes through [float]. *)
Definition tolerance_entry (tup : string) : result (option string * option R) :=
  match Str.split "," tup with
  | [etype; ev] =>
      let etype := if String.eqb etype "None" then None else Some etype in
      if String.eqb ev "None" then Ok (etype, None)
      else v ← py_float ev; mret (etype, Some v)
  | [] => Raise (ValueError "not enough values to unpack (expected 2, got 0)")
  | [_] => Raise (ValueError "not enough values to unpack (expected 2, got 1)")
  | _ => Raise (ValueError "too many values to unpack (expected 2)")
  end.

(** The loop: [ERRORINFO[name] = (etype, ev)] for each item, in the order
    of the items. *)
Fixpoint load_tolerances (items : list (string * string))
  : result (list (string * (option string * option R))) :=
  match items with
  | [] => Ok []
  | (name, tup) :: rest =>
      e ← tolerance_entry tup;
      es ← load_tolerances rest;
      mret ((name, e) :: es)
  end.

End Tolerances.

(** A [float] that knows two numerals. *)
Definition float_of_two (s : string) : result R :=
  if String.eqb s "10" then Ok 10%R
  else if String.eqb s "0.03" then Ok 0.03%R
  else Raise (ValueError ("could not convert string to float: " ++ s)).

(** ** The command line ([cli.py]) *)

Module Cli.

(** The [choices] of the argument [task]. *)
Inductive Task : Type :=
| task_replicate | task_basket | task_both | task_activity | task_full_pipeline.

#[global] Instance Task_eq_dec : EqDecision Task.
Proof. solve_decision. Defined.

(** The namespace [parse_args] returns; [activity_data] is [None] when
    the option is not given. *)
Record Args : Type := mkArgs {
  path : string;
  task : Task;
  workers : Z;
  filename_col : string;
  basket_info : bool;
  ms2 : bool;
  activity_data : option string
}.

(** A [pathlib] path: [Path(s)] or [p.joinpath(name)]. *)
Inductive PurePath : Type :=
| Path (s : string)
| Joinpath (p : PurePath) (name : string).

(** The truth value of [args.activity_data]: [None] and the empty string
    are false. *)
Definition truthy (v : option string) : bool :=
  match v with
  | Some s => negb (String.eqb s EmptyString)
  | None => false
  end.

Section Main.

(** A command changes the world and returns or raises. *)
Variable world : Type.

Definition Cmd : Type := world → world * result unit.

(** The functions [main] imports from [metabolate.core], whose source is
    missing, and the built-in [print]. *)
Variable mp_proc_folder : PurePath → string → Z → bool → Cmd.
Variable basket : PurePath → string → bool → bool → Cmd.
Variable load_and_generate_act_outputs : PurePath → string → Cmd.
Variable print : string → Cmd.

Definition skip : Cmd := fun w => (w, Ok tt).

Definition seq (a b : Cmd) : Cmd := fun w =>
  match a w with
  | (w', Ok _) => b w'
  | (w', Raise e) => (w', Raise e)
  end.

Definition when (c : bool) (a : Cmd) : Cmd := if c then a else skip.

Definition main (args : Args) : Cmd :=
  let data_path := Path (path args) in
  seq (when (bool_decide (task args ∈ [task_replicate; task_both; task_full_pipeline]))
         (mp_proc_folder data_path (filename_col args) (workers args) (basket_info args)))
  (let data_path :=
     if bool_decide (task args ∈ [task_basket; task_both; task_full_pipeline])
     then (if bool_decide (task args = task_both)
           then Joinpath data_path "Replicated"
           else Path (path args))
     else data_path in
   seq (when (bool_decide (task args ∈ [task_basket; task_both; task_full_pipeline]))
          (basket data_path (filename_col args) (ms2 args) (basket_info args)))
   (seq (when (truthy (activity_data args)
               && negb (bool_decide (task args ∈ [task_both; task_basket])))
           (print "path argument must be path to basketed data file"))
        (when (truthy (activity_data args)
               && bool_decide (task args ∈ [task_activity; task_full_pipeline]))
           (load_and_generate_act_outputs data_path
              (default EmptyString (activity_data args)))))).

End Main.

(** The calls [main] can make, with their arguments. *)
Inductive call : Type :=
| call_mp_proc_folder (data_path : PurePath) (FILENAMECOL : string)
    (max_workers : Z) (calc_basket_info : bool)
| call_basket (data_path : PurePath) (filename_col : string)
    (ms2 calc_basket_info : bool)
| call_load_and_generate_act_outputs (data_path : PurePath) (activity_data : string)
| call_print (msg : string).

(** A command that records a call and returns. *)
Definition record (c : call) : Cmd (list call) := fun w => ((w ++ [c])%list, Ok tt).

(** The calls of a run of [main] in which every call returns. *)
Definition main_calls (args : Args) : list call :=
  (main (list call)
     (fun p f w b => record (call_mp_proc_folder p f w b))
     (fun p f m b => record (call_basket p f m b))
     (fun p a => record (call_load_and_generate_act_outputs p a))
     (fun msg => record (call_print msg))
     args []).1.

End Cli.

(** ** Further reference definitions for the log and the files *)

(** The sample names of the [KeyError] warnings of a log, in order. *)
Definition warned_samples (log : list logrec) : list string :=
  omap (fun l => match l with Warning (KeyError s) => Some s | _ => None end) log.

(** The samples of a set that label no row of the table. *)
Definition missing_samples (fpd : gmap string Np.vec) (S : gset string) : list string :=
  elements (filter (fun s => ¬ is_Some (fpd !! s)) S).

(** The files after the task [t] has written its table. *)
Definition write_table (table_of : list string → config → result Frame)
    (configd : config) (outputdir : string) (fs : gmap string Frame)
    (t : string * list string) : gmap string Frame :=
  match table_of t.2 configd with
  | Ok ndf => <[replicated_path outputdir t.1 := ndf]> fs
  | Raise _ => fs
  end.

(** Two samples with one readable file each, in either order. *)
Definition two_samples (datadir : string) : list (string * list string) :=
  [("S1", ["a.mzml"]); ("S2", ["b.mzml"])].
Definition two_samples_rev (datadir : string) : list (string * list string) :=
  [("S2", ["b.mzml"]); ("S1", ["a.mzml"])].

(** ** The cluster score in binary64 *)

(** [cluster_score] once more, on IEEE binary64 numbers: every operation
    is rounded to nearest on its own, none is fused with another. *)
Module F64.

Import PrimFloat.
Local Open Scope float_scope.

(** [np.isfinite]. *)
Definition isfinite (x : float) : bool := negb (is_nan x || is_infinity x).

(** The float of a count; exact below [2^53]. *)
Fixpoint of_nat (n : nat) : float :=
  match n with
  | O => 0
  | S n' => of_nat n' + 1
  end.

(** The running values of the inner loop of [nancorr], the routine behind
    [DataFrame.corr("pearson")]. *)
Record moments : Set := mkMoments {
  nobs : float;
  meanx : float;
  meany : float;
  ssqdm_x : float;
  ssqdm_y : float;
  covxy : float
}.

(** One turn of that loop (pandas 1.1 to 2.1, Welford's method); a pair
    with a value that is not finite is passed over. *)
Definition nancorr_step (m : moments) (v : float * float) : moments :=
  let '(vx, vy) := v in
  if isfinite vx && isfinite vy then
    let nobs' := nobs m + 1 in
    let dx := vx - meanx m in
    let dy := vy - meany m in
    let meanx' := meanx m + 1 / nobs' * dx in
    let meany' := meany m + 1 / nobs' * dy in
    mkMoments nobs' meanx' meany'
      (ssqdm_x m + (vx - meanx') * dx)
      (ssqdm_y m + (vy - meany') * dy)
      (covxy m + (vx - meanx') * dy)
  else m.

(** The entry for the columns [x] and [y]: [NaN] with no observation
    ([min_periods] is 1) or with a zero divisor, else the quotient, which
    is stored as it is. *)
Definition pearson (x y : list float) : float :=
  let m := foldl nancorr_step (mkMoments 0 0 0 0 0 0) (zip x y) in
  if ltb (nobs m) 1 then nan
  else
    let divisor := sqrt (ssqdm_x m * ssqdm_y m) in
    if eqb divisor 0 then nan else covxy m / divisor.

(** The same entry as pandas before 1.1 computes it: the means first,
    then the sums of the products of the deviations. *)
Definition sums_step (s : float * float * float) (v : float * float)
  : float * float * float :=
  let '(n, sumx, sumy) := s in
  let '(vx, vy) := v in
  if isfinite vx && isfinite vy then (n + 1, sumx + vx, sumy + vy) else s.

Definition products_step (meanx meany : float) (s : float * float * float)
    (v : float * float) : float * float * float :=
  let '(sumx, sumxx, sumyy) := s in
  let '(vx0, vy0) := v in
  if isfinite vx0 && isfinite vy0 then
    let vx := vx0 - meanx in
    let vy := vy0 - meany in
    (sumx + vx * vy, sumxx + vx * vx, sumyy + vy * vy)
  else s.

Definition pearson_two_pass (x y : list float) : float :=
  let '(n, sumx, sumy) := foldl sums_step (0, 0, 0) (zip x y) in
  if ltb n 1 then nan
  else
    let '(sumx', sumxx, sumyy) :=
      foldl (products_step (sumx / n) (sumy / n)) (0, 0, 0) (zip x y) in
    let divisor := sqrt (sumxx * sumyy) in
    if eqb divisor 0 then nan else sumx' / divisor.

(** [np.nansum] of fewer than eight entries: [NaN] counts as [0] and the
    entries are added one after the other.  numpy adds eight or more
    entries in blocks, which is outside this model. *)
Definition nansum (v : list float) : option float :=
  if decide (length v < 8)%nat
  then Some (foldl add 0 (map (fun x => if is_nan x then 0 else x) v))
  else None.

(** The loop of [get_samples_fps] on a table of binary64 rows. *)
Fixpoint collect_fps (fpd : gmap string (list float)) (samples : list string)
  : list logrec * list (list float) :=
  match samples with
  | [] => ([], [])
  | samp :: rest =>
      let '(log, to_cat) := collect_fps fpd rest in
      match fpd !! samp with
      | Some row => (log, row :: to_cat)
      | None => (Warning (KeyError samp) :: log, to_cat)
      end
  end.

Definition get_samples_fps (fpd : gmap string (list float)) (samples : list string)
  : Py (list (list float)) :=
  let '(log, to_cat) := collect_fps fpd samples in
  match to_cat with
  | [] => (log, Raise no_fingerprints)
  | _ => (log, Ok to_cat)
  end.

Section Corr.

(** The routine that computes one entry of the correlation matrix:
    [pearson] or [pearson_two_pass]. *)
Variable entry : list float → list float → float.

(** [pd.DataFrame(np.transpose(fps)).corr("pearson").values]: the entry
    of row [i] and column [k] is computed for [k ≤ i], with fingerprint
    [i] as first column, and copied to the other side of the diagonal. *)
Definition corr (fps : list (list float)) : list (list float) :=
  imap (fun i x => imap (fun k y => if (k <=? i)%nat then entry x y else entry y x) fps)
       fps.

(** [cluster_score]; [None] where [nansum] has eight or more entries. *)
Definition cluster_score (fpd : gmap string (list float)) (samples : list string)
  : Py (option float) :=
  fps ← get_samples_fps fpd samples;
  let j := length fps in
  if decide (j = 1%nat) then mret (Some 0)
  else
    let corr := corr fps in
    mret (match nansum (Np.take_at nan corr (Np.triu_indices (length corr))) with
          | Some s => Some (s / (of_nat (j ^ 2 - j) / 2))
          | None => None
          end).

End Corr.

(** Two fingerprints, the second five times the first, and the number
    next above [1]. *)
Definition table_multiples : gmap string (list float) :=
  <["A" := [1; 3; 7]]> (<["B" := [5; 15; 35]]> ∅).

Definition above_one : float := 0x1.0000000000001p+0.

End F64.

(** The same two fingerprints as real numbers. *)
Definition table_multiples : gmap string Np.vec :=
  <["A" := [1; 3; 7]%R]> (<["B" := [5; 15; 35]%R]> ∅).

(** Two scores, the first with a cluster score just above [0.75]. *)
Definition scores_752 : list Score := [mkScore 1 0.752; mkScore 2 (-0.9)].

(** * Properties *)

(** ** Strings and [filenames2samples] *)

Example split_ex : Str.split delim "A_1|B||C" = ["A_1"; "B"; EmptyString; "C"].
Proof. reflexivity. Qed.

Example f2s_ex1 : filenames2samples "A_1|A_2|B" = {[ "A" ]} ∪ {[ "B" ]}.
Proof. vm_compute. reflexivity. Qed.

Lemma split_head sep s :
  ∃ rest, Str.split sep s = Str.before_first sep s :: rest.
Proof.
  induction s as [|c s [rest IH]]; simpl.
  - by exists [].
  - destruct (Ascii.eqb c sep); [by eexists|].
    rewrite IH. by eexists.
Qed.

Lemma split_at_sampleidx_before_first e :
  split_at_sampleidx e = Str.before_first fn_delim e.
Proof.
  unfold split_at_sampleidx. by destruct (split_head fn_delim e) as [rest ->].
Qed.

Lemma search_chomp s :
  Str.search_underscore_digit s = Str.ends_underscore_digit (Str.chomp s).
Proof.
  induction s as [|c s IH]; [done|].
  destruct s as [|d [|e [|f r]]].
  - simpl. rewrite andb_false_r. by destruct (Ascii.eqb c Str.newline).
  - cbn -[Ascii.eqb Str.is_digit].
    destruct (Ascii.eqb d Str.newline) eqn:Hd.
    + apply Ascii.eqb_eq in Hd as ->. cbn. by rewrite !andb_false_r.
    + by rewrite !andb_false_r, andb_true_r, !orb_false_r.
  - cbn -[Ascii.eqb Str.is_digit].
    destruct (Ascii.eqb e Str.newline) eqn:He.
    + apply Ascii.eqb_eq in He as ->.
      replace (Str.is_digit Str.newline) with false by done.
      by rewrite !andb_false_r, andb_true_r, !orb_false_r.
    + by rewrite !andb_false_r, andb_true_r, !orb_false_r.
  - change (Str.search_underscore_digit (String c (String d (String e (String f r)))))
      with ((Ascii.eqb c "_" && (Str.is_digit d && false))
            || Str.search_underscore_digit (String d (String e (String f r)))).
    rewrite IH, !andb_false_r. simpl orb.
    change (Str.chomp (String c (String d (String e (String f r)))))
      with (String c (String d (String e (Str.chomp (String f r))))).
    change (Str.chomp (String d (String e (String f r))))
      with (String d (String e (Str.chomp (String f r)))).
    cbn -[Ascii.eqb Str.is_digit Str.chomp]. done.
Qed.

Lemma append_nil_l (s : string) : EmptyString ++ s = s.
Proof. reflexivity. Qed.

Lemma append_cons_l c (a b : string) : String c a ++ b = String c (a ++ b).
Proof. reflexivity. Qed.

Lemma length_append (a b : string) :
  String.length (a ++ b) = (String.length a + String.length b)%nat.
Proof.
  induction a as [|c a IH]; [done|].
  rewrite append_cons_l. simpl. by rewrite IH.
Qed.

Lemma ends_with_cons c s suffix :
  ends_with s suffix → ends_with (String c s) suffix.
Proof. intros [pre ->]. by exists (String c pre). Qed.

Lemma ends_with_uncons c s suffix :
  (String.length suffix ≤ String.length s)%nat →
  ends_with (String c s) suffix → ends_with s suffix.
Proof.
  intros Hlen [pre Hpre]. destruct pre as [|c' pre].
  - rewrite append_nil_l in Hpre. subst suffix. simpl in Hlen. lia.
  - rewrite append_cons_l in Hpre. injection Hpre as _ ->. by exists pre.
Qed.

Lemma ends_with_length s suffix :
  ends_with s suffix → (String.length suffix ≤ String.length s)%nat.
Proof. intros [pre ->]. rewrite length_append. lia. Qed.

Lemma ends_underscore_digit_numbered s :
  Str.ends_underscore_digit s = true ↔ numbered s.
Proof.
  induction s as [|c s IH].
  - split; [done|]. intros (d & _ & Hd). apply ends_with_length in Hd.
    simpl in Hd. lia.
  - destruct s as [|d [|e r]].
    + split; [done|]. intros (d & _ & Hd). apply ends_with_length in Hd.
      simpl in Hd. lia.
    + cbn -[Ascii.eqb Str.is_digit]. rewrite andb_true_iff, Ascii.eqb_eq. split.
      * intros [-> Hd]. exists d. split; [done|]. by exists EmptyString.
      * intros (d' & Hd' & [pre Hpre]).
        destruct pre as [|? [|? pre]];
          rewrite ?append_cons_l, ?append_nil_l in Hpre.
        -- by injection Hpre as -> ->.
        -- injection Hpre as _ _ Hpre. done.
        -- injection Hpre as _ _ Hpre. by destruct pre.
    + change (Str.ends_underscore_digit (String c (String d (String e r))))
        with (Str.ends_underscore_digit (String d (String e r))).
      rewrite IH. split.
      * intros (d' & Hd' & Hend). exists d'. split; [done|].
        by apply ends_with_cons.
      * intros (d' & Hd' & Hend). exists d'. split; [done|].
        apply ends_with_uncons in Hend; [done|simpl; lia].
Qed.

Lemma append_assoc' (a b c : string) : (a ++ b) ++ c = a ++ (b ++ c).
Proof.
  induction a as [|x a IH]; [done|].
  rewrite !append_cons_l. by rewrite IH.
Qed.

Lemma chomp_snoc pre c :
  Str.chomp (pre ++ String c EmptyString)
  = if Ascii.eqb c Str.newline then pre else pre ++ String c EmptyString.
Proof.
  induction pre as [|a pre IH]; [done|].
  rewrite !append_cons_l.
  destruct pre as [|b pre].
  - rewrite !append_nil_l in *. cbn -[Ascii.eqb]. by destruct (Ascii.eqb c Str.newline).
  - rewrite !append_cons_l in *.
    change (Str.chomp (String a (String b (pre ++ String c EmptyString))))
      with (String a (Str.chomp (String b (pre ++ String c EmptyString)))).
    rewrite IH. by destruct (Ascii.eqb c Str.newline).
Qed.

Lemma string_snoc s : s = EmptyString ∨ ∃ pre c, s = pre ++ String c EmptyString.
Proof.
  induction s as [|a s IH]; [by left|right].
  destruct IH as [->|(pre & c & ->)].
  - by exists EmptyString, a.
  - by exists (String a pre), c.
Qed.

Lemma digit_not_newline d : Str.is_digit d = true → Ascii.eqb d Str.newline = false.
Proof.
  intros Hd. destruct (Ascii.eqb d Str.newline) eqn:E; [|done].
  apply Ascii.eqb_eq in E. by subst.
Qed.

Lemma ends_chomp_numbered s :
  Str.ends_underscore_digit (Str.chomp s) = true ↔ numbered_or_newline s.
Proof.
  rewrite ends_underscore_digit_numbered. split.
  - intros (d & Hd & [pre Hpre]). exists d. split; [done|].
    destruct (string_snoc s) as [->|(p & c & ->)].
    + left. by exists pre.
    + rewrite chomp_snoc in Hpre. destruct (Ascii.eqb c Str.newline) eqn:Hc.
      * apply Ascii.eqb_eq in Hc. subst. right. exists pre.
        by rewrite <- append_assoc'.
      * left. by exists pre.
  - intros (d & Hd & [[pre ->]|[pre ->]]); exists d; (split; [done|]).
    + unfold underscore_digit.
      change (String "_" (String d EmptyString))
        with (String "_" EmptyString ++ String d EmptyString).
      rewrite <- append_assoc', chomp_snoc, (digit_not_newline d Hd).
      rewrite append_assoc'. by exists pre.
    + rewrite <- append_assoc', chomp_snoc. by exists pre.
Qed.

Lemma search_underscore_digit_spec e :
  Str.search_underscore_digit e = true ↔ numbered_or_newline e.
Proof. rewrite search_chomp. apply ends_chomp_numbered. Qed.

Lemma foldl_f2s_elem (l : list string) (acc : gset string) (x : string) :
  x ∈ foldl filenames2samples_step acc l ↔
  x ∈ acc ∨ ∃ e, e ∈ l ∧
    x = if Str.search_underscore_digit e then split_at_sampleidx e else e.
Proof.
  revert acc. induction l as [|e l IH]; intros acc; simpl.
  - split; [by left|]. intros [?|(e & He & _)]; [done|]. by apply elem_of_nil in He.
  - rewrite IH. unfold filenames2samples_step. split.
    + intros [Hx|(e' & He' & ->)].
      * destruct (Str.search_underscore_digit e) eqn:Hs;
          apply elem_of_union in Hx as [Hx|Hx]; try (by left);
          apply elem_of_singleton in Hx; right; exists e;
          rewrite Hs; split; try done; apply list_elem_of_here.
      * right. exists e'. split; [by apply list_elem_of_further|done].
    + intros [Hx|(e' & He' & ->)].
      * left. destruct (Str.search_underscore_digit e); apply elem_of_union; by left.
      * apply elem_of_cons in He' as [->|He'].
        -- left. destruct (Str.search_underscore_digit e);
             apply elem_of_union; right; by apply elem_of_singleton.
        -- right. by exists e'.
Qed.

(** What an entry of the file name string contributes. *)
Lemma filenames2samples_elem filenames x :
  x ∈ filenames2samples filenames ↔
  ∃ e, e ∈ Str.split delim filenames ∧
       ((numbered_or_newline e ∧ x = Str.before_first fn_delim e) ∨
        (¬ numbered_or_newline e ∧ x = e)).
Proof.
  unfold filenames2samples. rewrite foldl_f2s_elem. split.
  - intros [Hx|(e & He & ->)]; [by apply not_elem_of_empty in Hx|].
    exists e. split; [done|].
    destruct (Str.search_underscore_digit e) eqn:Hs.
    + left. split; [by apply search_underscore_digit_spec|].
      apply split_at_sampleidx_before_first.
    + right. split; [|done]. rewrite <- search_underscore_digit_spec. by rewrite Hs.
  - intros (e & He & [[Hn ->]|[Hn ->]]); right; exists e; (split; [done|]).
    + apply search_underscore_digit_spec in Hn as ->.
      by rewrite split_at_sampleidx_before_first.
    + destruct (Str.search_underscore_digit e) eqn:Hs; [|done].
      by apply search_underscore_digit_spec in Hs.
Qed.

(** C10, as stated, fails: an entry that ends with an underscore, a digit
    and a final newline does not end with an underscore and a digit, yet
    it contributes its part before the first underscore, not itself. *)
Lemma filenames2samples_trailing_newline :
  filenames2samples one_file_newline = {[ "A" ]} ∧
  samples_of_numbered_entries one_file_newline = {[ one_file_newline ]} ∧
  filenames2samples one_file_newline ≠ samples_of_numbered_entries one_file_newline.
Proof. split; [|split]; compute_done. Qed.

(** C10, amended: every entry of the ['|']-delimited string that ends
    with an underscore and one decimal digit, or with these followed by
    one final newline, contributes its part before the first underscore;
    any other entry contributes itself; the result is the set of these
    contributions.  The number of samples can be smaller than the number
    of files: for ["A_1|A_2"] the [Frequency] of the output row is 1 and
    the [freq] of the basketed table is 2. *)
Theorem filenames2samples_entries :
  (∀ filenames x,
     x ∈ filenames2samples filenames ↔
     ∃ e, e ∈ Str.split delim filenames ∧
          ((numbered_or_newline e ∧ x = Str.before_first fn_delim e) ∨
           (¬ numbered_or_newline e ∧ x = e))) ∧
  (∃ r, output_row elements 0 (load_basket_record example_cols "A_1|A_2")
          [mkScore 0 0] = Ok r ∧ row_Frequency r = 1%nat) ∧
  count_files (Some (CStr "A_1|A_2")) = Ok (Some (CNum 2)).
Proof.
  split; [apply filenames2samples_elem|split].
  - eexists. split; [vm_compute; reflexivity|reflexivity].
  - reflexivity.
Qed.

(** ** Sums *)

Section Sums.

Open Scope R_scope.

Lemma sum_app (a b : list R) : Np.sum (a ++ b)%list = Np.sum a + Np.sum b.
Proof. induction a as [|x a IH]; simpl; [lra|]. rewrite IH. lra. Qed.

Lemma sum_map_ext {A} (f g : A → R) (l : list A) :
  (∀ x, x ∈ l → f x = g x) → Np.sum (map f l) = Np.sum (map g l).
Proof.
  induction l as [|x l IH]; intros H; simpl; [done|].
  rewrite H by apply list_elem_of_here.
  rewrite IH; [done|]. intros y Hy. apply H. by apply list_elem_of_further.
Qed.

Lemma sum_map_plus {A} (f g : A → R) (l : list A) :
  Np.sum (map (fun x => f x + g x) l) = Np.sum (map f l) + Np.sum (map g l).
Proof. induction l as [|x l IH]; simpl; [lra|]. rewrite IH. lra. Qed.

Lemma sum_map_scale {A} (f : A → R) (c : R) (l : list A) :
  Np.sum (map (fun x => c * f x) l) = c * Np.sum (map f l).
Proof. induction l as [|x l IH]; simpl; [lra|]. rewrite IH. lra. Qed.

Lemma sum_map_one {A} (l : list A) : Np.sum (map (fun _ => 1) l) = INR (length l).
Proof.
  induction l as [|x l IH]; [done|].
  cbn [map Np.sum foldr length]. change (foldr Rplus 0 ?v) with (Np.sum v).
  rewrite IH, S_INR. lra.
Qed.

Lemma sum_map_perm {A} (f : A → R) (l l' : list A) :
  l ≡ₚ l' → Np.sum (map f l) = Np.sum (map f l').
Proof.
  induction 1 as [|x l l' _ IH|x y l|l l' l'' _ IH1 _ IH2]; simpl;
    [lra|rewrite IH; lra|lra|congruence].
Qed.

Lemma sum_flat_map {A B} (g : A → list B) (f : B → R) (l : list A) :
  Np.sum (map f (flat_map g l)) = Np.sum (map (fun a => Np.sum (map f (g a))) l).
Proof.
  induction l as [|a l IH]; simpl; [done|].
  rewrite map_app, sum_app, IH. done.
Qed.

Lemma sum_map_map {A B} (g : A → B) (f : B → R) (l : list A) :
  Np.sum (map f (map g l)) = Np.sum (map (fun a => f (g a)) l).
Proof. by rewrite map_map. Qed.

Lemma sum_map_bounds {A} (f : A → R) (l : list A) :
  (∀ x, x ∈ l → -1 <= f x <= 1) →
  - INR (length l) <= Np.sum (map f l) <= INR (length l).
Proof.
  induction l as [|x l IH]; intros H.
  - simpl. lra.
  - cbn [map Np.sum foldr length]. change (foldr Rplus 0 ?v) with (Np.sum v).
    rewrite S_INR.
    pose proof (H x (list_elem_of_here _ _)).
    assert (- INR (length l) <= Np.sum (map f l) <= INR (length l)).
    { apply IH. intros y Hy. apply H. by apply list_elem_of_further. }
    lra.
Qed.

End Sums.

(** ** Fingerprints of a sample list *)

Lemma collect_fps_rows fpd l :
  (collect_fps fpd l).2 = omap (fun s => fpd !! s) l.
Proof.
  induction l as [|s l IH]; [done|]. simpl.
  destruct (collect_fps fpd l) as [log to_cat]. simpl in IH. subst to_cat.
  by destruct (fpd !! s).
Qed.

Lemma collect_fps_log fpd l :
  (collect_fps fpd l).1
  = map (fun s => Warning (KeyError s)) (filter (fun s => ¬ is_Some (fpd !! s)) l).
Proof.
  induction l as [|s l IH]; [done|]. simpl.
  destruct (collect_fps fpd l) as [log to_cat]. simpl in IH. subst log.
  rewrite filter_cons. destruct (fpd !! s) eqn:E.
  - rewrite decide_False; [done|]. intros H. apply H. by eexists.
  - rewrite decide_True; [done|]. by intros [? ?].
Qed.

Lemma get_samples_fps_eq fpd l :
  get_samples_fps fpd l
  = (map (fun s => Warning (KeyError s)) (filter (fun s => ¬ is_Some (fpd !! s)) l),
     match omap (fun s => fpd !! s) l with
     | [] => Raise no_fingerprints
     | fps => Ok fps
     end).
Proof.
  unfold get_samples_fps.
  rewrite <- collect_fps_rows, <- collect_fps_log.
  destruct (collect_fps fpd l) as [log [|r rs]]; done.
Qed.

Lemma omap_lookup_nil (fpd : gmap string Np.vec) l :
  omap (fun s => fpd !! s) l = [] ↔ ∀ s, s ∈ l → fpd !! s = None.
Proof.
  induction l as [|s l IH]; simpl.
  - split; [|done]. intros _ s Hs. by apply elem_of_nil in Hs.
  - destruct (fpd !! s) eqn:E.
    + split; [done|]. intros H. specialize (H s (list_elem_of_here _ _)). congruence.
    + rewrite IH. split.
      * intros H s' [->|Hs']%elem_of_cons; [done|by apply H].
      * intros H s' Hs'. apply H. by apply list_elem_of_further.
Qed.

Lemma omap_lookup_filter (fpd : gmap string Np.vec) l :
  omap (fun s => fpd !! s) l
  = map (fun s => default [] (fpd !! s)) (filter (fun s => is_Some (fpd !! s)) l).
Proof.
  induction l as [|s l IH]; [done|]. simpl. rewrite filter_cons.
  destruct (fpd !! s) eqn:E.
  - rewrite decide_True by (by eexists). simpl. rewrite E. f_equal. exact IH.
  - rewrite decide_False by (by intros [? ?]). done.
Qed.

Lemma omap_lookup_rectangular (fpd : gmap string Np.vec) l ncols :
  rectangular fpd ncols →
  Forall (fun row => length row = ncols) (omap (fun s => fpd !! s) l).
Proof.
  intros Hrect. induction l as [|s l IH]; simpl; [constructor|].
  destruct (fpd !! s) eqn:E; [|done]. constructor; [by eapply Hrect|done].
Qed.

(** ** The mean of the rows, column by column *)

Section MeanRows.

Open Scope R_scope.

Lemma nth_vadd a b c :
  length a = length b → nth c (Np.vadd a b) 0 = nth c a 0 + nth c b 0.
Proof.
  revert b c. induction a as [|x a IH]; intros [|y b] c Hlen; try done.
  - destruct c; simpl; lra.
  - destruct c; simpl; [done|]. apply IH. simpl in Hlen. lia.
Qed.

Lemma length_vadd a b : length a = length b → length (Np.vadd a b) = length a.
Proof.
  revert b. induction a as [|x a IH]; intros [|y b] Hlen; try done.
  simpl in *. f_equal. apply IH. lia.
Qed.

Lemma foldl_vadd_cols rs r :
  Forall (fun row => length row = length r) rs →
  length (foldl Np.vadd r rs) = length r ∧
  ∀ c, nth c (foldl Np.vadd r rs) 0
       = Np.sum (map (fun row => nth c row 0) (r :: rs)).
Proof.
  revert r. induction rs as [|x rs IH]; intros r Hall.
  - split; [done|]. intros c. simpl. lra.
  - apply Forall_cons in Hall as [Hx Hall].
    destruct (IH (Np.vadd r x)) as [Hlen Hnth].
    { rewrite length_vadd by done. done. }
    split.
    + simpl. rewrite Hlen. by apply length_vadd.
    + intros c. simpl foldl. rewrite Hnth. simpl.
      rewrite nth_vadd by done. lra.
Qed.

Lemma list_as_map_nth (l : list R) :
  l = map (fun c => nth c l 0) (seq 0 (length l)).
Proof.
  apply (nth_ext _ _ 0 0).
  - by rewrite length_map, length_seq.
  - intros n Hn.
    rewrite (nth_indep (map _ _) 0 ((fun c => nth c l 0) 0%nat))
      by (by rewrite length_map, length_seq).
    rewrite (map_nth (fun c => nth c l 0) (seq 0 (length l)) 0%nat n).
    by rewrite seq_nth.
Qed.

Lemma mean_axis0_cols rows ncols :
  rows ≠ [] →
  Forall (fun row => length row = ncols) rows →
  Np.mean_axis0 rows
  = map (fun c => Np.sum (map (fun row => nth c row 0) rows) / INR (length rows))
        (seq 0 ncols).
Proof.
  intros Hne Hall. destruct rows as [|r rs]; [done|].
  apply Forall_cons in Hall as [Hr Hall].
  destruct (foldl_vadd_cols rs r) as [Hlen Hnth].
  { eapply Forall_impl; [exact Hall|]. simpl. congruence. }
  unfold Np.mean_axis0.
  rewrite (list_as_map_nth (foldl Np.vadd r rs)), Hlen, Hr, map_map.
  apply map_ext. intros c. by rewrite Hnth.
Qed.

End MeanRows.

(** ** [score_basket] and [score_baskets] *)

Lemma feature_synthetic_fp_eq fpd l :
  feature_synthetic_fp fpd l
  = (missing_warnings fpd l,
     match omap (fun s => fpd !! s) l with
     | [] => Raise no_fingerprints
     | fps => Ok (Np.mean_axis0 fps)
     end).
Proof.
  unfold feature_synthetic_fp. rewrite get_samples_fps_eq.
  fold (missing_warnings fpd l).
  destruct (omap _ l); cbn; [done|]. by rewrite app_nil_r.
Qed.

Lemma cluster_score_eq fpd l :
  cluster_score fpd l
  = (missing_warnings fpd l,
     match omap (fun s => fpd !! s) l with
     | [] => Raise no_fingerprints
     | fps => Ok (cluster_of_fps fps)
     end).
Proof.
  unfold cluster_score. rewrite get_samples_fps_eq.
  fold (missing_warnings fpd l).
  destruct (omap _ l) as [|r rs] eqn:E; cbn -[Np.corr Np.triu_indices INR]; [done|].
  unfold cluster_of_fps.
  destruct (decide (length (r :: rs) = 1%nat)) as [H1|H1].
  - rewrite decide_True by done. cbn. by rewrite app_nil_r.
  - rewrite decide_False by done. cbn -[Np.corr Np.triu_indices INR].
    by rewrite app_nil_r.
Qed.

Lemma score_basket_eq set_iter bask fpd :
  score_basket set_iter bask fpd
  = match omap (fun s => fpd !! s) (set_iter (samples bask)) with
    | [] => (missing_warnings fpd (set_iter (samples bask)), Raise no_fingerprints)
    | fps => ((missing_warnings fpd (set_iter (samples bask))
               ++ missing_warnings fpd (set_iter (samples bask)))%list,
              Ok (score_of_fps fps))
    end.
Proof.
  unfold score_basket. rewrite feature_synthetic_fp_eq, cluster_score_eq.
  destruct (omap _ _) as [|r rs]; [done|].
  cbn -[Np.mean_axis0 cluster_of_fps Np.sum]. by rewrite app_nil_r.
Qed.

Lemma filter_found_perm set_iter (fpd : gmap string Np.vec) (S : gset string) :
  set_iter S ≡ₚ elements S →
  filter (fun s => is_Some (fpd !! s)) (set_iter S) ≡ₚ found_samples fpd S.
Proof.
  intros Hperm. unfold found_samples. apply NoDup_Permutation.
  - apply NoDup_filter. rewrite Hperm. apply NoDup_elements.
  - apply NoDup_elements.
  - intros x. rewrite list_elem_of_filter, elem_of_elements, elem_of_filter.
    by rewrite Hperm, elem_of_elements.
Qed.

Lemma Permutation_nil_iff {A} (l k : list A) : l ≡ₚ k → l = [] ↔ k = [].
Proof.
  intros H. split; intros ->.
  - by apply Permutation_nil_l in H.
  - by apply Permutation_nil_r in H.
Qed.

Lemma missing_warnings_elem set_iter fpd (S : gset string) l :
  set_iter S ≡ₚ elements S →
  l ∈ missing_warnings fpd (set_iter S) ↔
  ∃ s, s ∈ S ∧ fpd !! s = None ∧ l = Warning (KeyError s).
Proof.
  intros Hperm. unfold missing_warnings. rewrite list_elem_of_fmap. split.
  - intros (s & -> & Hs). apply list_elem_of_filter in Hs as [Hnone Hs].
    exists s. rewrite Hperm, elem_of_elements in Hs. split; [done|]. split; [|done].
    destruct (fpd !! s); [|done]. exfalso. apply Hnone. by eexists.
  - intros (s & Hs & Hnone & ->). exists s. split; [done|].
    apply list_elem_of_filter. split.
    + rewrite Hnone. by intros [? ?].
    + by rewrite Hperm, elem_of_elements.
Qed.

(** C5: for a basket with at least one sample that labels a row of the
    activity table, [score_basket] returns a score whose [activity] is the
    sum, over the columns, of the square of the arithmetic mean of that
    column over the fingerprints of exactly the samples of the basket
    found in the table; a sample not in the table is no error: it is
    logged as a warning, and nothing else is logged. *)
Theorem activity_score_mean_of_found set_iter bask activity_df ncols :
  (∀ S, set_iter S ≡ₚ elements S) →
  rectangular activity_df ncols →
  found_samples activity_df (samples bask) ≠ [] →
  ∃ sc,
    py_result (score_basket set_iter bask activity_df) = Ok sc ∧
    activity sc
    = activity_of_mean_fingerprint activity_df
        (found_samples activity_df (samples bask)) ncols ∧
    ∀ l, l ∈ py_log (score_basket set_iter bask activity_df) ↔
         ∃ s, s ∈ samples bask ∧ activity_df !! s = None ∧ l = Warning (KeyError s).
Proof.
  intros Hperm Hrect Hfound.
  pose proof (filter_found_perm set_iter activity_df (samples bask) (Hperm _)) as Hf.
  rewrite score_basket_eq.
  pose proof (omap_lookup_filter activity_df (set_iter (samples bask))) as Hfps.
  pose proof (omap_lookup_rectangular activity_df (set_iter (samples bask)) ncols Hrect)
    as Hall.
  destruct (omap _ _) as [|r rs] eqn:E.
  { exfalso. apply Hfound. apply (Permutation_nil_iff _ _ Hf).
    symmetry in Hfps. by apply map_eq_nil in Hfps. }
  eexists. split; [reflexivity|]. split.
  - unfold score_of_fps, activity_of_mean_fingerprint. cbn [activity].
    rewrite (mean_axis0_cols (r :: rs) ncols) by done.
    rewrite map_map. apply sum_map_ext. intros c _. f_equal.
    unfold mean_fingerprint_entry. rewrite Hfps, map_map, length_map.
    rewrite (Permutation_length Hf). f_equal.
    apply (sum_map_perm (fun s => fingerprint_entry activity_df s c)). exact Hf.
  - intros l. unfold py_log. cbn [fst]. rewrite elem_of_app.
    rewrite (missing_warnings_elem set_iter activity_df (samples bask) l (Hperm _)).
    tauto.
Qed.

Lemma py_result_bind {A B} (m : Py A) (k : A → Py B) :
  py_result (m ≫= k)
  = match py_result m with
    | Ok a => py_result (k a)
    | Raise e => Raise e
    end.
Proof.
  destruct m as [log [a|e]]; [|done].
  unfold py_result, mbind, Py_bind. simpl. by destruct (k a).
Qed.

Lemma found_samples_nil set_iter (fpd : gmap string Np.vec) (S : gset string) :
  set_iter S ≡ₚ elements S →
  found_samples fpd S = [] ↔ omap (fun s => fpd !! s) (set_iter S) = [].
Proof.
  intros Hperm.
  rewrite <- (Permutation_nil_iff _ _ (filter_found_perm set_iter fpd S Hperm)).
  rewrite omap_lookup_filter. split; [by intros ->|apply map_eq_nil].
Qed.

Lemma score_basket_result set_iter bask fpd :
  py_result (score_basket set_iter bask fpd)
  = match omap (fun s => fpd !! s) (set_iter (samples bask)) with
    | [] => Raise no_fingerprints
    | fps => Ok (score_of_fps fps)
    end.
Proof. rewrite score_basket_eq. by destruct (omap _ _). Qed.

Lemma score_baskets_raise set_iter baskets fpd :
  Exists (fun bask => omap (fun s => fpd !! s) (set_iter (samples bask)) = []) baskets →
  py_result (score_baskets set_iter baskets fpd) = Raise no_fingerprints.
Proof.
  induction baskets as [|b rest IH]; intros Hex; [by apply Exists_nil in Hex|].
  cbn [score_baskets]. rewrite py_result_bind, score_basket_result.
  destruct (omap _ (set_iter (samples b))) as [|r rs] eqn:E; [done|].
  apply Exists_cons in Hex as [Hb|Hrest]; [congruence|].
  rewrite py_result_bind, IH by done. done.
Qed.

Lemma score_baskets_ok set_iter baskets fpd :
  Forall (fun bask => omap (fun s => fpd !! s) (set_iter (samples bask)) ≠ []) baskets →
  py_result (score_baskets set_iter baskets fpd)
  = Ok (map (fun bask => score_of_fps (omap (fun s => fpd !! s) (set_iter (samples bask))))
            baskets).
Proof.
  induction baskets as [|b rest IH]; intros Hall; [done|].
  apply Forall_cons in Hall as [Hb Hrest].
  cbn [score_baskets]. rewrite py_result_bind, score_basket_result.
  destruct (omap _ (set_iter (samples b))) as [|r rs] eqn:E; [done|].
  rewrite py_result_bind, IH by done. cbn. by rewrite E.
Qed.

(** C1, amended: a basket none of whose samples labels a row of the
    activity table makes [score_basket] raise the [KeyError] "No
    Fingerprints found..."; [score_baskets] has no handler, so one such
    basket makes the whole call raise that error and no score is returned
    for any basket; when every basket has a sample in the table, the call
    returns one score per basket, in the order of the baskets, each the
    score [score_basket] gives. *)
Theorem score_baskets_all_or_nothing set_iter baskets activity_df :
  (∀ S, set_iter S ≡ₚ elements S) →
  ((∃ bask, bask ∈ baskets ∧ found_samples activity_df (samples bask) = []) →
   py_result (score_baskets set_iter baskets activity_df) = Raise no_fingerprints) ∧
  ((∀ bask, bask ∈ baskets → found_samples activity_df (samples bask) ≠ []) →
   ∃ scores,
     py_result (score_baskets set_iter baskets activity_df) = Ok scores ∧
     length scores = length baskets ∧
     ∀ i bask, baskets !! i = Some bask →
       ∃ sc, scores !! i = Some sc ∧
             py_result (score_basket set_iter bask activity_df) = Ok sc).
Proof.
  intros Hperm. split.
  - intros (bask & Hin & Hnone). apply score_baskets_raise.
    apply Exists_exists. exists bask. split; [done|].
    by apply (found_samples_nil set_iter).
  - intros Hall. eexists. split; [|split].
    + apply score_baskets_ok. apply Forall_forall. intros bask Hin Hnil.
      apply (Hall bask Hin). by apply (found_samples_nil set_iter).
    + by rewrite length_map.
    + intros i bask Hi. eexists. split.
      * rewrite list_lookup_fmap, Hi. reflexivity.
      * rewrite score_basket_result.
        destruct (omap _ _) eqn:E; [|done].
        exfalso. apply (Hall bask); [by eapply list_elem_of_lookup_2|].
        by apply (found_samples_nil set_iter).
Qed.

Lemma rectangular_table_AB : rectangular table_AB 2.
Proof.
  intros s row. unfold table_AB.
  rewrite lookup_insert. case_decide.
  - by intros [= <-].
  - rewrite lookup_insert. case_decide; [by intros [= <-]|].
    by rewrite lookup_empty.
Qed.

Lemma elements_perm_refl (S : gset string) : elements S ≡ₚ elements S.
Proof. reflexivity. Qed.

(** C1, as stated, fails: with a basket that has a sample in the table
    and a basket that has none, the first is scored on its own, but the
    run of [score_baskets] raises and returns no score at all. *)
Lemma score_baskets_aborts :
  (∃ sc, py_result (score_basket elements basket_A table_AB) = Ok sc) ∧
  py_result (score_baskets elements [basket_A; basket_Z] table_AB)
  = Raise no_fingerprints ∧
  ¬ run_completes [basket_A; basket_Z] table_AB.
Proof.
  assert (H : py_result (score_baskets elements [basket_A; basket_Z] table_AB)
              = Raise no_fingerprints) by (vm_compute; reflexivity).
  split; [|split; [exact H|]].
  - eexists. vm_compute. reflexivity.
  - intros [scores Hs]. rewrite H in Hs. discriminate.
Qed.

Lemma score_baskets_all_or_nothing_witness :
  py_result (score_baskets elements [basket_A; basket_Z] table_AB)
  = Raise no_fingerprints ∧
  ∃ scores,
    py_result (score_baskets elements [basket_ABZ; basket_A] table_AB) = Ok scores ∧
    length scores = 2%nat.
Proof.
  split.
  - apply (score_baskets_all_or_nothing elements [basket_A; basket_Z] table_AB
             elements_perm_refl).
    exists basket_Z. split; [|vm_compute; reflexivity].
    apply list_elem_of_further, list_elem_of_here.
  - destruct (score_baskets_all_or_nothing elements [basket_ABZ; basket_A] table_AB
                elements_perm_refl) as [_ H].
    destruct H as (scores & Hs & Hlen & _).
    + intros bask [->|[->|Hin]%elem_of_cons]%elem_of_cons.
      * vm_compute. discriminate.
      * vm_compute. discriminate.
      * by apply elem_of_nil in Hin.
    + exists scores. split; [exact Hs|exact Hlen].
Defined.

Lemma activity_score_mean_of_found_witness :
  ∃ sc,
    py_result (score_basket elements basket_ABZ table_AB) = Ok sc ∧
    activity sc
    = activity_of_mean_fingerprint table_AB
        (found_samples table_AB (samples basket_ABZ)) 2 ∧
    ∀ l, l ∈ py_log (score_basket elements basket_ABZ table_AB) ↔
         ∃ s, s ∈ samples basket_ABZ ∧ table_AB !! s = None ∧ l = Warning (KeyError s).
Proof.
  apply (activity_score_mean_of_found elements basket_ABZ table_AB 2
           elements_perm_refl rectangular_table_AB).
  vm_compute. discriminate.
Defined.

Example activity_ABZ :
  activity_of_mean_fingerprint table_AB (found_samples table_AB (samples basket_ABZ)) 2
  = 13%R.
Proof.
  unfold activity_of_mean_fingerprint, mean_fingerprint_entry, fingerprint_entry.
  replace (found_samples table_AB (samples basket_ABZ)) with ["A"; "B"]
    by (vm_compute; reflexivity).
  assert (HA : table_AB !! "A" = Some [1; 2]%R) by reflexivity.
  assert (HB : table_AB !! "B" = Some [3; 4]%R) by reflexivity.
  cbn. rewrite HA, HB. cbn. lra.
Qed.

(** ** The Pearson correlation *)

Section Pearson.

Open Scope R_scope.

Lemma dot_cons x a y b : Np.dot (x :: a) (y :: b) = x * y + Np.dot a b.
Proof. reflexivity. Qed.

Lemma dot_comm a b : Np.dot a b = Np.dot b a.
Proof.
  revert b. induction a as [|x a IH]; intros [|y b]; try done.
  rewrite !dot_cons, IH. lra.
Qed.

Lemma dot_self_nonneg a : 0 <= Np.dot a a.
Proof.
  induction a as [|x a IH]; [cbn; lra|].
  rewrite dot_cons. nra.
Qed.

(** The Cauchy-Schwarz inequality for the sum of products. *)
Lemma dot_cauchy_schwarz a b :
  Np.dot a b * Np.dot a b <= Np.dot a a * Np.dot b b.
Proof.
  revert b. induction a as [|x a IH]; intros [|y b].
  - cbn. lra.
  - cbn -[Np.dot]. change (Np.dot [] (y :: b)) with 0. change (Np.dot [] []) with 0. lra.
  - change (Np.dot (x :: a) []) with 0. change (Np.dot [] []) with 0. lra.
  - rewrite !dot_cons.
    specialize (IH b).
    pose proof (dot_self_nonneg a) as HA.
    pose proof (dot_self_nonneg b) as HB.
    set (D := Np.dot a b) in *. set (A := Np.dot a a) in *. set (B := Np.dot b b) in *.
    assert (Hcross : 2 * (x * y) * D <= x * x * B + y * y * A).
    { destruct (Req_dec_T B 0) as [HB0|HB0].
      - assert (D = 0) by nra. subst D. rewrite H. nra.
      - assert (0 < B) by lra.
        apply (Rmult_le_reg_l B); [done|].
        pose proof (Rle_0_sqr (x * B - y * D)) as Hsq. unfold Rsqr in Hsq. nra. }
    nra.
Qed.

Lemma pearson_comm x y : Np.pearson x y = Np.pearson y x.
Proof.
  unfold Np.pearson.
  rewrite (dot_comm (Np.dev x) (Np.dev y)).
  rewrite (Rmult_comm (Np.dot (Np.dev x) (Np.dev x))). done.
Qed.

Lemma pearson_bounds x y r : Np.pearson x y = Some r → -1 <= r <= 1.
Proof.
  unfold Np.pearson.
  set (c := Np.dot (Np.dev x) (Np.dev y)).
  set (vx := Np.dot (Np.dev x) (Np.dev x)).
  set (vy := Np.dot (Np.dev y) (Np.dev y)).
  destruct (Req_dec_T (sqrt (vx * vy)) 0) as [|Hne]; [done|].
  intros [= <-].
  assert (Hv : 0 <= vx * vy).
  { apply Rmult_le_pos; apply dot_self_nonneg. }
  pose proof (sqrt_pos (vx * vy)) as Hd0.
  pose proof (sqrt_sqrt (vx * vy) Hv) as Hdd.
  pose proof (dot_cauchy_schwarz (Np.dev x) (Np.dev y)) as Hcs.
  fold c vx vy in Hcs.
  set (d := sqrt (vx * vy)) in *.
  assert (Hd : 0 < d) by lra.
  assert (Hc : - d <= c <= d) by nra.
  split.
  - apply (Rmult_le_reg_r d); [done|]. unfold Rdiv.
    rewrite Rmult_assoc, Rinv_l by done. lra.
  - apply (Rmult_le_reg_r d); [done|]. unfold Rdiv.
    rewrite Rmult_assoc, Rinv_l by done. lra.
Qed.

Lemma corr_or_zero_bounds fps ik : -1 <= corr_or_zero fps ik <= 1.
Proof.
  unfold corr_or_zero.
  destruct (Np.pearson _ _) as [r|] eqn:E; simpl; [|lra].
  by eapply pearson_bounds.
Qed.

Lemma corr_or_zero_sym fps i k : corr_or_zero fps (i, k) = corr_or_zero fps (k, i).
Proof. unfold corr_or_zero. simpl. by rewrite pearson_comm. Qed.

End Pearson.

(** ** Sums over the index pairs of a square matrix *)

Section Triangles.

Open Scope R_scope.

Lemma filter_all {A} (P : A → Prop) `{∀ x, Decision (P x)} (l : list A) :
  (∀ x, x ∈ l → P x) → filter P l = l.
Proof.
  induction l as [|x l IH]; intros Hall; [done|].
  rewrite filter_cons, decide_True by apply Hall, list_elem_of_here.
  f_equal. apply IH. intros y Hy. by apply Hall, list_elem_of_further.
Qed.

Lemma filter_ne_seq i n :
  (i < n)%nat →
  filter (fun k => k ≠ i) (seq 0 n) = (seq 0 i ++ seq (S i) (n - S i))%list.
Proof.
  intros Hi.
  replace n with (i + S (n - S i))%nat at 1 by lia.
  rewrite seq_app, filter_app. simpl.
  rewrite filter_cons, decide_False by (intros H; by apply H).
  rewrite !filter_all; [done| |].
  - intros k Hk. apply elem_of_seq in Hk. lia.
  - intros k Hk. apply elem_of_seq in Hk. lia.
Qed.

Variable f : nat → nat → R.

Lemma sum_triu_upper n :
  Np.sum (map (fun ik => f (fst ik) (snd ik)) (Np.triu_indices n)) = upper_sum f n.
Proof.
  unfold Np.triu_indices, upper_sum. rewrite sum_flat_map.
  apply sum_map_ext. intros i _. by rewrite map_map.
Qed.

Lemma sum_offdiag_split n :
  Np.sum (map (fun ik => f (fst ik) (snd ik)) (offdiag_indices n))
  = lower_sum f n + upper_sum f n.
Proof.
  unfold offdiag_indices, lower_sum, upper_sum. rewrite sum_flat_map.
  rewrite <- sum_map_plus. apply sum_map_ext. intros i Hi.
  apply elem_of_seq in Hi.
  rewrite map_map, filter_ne_seq by lia. simpl.
  by rewrite map_app, sum_app.
Qed.

Lemma lower_S n :
  lower_sum f (S n) = lower_sum f n + Np.sum (map (f n) (seq 0 n)).
Proof.
  unfold lower_sum. rewrite (seq_S n 0), map_app, sum_app.
  cbn [map Np.sum foldr plus]. change (foldr Rplus 0 ?v) with (Np.sum v). lra.
Qed.

Lemma upper_swapped_S n :
  upper_swapped_sum f (S n)
  = upper_swapped_sum f n + Np.sum (map (fun i => f n i) (seq 0 n)).
Proof.
  unfold upper_swapped_sum. rewrite (seq_S n 0), map_app, sum_app.
  cbn [map plus]. rewrite Nat.sub_diag. cbn [seq map Np.sum foldr].
  rewrite <- sum_map_plus, !Rplus_0_r.
  apply sum_map_ext. intros i Hi. apply elem_of_seq in Hi.
  replace (S n - S i)%nat with (S (n - S i)) by lia.
  rewrite seq_S, map_app, sum_app.
  replace (S i + (n - S i))%nat with n by lia.
  cbn [map Np.sum foldr]. lra.
Qed.

Lemma lower_upper_swapped n : lower_sum f n = upper_swapped_sum f n.
Proof.
  induction n as [|n IH]; [done|].
  by rewrite lower_S, upper_swapped_S, IH.
Qed.

Hypothesis f_sym : ∀ i k, f i k = f k i.

Lemma upper_swapped_upper n : upper_swapped_sum f n = upper_sum f n.
Proof.
  unfold upper_swapped_sum, upper_sum. apply sum_map_ext. intros i _.
  apply sum_map_ext. intros k _. apply f_sym.
Qed.

Lemma sum_offdiag_twice_triu n :
  Np.sum (map (fun ik => f (fst ik) (snd ik)) (offdiag_indices n))
  = 2 * Np.sum (map (fun ik => f (fst ik) (snd ik)) (Np.triu_indices n)).
Proof.
  rewrite sum_offdiag_split, sum_triu_upper, lower_upper_swapped, upper_swapped_upper.
  lra.
Qed.

End Triangles.

(** ** The cluster score *)

Section Cluster.

Open Scope R_scope.

Lemma triu_indices_range n i k :
  (i, k) ∈ Np.triu_indices n → (i < k < n)%nat.
Proof.
  unfold Np.triu_indices. rewrite list_elem_of_In, in_flat_map.
  intros (i' & Hi' & Hik). apply in_map_iff in Hik as (k' & [= <- <-] & Hk').
  apply in_seq in Hi'. apply in_seq in Hk'. lia.
Qed.

Lemma length_corr fps : length (Np.corr fps) = length fps.
Proof. unfold Np.corr. by rewrite length_map. Qed.

Lemma corr_entry fps i k :
  (i < length fps)%nat → (k < length fps)%nat →
  nth k (nth i (Np.corr fps) []) None
  = Np.pearson (nth i fps []) (nth k fps []).
Proof.
  intros Hi Hk. unfold Np.corr.
  rewrite (nth_indep (map _ fps) [] ((fun x => map (Np.pearson x) fps) []))
    by (by rewrite length_map).
  rewrite (map_nth (fun x => map (Np.pearson x) fps) fps [] i).
  rewrite (nth_indep (map _ fps) None (Np.pearson (nth i fps []) []))
    by (by rewrite length_map).
  by rewrite (map_nth (Np.pearson (nth i fps [])) fps [] k).
Qed.

Lemma nansum_take_at_corr fps :
  Np.nansum (Np.take_at None (Np.corr fps) (Np.triu_indices (length (Np.corr fps))))
  = Np.sum (map (corr_or_zero fps) (Np.triu_indices (length fps))).
Proof.
  rewrite length_corr. unfold Np.nansum, Np.take_at. rewrite map_map.
  apply sum_map_ext. intros [i k] Hik. apply triu_indices_range in Hik.
  unfold corr_or_zero. cbn [fst snd]. by rewrite corr_entry by lia.
Qed.

Lemma length_offdiag n :
  INR (length (offdiag_indices n)) = INR n ^ 2 - INR n.
Proof.
  rewrite <- sum_map_one. unfold offdiag_indices. rewrite sum_flat_map.
  rewrite (sum_map_ext _ (fun _ => (INR n - 1) * 1)).
  - rewrite sum_map_scale, sum_map_one, length_seq. lra.
  - intros i Hi. apply elem_of_seq in Hi.
    rewrite sum_map_map, sum_map_one, filter_ne_seq by lia.
    rewrite length_app, !length_seq.
    replace (i + (n - S i))%nat with (n - 1)%nat by lia.
    rewrite minus_INR by lia. simpl. lra.
Qed.

Lemma length_triu n :
  2 * INR (length (Np.triu_indices n)) = INR n ^ 2 - INR n.
Proof.
  rewrite <- length_offdiag, <- !sum_map_one.
  symmetry. apply (sum_offdiag_twice_triu (fun _ _ => 1)). done.
Qed.

Lemma sum_corr_offdiag_twice fps n :
  Np.sum (map (corr_or_zero fps) (offdiag_indices n))
  = 2 * Np.sum (map (corr_or_zero fps) (Np.triu_indices n)).
Proof.
  exact (sum_offdiag_twice_triu (fun i k => corr_or_zero fps (i, k))
           (corr_or_zero_sym fps) n).
Qed.

Lemma pairs_positive n : (2 <= n)%nat → 0 < INR n ^ 2 - INR n.
Proof.
  intros Hn. apply le_INR in Hn. simpl in Hn. nra.
Qed.

Lemma cluster_of_fps_mean_offdiag fps :
  (2 <= length fps)%nat → cluster_of_fps fps = mean_offdiag_corr fps.
Proof.
  intros Hn. unfold cluster_of_fps, mean_offdiag_corr.
  rewrite decide_False by lia.
  rewrite nansum_take_at_corr, sum_corr_offdiag_twice, length_offdiag.
  pose proof (pairs_positive _ Hn). field. lra.
Qed.

Lemma cluster_of_fps_one fps : length fps = 1%nat → cluster_of_fps fps = 0.
Proof. intros H. unfold cluster_of_fps. by rewrite decide_True. Qed.

Lemma cluster_of_fps_bounds fps : fps ≠ [] → -1 <= cluster_of_fps fps <= 1.
Proof.
  intros Hne. destruct (decide (length fps = 1%nat)) as [H1|H1].
  { rewrite cluster_of_fps_one by done. lra. }
  assert (Hn : (2 <= length fps)%nat).
  { destruct fps as [|? [|? ?]]; simpl in *; try done; lia. }
  unfold cluster_of_fps. rewrite decide_False by done.
  rewrite nansum_take_at_corr.
  pose proof (sum_map_bounds (corr_or_zero fps) (Np.triu_indices (length fps))
                (fun ik _ => corr_or_zero_bounds fps ik)) as Hb.
  pose proof (length_triu (length fps)) as Hl.
  pose proof (pairs_positive _ Hn) as Hp.
  set (S := Np.sum _) in *. set (d := INR (length fps) ^ 2 - INR (length fps)) in *.
  assert (Hd : 0 < d / 2) by lra.
  split.
  - apply (Rmult_le_reg_r (d / 2)); [done|]. unfold Rdiv at 2.
    rewrite Rmult_assoc, Rinv_l by lra. lra.
  - apply (Rmult_le_reg_r (d / 2)); [done|]. unfold Rdiv at 1.
    rewrite Rmult_assoc, Rinv_l by lra. lra.
Qed.

Lemma cluster_score_result fpd l :
  py_result (cluster_score fpd l)
  = match omap (fun s => fpd !! s) l with
    | [] => Raise no_fingerprints
    | fps => Ok (cluster_of_fps fps)
    end.
Proof. by rewrite cluster_score_eq. Qed.

End Cluster.

Example pearson_rising : Np.pearson [1; 2]%R [3; 4]%R = Some 1%R.
Proof.
  unfold Np.pearson.
  assert (Hx : Np.dot (Np.dev [1; 2]%R) (Np.dev [1; 2]%R) = (1 / 2)%R)
    by (unfold Np.dot, Np.dev, Np.mean; cbn; lra).
  assert (Hy : Np.dot (Np.dev [3; 4]%R) (Np.dev [3; 4]%R) = (1 / 2)%R)
    by (unfold Np.dot, Np.dev, Np.mean; cbn; lra).
  assert (Hxy : Np.dot (Np.dev [1; 2]%R) (Np.dev [3; 4]%R) = (1 / 2)%R)
    by (unfold Np.dot, Np.dev, Np.mean; cbn; lra).
  rewrite Hx, Hy, Hxy, sqrt_square by lra.
  destruct (Req_dec_T (1 / 2) 0); [lra|]. f_equal. lra.
Qed.

Example pearson_constant : Np.pearson [1; 1]%R [3; 4]%R = None.
Proof.
  unfold Np.pearson.
  assert (Hx : Np.dot (Np.dev [1; 1]%R) (Np.dev [1; 1]%R) = 0%R)
    by (unfold Np.dot, Np.dev, Np.mean; cbn; lra).
  rewrite Hx, Rmult_0_l, sqrt_0.
  by destruct (Req_dec_T 0 0).
Qed.

Example cluster_rising : cluster_of_fps [[1; 2]; [3; 4]]%R = 1%R.
Proof.
  unfold cluster_of_fps. rewrite decide_False by (simpl; lia).
  rewrite nansum_take_at_corr. cbn -[Np.pearson INR].
  unfold corr_or_zero. cbn [fst snd nth]. rewrite pearson_rising.
  simpl. lra.
Qed.

Example cluster_constant : cluster_of_fps [[1; 1]; [3; 4]]%R = 0%R.
Proof.
  unfold cluster_of_fps. rewrite decide_False by (simpl; lia).
  rewrite nansum_take_at_corr. cbn -[Np.pearson INR].
  unfold corr_or_zero. cbn [fst snd nth]. rewrite pearson_constant.
  simpl. lra.
Qed.

(** C2: with at least two samples of the list found in the activity
    table, [cluster_score] returns the mean of the off-diagonal entries of
    the matrix of pairwise Pearson correlations of their fingerprints, a
    [NaN] entry counting as [0] in the sum and as one entry in the
    divisor; with exactly one sample found it returns [0] from the early
    [return], before any division. *)
Theorem cluster_score_mean_offdiag fpd samples :
  ((2 <= length (omap (fun s => fpd !! s) samples))%nat →
   py_result (cluster_score fpd samples)
   = Ok (mean_offdiag_corr (omap (fun s => fpd !! s) samples))) ∧
  (length (omap (fun s => fpd !! s) samples) = 1%nat →
   py_result (cluster_score fpd samples) = Ok 0%R).
Proof.
  rewrite cluster_score_result. split; intros Hn.
  - destruct (omap _ samples) as [|r rs] eqn:E; [simpl in Hn; lia|].
    by rewrite cluster_of_fps_mean_offdiag.
  - destruct (omap _ samples) as [|r rs] eqn:E; [done|].
    by rewrite cluster_of_fps_one.
Qed.

Lemma cluster_score_mean_offdiag_witness :
  py_result (cluster_score table_AB ["A"; "B"; "Z"])
  = Ok (mean_offdiag_corr [[1; 2]; [3; 4]]%R) ∧
  py_result (cluster_score table_AB ["A"; "Z"]) = Ok 0%R.
Proof.
  split.
  - apply (cluster_score_mean_offdiag table_AB ["A"; "B"; "Z"]). vm_compute. lia.
  - apply (cluster_score_mean_offdiag table_AB ["A"; "Z"]). reflexivity.
Defined.

(** C3, amended: in exact arithmetic, the cluster score of every basket
    that [score_basket] scores lies between [-1] and [1], and it is [0]
    when exactly one sample of the basket is found in the activity
    table.  The binary64 value of the code is not held to the bound:
    [cluster_score_exceeds_one]. *)
Theorem cluster_score_bounds set_iter bask activity_df sc :
  (∀ S, set_iter S ≡ₚ elements S) →
  py_result (score_basket set_iter bask activity_df) = Ok sc →
  (-1 <= cluster sc <= 1)%R ∧
  (length (found_samples activity_df (samples bask)) = 1%nat → cluster sc = 0%R).
Proof.
  intros Hperm. rewrite score_basket_result.
  pose proof (omap_lookup_filter activity_df (set_iter (samples bask))) as Hfps.
  pose proof (filter_found_perm set_iter activity_df (samples bask) (Hperm _)) as Hf.
  destruct (omap _ _) as [|r rs] eqn:E; [done|].
  intros [= <-]. cbn [cluster score_of_fps]. split.
  - by apply cluster_of_fps_bounds.
  - intros H1. apply cluster_of_fps_one.
    rewrite Hfps, length_map, (Permutation_length Hf). done.
Qed.

Lemma cluster_score_bounds_witness :
  (-1 <= cluster (score_of_fps [[1; 2]; [3; 4]]%R) <= 1)%R ∧
  cluster (score_of_fps [[1; 2]]%R) = 0%R.
Proof.
  split.
  - apply (cluster_score_bounds elements basket_ABZ table_AB _ elements_perm_refl).
    vm_compute. reflexivity.
  - apply (cluster_score_bounds elements basket_A table_AB _ elements_perm_refl).
    + vm_compute. reflexivity.
    + vm_compute. reflexivity.
Defined.

(** ** The association network *)

Lemma rounded_values_error bask keys e :
  rounded_values bask keys = Raise e → ∃ k, e = KeyError k.
Proof.
  induction keys as [|k keys IH]; [done|]. cbn [rounded_values].
  unfold bask_get. destruct (ms1 bask !! k); cbn; [|intros [= <-]; by eexists].
  destruct (rounded_values bask keys); cbn; [done|].
  intros [= <-]. by apply IH.
Qed.

Lemma rounded_values_length bask keys vs :
  rounded_values bask keys = Ok vs → length vs = length keys.
Proof.
  revert vs. induction keys as [|k keys IH]; intros vs; [by intros [= <-]|].
  cbn [rounded_values]. unfold bask_get. destruct (ms1 bask !! k); cbn; [|done].
  destruct (rounded_values bask keys) as [vs'|]; cbn; [|done].
  intros [= <-]. cbn. f_equal. by apply IH.
Qed.

Lemma basket_keys_rounded_error bask e :
  basket_keys_rounded bask = Raise e → ∃ k, e = KeyError k.
Proof.
  unfold basket_keys_rounded.
  destruct (rounded_values bask _BASKET_KEYS) as [vs|e'] eqn:Hvs; cbn.
  - apply rounded_values_length in Hvs.
    destruct vs as [|? [|? [|? [|? ?]]]]; done.
  - intros [= <-]. by eapply rounded_values_error.
Qed.

Lemma basket_keys_rounded_ok bask :
  has_basket_keys bask → ∃ v, basket_keys_rounded bask = Ok v.
Proof.
  intros ([mz Hmz] & [rt Hrt] & [inten Hin]).
  unfold basket_keys_rounded, _BASKET_KEYS. cbn [rounded_values]. unfold bask_get.
  rewrite Hmz, Hrt, Hin. cbn. by eexists.
Qed.

Section NetworkFacts.

Variable set_iter : gset string → list string.

Lemma info_of_mono scores n m b : (n ≤ m)%nat → info_of scores n b → info_of scores m b.
Proof. intros Hnm [Hlt H]. split; [lia|done]. Qed.

Lemma collect_basket_ok i bask scores c log c' :
  collect_basket set_iter i bask scores c = (log, Ok c') →
  ∃ sc new,
    scores !! i = Some sc ∧
    c_activity_scores c' = (c_activity_scores c ++ [activity sc])%list ∧
    c_basket_info c' = (c_basket_info c ++ new)%list ∧
    Forall (info_of scores (S i)) new ∧
    (has_basket_keys bask → new ≠ []).
Proof.
  unfold collect_basket, scores_get.
  destruct (scores !! i) as [sc|] eqn:Hsc; [|done].
  destruct (basket_keys_rounded bask) as [[[mz rt] inten]|e] eqn:Hk.
  - intros [= <- <-]. exists sc. eexists. split; [done|]. cbn.
    split; [done|]. split; [done|]. split; [|done].
    constructor; [|constructor]. split; [cbn; lia|]. exists sc. by cbn.
  - destruct e; try done. intros [= <- <-]. exists sc, []. cbn.
    split; [done|]. split; [done|]. split; [by rewrite app_nil_r|].
    split; [constructor|].
    intros Hkeys. destruct (basket_keys_rounded_ok bask Hkeys) as [v Hv]. congruence.
Qed.

Lemma collect_baskets_ok baskets i scores c log c' :
  collect_baskets set_iter i baskets scores c = (log, Ok c') →
  ∃ new,
    (baskets = [] ∨ i + length baskets ≤ length scores)%nat ∧
    c_activity_scores c'
    = (c_activity_scores c ++ map activity (take (length baskets) (drop i scores)))%list ∧
    c_basket_info c' = (c_basket_info c ++ new)%list ∧
    Forall (info_of scores (i + length baskets)) new ∧
    (∀ b rest, baskets = b :: rest → has_basket_keys b → new ≠ []).
Proof.
  revert i c log c'. induction baskets as [|bask rest IH]; intros i c log c'.
  - intros [= <- <-]. exists []. cbn. rewrite !app_nil_r.
    split; [by left|]. split; [done|]. split; [done|]. split; [constructor|done].
  - cbn [collect_baskets]. intros H.
    assert (Hr : py_result (collect_baskets set_iter i (bask :: rest) scores c) = Ok c')
      by (cbn [collect_baskets]; by rewrite H).
    cbn [collect_baskets] in Hr. rewrite py_result_bind in Hr.
    destruct (collect_basket set_iter i bask scores c) as [log1 [c1|e]] eqn:H1; [|done].
    cbn [py_result snd] in Hr.
    destruct (collect_baskets set_iter (S i) rest scores c1) as [log2 r2] eqn:H2.
    cbn [py_result snd] in Hr. subst r2.
    apply collect_basket_ok in H1 as (sc & new1 & Hsc & Hact1 & Hinfo1 & Hall1 & Hne1).
    apply IH in H2 as (new2 & Hlen & Hact2 & Hinfo2 & Hall2 & _).
    exists (new1 ++ new2)%list.
    pose proof (lookup_lt_Some _ _ _ Hsc) as Hlt.
    split; [right; destruct Hlen as [->|Hlen]; simpl in *; lia|].
    split; [|split; [|split]].
    + rewrite Hact2, Hact1, <- app_assoc. f_equal. cbn [length].
      rewrite (drop_S _ _ _ Hsc). done.
    + by rewrite Hinfo2, Hinfo1, <- app_assoc.
    + apply Forall_app. split.
      * eapply Forall_impl; [exact Hall1|]. intros b. apply info_of_mono. simpl. lia.
      * eapply Forall_impl; [exact Hall2|]. intros b. apply info_of_mono. simpl. lia.
    + intros b rest' [= <- <-] Hkeys Happ.
      apply app_eq_nil in Happ as [Hn _]. by apply Hne1.
Qed.

Lemma collect_baskets_total baskets i scores c :
  (i + length baskets ≤ length scores)%nat →
  ∃ log c', collect_baskets set_iter i baskets scores c = (log, Ok c').
Proof.
  revert i c. induction baskets as [|bask rest IH]; intros i c Hlen.
  - by exists [], c.
  - cbn [collect_baskets length] in *.
    assert (∃ log1 c1, collect_basket set_iter i bask scores c = (log1, Ok c1))
      as (log1 & c1 & H1).
    { unfold collect_basket, scores_get.
      destruct (lookup_lt_is_Some_2 scores i) as [sc ->]; [lia|].
      destruct (basket_keys_rounded bask) as [[[mz rt] inten]|e] eqn:Hk; [by eexists _, _|].
      destruct (basket_keys_rounded_error bask e Hk) as [k ->]. by eexists _, _. }
    destruct (IH (S i) c1) as (log2 & c2 & H2); [lia|].
    rewrite H1. unfold mbind, Py_bind. rewrite H2. by eexists _, _.
Qed.

(** Nodes of the graph under [add_node] and [add_edge]. *)

Lemma add_node_Forall (P : node_key * node_attrs → Prop) G k a :
  Forall P (nodes G) → P (k, a) → Forall P (nodes (add_node G k a)).
Proof.
  intros HG Hka. unfold add_node. destruct (has_node G k); cbn.
  - apply Forall_forall. intros n Hn. apply list_elem_of_fmap in Hn as (n0 & -> & Hn0).
    case_bool_decide; [done|]. by eapply Forall_forall in HG.
  - apply Forall_app. split; [done|]. by constructor.
Qed.

Lemma ensure_node_Forall (P : node_key * node_attrs → Prop) G k :
  Forall P (nodes G) → P (k, NoAttrs) → Forall P (nodes (ensure_node G k)).
Proof.
  intros HG Hk. unfold ensure_node. destruct (has_node G k); [done|]. cbn.
  apply Forall_app. split; [done|]. by constructor.
Qed.

Lemma add_edges_Forall (P : node_key * node_attrs → Prop) es G :
  (∀ k, P (k, NoAttrs)) →
  Forall P (nodes G) → Forall P (nodes (foldl add_edge G es)).
Proof.
  intros HP. revert G. induction es as [|e es IH]; intros G HG; [done|].
  cbn [foldl]. apply IH. unfold add_edge. cbn [nodes].
  apply ensure_node_Forall; [|done]. by apply ensure_node_Forall.
Qed.

Lemma add_sample_nodes_Forall (P : node_key * node_attrs → Prop) samps G :
  (∀ k t r d c, P (k, SampleAttrs t r d c)) →
  Forall P (nodes G) → Forall P (nodes (foldl add_sample_node G samps)).
Proof.
  intros HP. revert G. induction samps as [|s samps IH]; intros G HG; [done|].
  cbn [foldl]. apply IH. unfold add_sample_node. by apply add_node_Forall.
Qed.

Lemma add_basket_nodes_Forall scores n acts infos G G' :
  Forall (info_of scores n) infos →
  Forall (basket_attrs_ok scores n acts) (nodes G) →
  add_basket_nodes acts G infos = Ok G' →
  Forall (basket_attrs_ok scores n acts) (nodes G').
Proof.
  revert G. induction infos as [|b infos IH]; intros G Hinfos HG.
  - by intros [= <-].
  - apply Forall_cons in Hinfos as [Hb Hinfos].
    cbn [add_basket_nodes]. unfold add_basket_node.
    destruct (node_size (Basket.activity_score b) acts) as [r|e] eqn:Hr; [|done].
    cbn. apply IH; [done|].
    apply add_node_Forall; [done|]. by unfold basket_attrs_ok.
Qed.

Lemma network_result baskets scores :
  py_result (create_association_network set_iter baskets scores)
  = match py_result (collect_baskets set_iter 0 baskets scores (mkCollected [] [] ∅ [])) with
    | Ok c =>
        G1 ← add_basket_nodes (c_activity_scores c)
               (foldl add_sample_node (mkGraph [] []) (set_iter (c_samples c)))
               (c_basket_info c);
        mret (foldl add_edge G1 (c_edges c))
    | Raise e => Raise e
    end.
Proof.
  unfold create_association_network. rewrite !py_result_bind. cbn [py_result py_info snd].
  by destruct (py_result (collect_baskets _ _ _ _ _)).
Qed.

Lemma network_nodes_ok baskets scores G :
  py_result (create_association_network set_iter baskets scores) = Ok G →
  Forall (basket_attrs_ok scores (length baskets)
            (map activity (take (length baskets) scores)))
         (nodes G).
Proof.
  rewrite network_result.
  destruct (collect_baskets set_iter 0 baskets scores _) as [log [c|e]] eqn:Hc; [|done].
  cbn [py_result snd].
  apply collect_baskets_ok in Hc as (new & _ & Hacts & Hinfo & Hall & _).
  cbn in Hacts, Hinfo. rewrite drop_0 in Hacts. rewrite Hacts, Hinfo.
  destruct (add_basket_nodes _ _ new) as [G1|e] eqn:H1; [|done].
  cbn. intros [= <-].
  apply add_edges_Forall; [done|].
  eapply add_basket_nodes_Forall; [exact Hall| |exact H1].
  apply add_sample_nodes_Forall; [done|constructor].
Qed.

End NetworkFacts.

(** ** Rounding, minimum and maximum *)

Section Rounding.

Open Scope R_scope.

Lemma round_IZR z : Np.round (IZR z) = z.
Proof.
  unfold Np.round. rewrite ZfloorZ.
  destruct (Rlt_dec (IZR z - IZR z) (1 / 2)) as [|Hn]; [done|].
  exfalso. apply Hn. lra.
Qed.

Lemma round_near z x : IZR z - 1 / 2 < x < IZR z + 1 / 2 → Np.round x = z.
Proof.
  intros Hx. unfold Np.round.
  destruct (Rle_dec (IZR z) x) as [Hle|Hgt].
  - rewrite (Zfloor_eq z x) by lra.
    destruct (Rlt_dec (x - IZR z) (1 / 2)) as [|Hn]; [done|]. lra.
  - assert (Hf : Zfloor x = (z - 1)%Z).
    { apply Zfloor_eq. rewrite minus_IZR. lra. }
    rewrite Hf, minus_IZR.
    destruct (Rlt_dec (x - (IZR z - 1)) (1 / 2)) as [|_]; [lra|].
    destruct (Rlt_dec (1 / 2) (x - (IZR z - 1))) as [|]; [f_equal; lia|lra].
Qed.


Lemma foldl_Rmin_spec xs x :
  foldl Rmin x xs ∈ x :: xs ∧ ∀ y, y ∈ x :: xs → foldl Rmin x xs <= y.
Proof.
  revert x. induction xs as [|z xs IH]; intros x.
  - split; [apply list_elem_of_here|]. intros y [->|Hy]%elem_of_cons; [simpl; lra|].
    by apply elem_of_nil in Hy.
  - cbn [foldl]. destruct (IH (Rmin x z)) as [Hin Hle]. split.
    + apply elem_of_cons in Hin as [->|Hin].
      * unfold Rmin. destruct (Rle_dec x z);
          [apply list_elem_of_here|apply list_elem_of_further, list_elem_of_here].
      * by do 2 apply list_elem_of_further.
    + intros y [->|[->|Hy]%elem_of_cons]%elem_of_cons.
      * pose proof (Hle _ (list_elem_of_here _ _)). pose proof (Rmin_l x z). lra.
      * pose proof (Hle _ (list_elem_of_here _ _)). pose proof (Rmin_r x z). lra.
      * apply Hle. by apply list_elem_of_further.
Qed.

Lemma foldl_Rmax_spec xs x :
  foldl Rmax x xs ∈ x :: xs ∧ ∀ y, y ∈ x :: xs → y <= foldl Rmax x xs.
Proof.
  revert x. induction xs as [|z xs IH]; intros x.
  - split; [apply list_elem_of_here|]. intros y [->|Hy]%elem_of_cons; [simpl; lra|].
    by apply elem_of_nil in Hy.
  - cbn [foldl]. destruct (IH (Rmax x z)) as [Hin Hle]. split.
    + apply elem_of_cons in Hin as [->|Hin].
      * unfold Rmax. destruct (Rle_dec x z);
          [apply list_elem_of_further, list_elem_of_here|apply list_elem_of_here].
      * by do 2 apply list_elem_of_further.
    + intros y [->|[->|Hy]%elem_of_cons]%elem_of_cons.
      * pose proof (Hle _ (list_elem_of_here _ _)). pose proof (Rmax_l x z). lra.
      * pose proof (Hle _ (list_elem_of_here _ _)). pose proof (Rmax_r x z). lra.
      * apply Hle. by apply list_elem_of_further.
Qed.

Lemma list_min_spec l lo :
  Np.list_min l = Some lo → lo ∈ l ∧ ∀ y, y ∈ l → lo <= y.
Proof. destruct l as [|x xs]; [done|]. intros [= <-]. apply foldl_Rmin_spec. Qed.

Lemma list_max_spec l hi :
  Np.list_max l = Some hi → hi ∈ l ∧ ∀ y, y ∈ l → y <= hi.
Proof. destruct l as [|x xs]; [done|]. intros [= <-]. apply foldl_Rmax_spec. Qed.


(** The node size *)

Lemma node_size_ok a acts r :
  node_size a acts = Ok r →
  ∃ lo hi, Np.list_min acts = Some lo ∧ Np.list_max acts = Some hi ∧ lo ≠ hi ∧
           r = Np.round (3 + 7 * (a - lo) / (hi - lo)).
Proof.
  unfold node_size.
  destruct (Np.list_min acts) as [lo|]; [|done].
  destruct (Np.list_max acts) as [hi|]; [|done].
  destruct (Req_dec_T (hi - lo) 0) as [|Hne].
  { by destruct (Req_dec_T _ 0). }
  intros [= <-]. exists lo, hi. split; [done|]. split; [done|].
  split; [lra|]. f_equal. f_equal. f_equal. lra.
Qed.


Lemma node_size_total a acts lo hi :
  Np.list_min acts = Some lo → Np.list_max acts = Some hi → lo ≠ hi →
  ∃ r, node_size a acts = Ok r.
Proof.
  intros Hmin Hmax Hne. unfold node_size. rewrite Hmin, Hmax.
  destruct (Req_dec_T (hi - lo) 0); [lra|]. by eexists.
Qed.




End Rounding.

(** ** Which baskets get a node, and when the network is built *)

Section NetworkNodes.

Variable set_iter : gset string → list string.

Lemma collect_basket_keys i bask scores c log c' :
  collect_basket set_iter i bask scores c = (log, Ok c') →
  has_basket_keys bask →
  ∃ b, b ∈ c_basket_info c' ∧ Basket.id b = i.
Proof.
  unfold collect_basket, scores_get.
  destruct (scores !! i) as [sc|] eqn:Hsc; [|done].
  intros H Hkeys. revert H.
  destruct (basket_keys_rounded_ok bask Hkeys) as [[[mz rt] inten] ->].
  intros [= <- <-]. eexists. split.
  { cbn. apply elem_of_app. right. apply list_elem_of_here. }
  reflexivity.
Qed.

Lemma collect_baskets_keep baskets i scores c log c' b :
  collect_baskets set_iter i baskets scores c = (log, Ok c') →
  b ∈ c_basket_info c → b ∈ c_basket_info c'.
Proof.
  intros H Hb. apply collect_baskets_ok in H as (new & _ & _ & -> & _).
  apply elem_of_app. by left.
Qed.

Lemma collect_baskets_keys baskets i scores c log c' j bask :
  collect_baskets set_iter i baskets scores c = (log, Ok c') →
  baskets !! j = Some bask → has_basket_keys bask →
  ∃ b, b ∈ c_basket_info c' ∧ Basket.id b = (i + j)%nat.
Proof.
  revert i c log c' j. induction baskets as [|bask0 rest IH]; intros i c log c' j H Hj Hk.
  - done.
  - assert (Hr : py_result (collect_baskets set_iter i (bask0 :: rest) scores c) = Ok c')
      by (by rewrite H).
    cbn [collect_baskets] in Hr. rewrite py_result_bind in Hr.
    destruct (collect_basket set_iter i bask0 scores c) as [log1 [c1|e]] eqn:H1; [|done].
    cbn [py_result snd] in Hr.
    destruct (collect_baskets set_iter (S i) rest scores c1) as [log2 r2] eqn:H2.
    cbn [py_result snd] in Hr. subst r2.
    destruct j as [|j]; cbn in Hj.
    + injection Hj as ->.
      destruct (collect_basket_keys _ _ _ _ _ _ H1 Hk) as (b & Hb & Hid).
      exists b. split; [by eapply collect_baskets_keep|lia].
    + destruct (IH _ _ _ _ _ H2 Hj Hk) as (b & Hb & Hid).
      exists b. split; [done|lia].
Qed.

Lemma add_node_basket_keep G i' b' r c i :
  Basket.id b' = i' → has_basket_node G i →
  has_basket_node (add_node G (BasketKey i') (BasketAttrs b' "basket" r 1 c)) i.
Proof.
  intros Hid (b & t & r0 & d & c0 & Hin & Hb).
  unfold add_node. destruct (has_node G (BasketKey i')); cbn.
  - destruct (decide (i = i')) as [->|Hne].
    + exists b', "basket", r, 1%nat, c. split; [|done].
      apply list_elem_of_fmap. eexists. split; [|exact Hin].
      cbn. by rewrite bool_decide_eq_true_2.
    + exists b, t, r0, d, c0. split; [|done].
      apply list_elem_of_fmap. eexists. split; [|exact Hin].
      cbn. rewrite bool_decide_eq_false_2; [done|]. by intros [= ->].
  - exists b, t, r0, d, c0. split; [|done]. apply elem_of_app. by left.
Qed.

Lemma add_node_basket_new G b r c :
  has_basket_node (add_node G (BasketKey (Basket.id b)) (BasketAttrs b "basket" r 1 c))
                  (Basket.id b).
Proof.
  exists b, "basket", r, 1%nat, c. split; [|done].
  unfold add_node. destruct (has_node G _) eqn:Hn; cbn.
  - unfold has_node in Hn. apply existsb_exists in Hn as (n & Hn & Heq).
    apply bool_decide_eq_true_1 in Heq.
    apply list_elem_of_fmap. exists n. split; [|by apply list_elem_of_In].
    by rewrite bool_decide_eq_true_2.
  - apply elem_of_app. right. apply list_elem_of_here.
Qed.

Lemma add_basket_nodes_keep acts infos G G' i :
  add_basket_nodes acts G infos = Ok G' →
  has_basket_node G i → has_basket_node G' i.
Proof.
  revert G. induction infos as [|b infos IH]; intros G.
  - by intros [= <-].
  - cbn [add_basket_nodes]. unfold add_basket_node.
    destruct (node_size _ acts) as [r|e]; [|done]. cbn.
    intros H Hi. eapply IH; [exact H|]. by apply add_node_basket_keep.
Qed.

Lemma add_basket_nodes_new acts infos G G' b :
  add_basket_nodes acts G infos = Ok G' → b ∈ infos →
  has_basket_node G' (Basket.id b).
Proof.
  revert G. induction infos as [|b0 infos IH]; intros G H Hb.
  - by apply elem_of_nil in Hb.
  - cbn [add_basket_nodes] in H. unfold add_basket_node in H.
    destruct (node_size _ acts) as [r|e]; [|done]. cbn in H.
    apply elem_of_cons in Hb as [->|Hb].
    + eapply add_basket_nodes_keep; [exact H|]. apply add_node_basket_new.
    + by eapply IH.
Qed.

Lemma add_edges_keep es G i :
  has_basket_node G i → has_basket_node (foldl add_edge G es) i.
Proof.
  revert G. induction es as [|e es IH]; intros G HG; [done|].
  cbn [foldl]. apply IH. destruct HG as (b & t & r & d & c & Hin & Hb).
  exists b, t, r, d, c. split; [|done].
  unfold add_edge, ensure_node. cbn [nodes].
  destruct (has_node G e.1); destruct (has_node _ e.2); cbn;
    rewrite ?elem_of_app; auto.
Qed.

Lemma add_basket_nodes_total acts lo hi infos G :
  Np.list_min acts = Some lo → Np.list_max acts = Some hi → lo ≠ hi →
  ∃ G', add_basket_nodes acts G infos = Ok G'.
Proof.
  intros Hmin Hmax Hne. revert G. induction infos as [|b infos IH]; intros G.
  - by eexists.
  - cbn [add_basket_nodes]. unfold add_basket_node.
    destruct (node_size_total (Basket.activity_score b) acts lo hi) as [r ->]; try done.
    cbn. apply IH.
Qed.

(** Every basket that has the three columns gets a node. *)
Lemma network_has_basket_nodes baskets scores G i bask :
  py_result (create_association_network set_iter baskets scores) = Ok G →
  baskets !! i = Some bask → has_basket_keys bask →
  has_basket_node G i.
Proof.
  rewrite network_result.
  destruct (collect_baskets set_iter 0 baskets scores _) as [log [c|e]] eqn:Hc; [|done].
  cbn [py_result snd]. intros H Hi Hk.
  destruct (collect_baskets_keys _ _ _ _ _ _ _ _ Hc Hi Hk) as (b & Hb & Hid).
  destruct (add_basket_nodes _ _ _) as [G1|e] eqn:H1; [|done].
  cbn in H. injection H as <-.
  apply add_edges_keep. simpl in Hid. subst i.
  by eapply add_basket_nodes_new.
Qed.

(** With enough scores and two different activity scores the network
    is built. *)
Lemma network_total baskets scores lo hi :
  (length baskets ≤ length scores)%nat →
  Np.list_min (map activity (take (length baskets) scores)) = Some lo →
  Np.list_max (map activity (take (length baskets) scores)) = Some hi →
  lo ≠ hi →
  ∃ G, py_result (create_association_network set_iter baskets scores) = Ok G.
Proof.
  intros Hlen Hmin Hmax Hne. rewrite network_result.
  destruct (collect_baskets_total set_iter baskets 0 scores (mkCollected [] [] ∅ []))
    as (log & c & Hc); [simpl; lia|].
  rewrite Hc. cbn [py_result snd].
  apply collect_baskets_ok in Hc as (new & _ & Hacts & _).
  cbn in Hacts. rewrite drop_0 in Hacts. rewrite Hacts.
  destruct (add_basket_nodes_total (map activity (take (length baskets) scores))
              lo hi (c_basket_info c)
              (foldl add_sample_node (mkGraph [] []) (set_iter (c_samples c))))
    as [G1 ->]; try done.
  cbn. by eexists.
Qed.


End NetworkNodes.

(** ** Radius and colour of the basket nodes *)

Lemma has_basket_keys_example : has_basket_keys (mkBasket example_cols "A_1" {[ "A" ]}).
Proof. repeat split; by eexists. Qed.

Lemma has_basket_keys_A : has_basket_keys basket_A.
Proof. exact has_basket_keys_example. Qed.

Lemma Rmin_Rmax_1_2 : Rmin 1 2 ≠ Rmax 1 2.
Proof. unfold Rmin, Rmax. destruct (Rle_dec 1 2); lra. Qed.

Lemma round_to_one : Np.round_to 1 2 = 1%R.
Proof.
  unfold Np.round_to. replace (1 * 10 ^ 2)%R with (IZR 100) by (simpl; lra).
  rewrite round_IZR. simpl. lra.
Qed.


(** The rounded activity score of the node can leave the range of the
    raw scores: with the scores 0.004 and 0.006 the node of the first
    basket has activity 0 and size -11. *)
Example node_size_of_rounded_score :
  node_size (Np.round_to 0.004 2) [0.004; 0.006]%R = Ok (-11)%Z.
Proof.
  assert (Hr : Np.round_to 0.004 2 = 0%R).
  { unfold Np.round_to. rewrite (round_near 0) by (simpl; lra). simpl. lra. }
  rewrite Hr. unfold node_size. cbn [Np.list_min Np.list_max foldl].
  assert (Hmin : Rmin 0.004 0.006 = 0.004%R) by (apply Rmin_left; lra).
  assert (Hmax : Rmax 0.004 0.006 = 0.006%R) by (apply Rmax_right; lra).
  rewrite Hmin, Hmax.
  destruct (Req_dec_T (0.006 - 0.004) 0) as [|_]; [lra|].
  f_equal. apply round_near. lra.
Qed.



Lemma round_to_hundredths z : Np.round_to (IZR z / 100) 2 = (IZR z / 100)%R.
Proof.
  unfold Np.round_to. replace (IZR z / 100 * 10 ^ 2)%R with (IZR z) by (simpl; lra).
  rewrite round_IZR. simpl. lra.
Qed.

Lemma node_color_bands (x : R) :
  ((0.75 < x)%R → node_color x = "rgb(165,0,38)") ∧
  ((0.5 < x <= 0.75)%R → node_color x = "rgb(215,48,39)") ∧
  ((0.25 < x <= 0.5)%R → node_color x = "rgb(244,109,67)") ∧
  ((0 < x <= 0.25)%R → node_color x = "rgb(253,174,97)") ∧
  ((-0.25 < x <= 0)%R → node_color x = "rgb(171,217,233)") ∧
  ((-0.5 < x <= -0.25)%R → node_color x = "rbg(116,173,209)") ∧
  ((-0.75 < x <= -0.5)%R → node_color x = "rgb(69,117,180)") ∧
  ((x <= -0.75)%R → node_color x = "rgb(49,54,149)").
Proof.
  unfold node_color.
  repeat split; intros Hx;
    repeat (match goal with
            | |- context [Rlt_dec ?a ?b] => destruct (Rlt_dec a b); try lra
            end); reflexivity.
Qed.

Lemma scenario_colors : map node_color scenario_cluster_scores = band_colors.
Proof.
  unfold scenario_cluster_scores, band_colors. cbn [map].
  repeat f_equal.
  - apply (node_color_bands 0.8). lra.
  - apply (node_color_bands 0.6). lra.
  - apply (node_color_bands 0.3). lra.
  - apply (node_color_bands 0.1). lra.
  - apply (node_color_bands (-0.1)). lra.
  - apply (node_color_bands (-0.3)). lra.
  - apply (node_color_bands (-0.6)). lra.
  - apply (node_color_bands (-0.9)). lra.
Qed.

Lemma round_to_hundredths_eq x z : x = (IZR z / 100)%R → Np.round_to x 2 = x.
Proof. intros ->. apply round_to_hundredths. Qed.

Lemma scenario_scores_rounded :
  map (fun x => Np.round_to x 2) scenario_cluster_scores = scenario_cluster_scores.
Proof.
  unfold scenario_cluster_scores. cbn [map].
  rewrite (round_to_hundredths_eq 0.8 80) by lra.
  rewrite (round_to_hundredths_eq 0.6 60) by lra.
  rewrite (round_to_hundredths_eq 0.3 30) by lra.
  rewrite (round_to_hundredths_eq 0.1 10) by lra.
  rewrite (round_to_hundredths_eq (-0.1) (-10)) by lra.
  rewrite (round_to_hundredths_eq (-0.3) (-30)) by lra.
  rewrite (round_to_hundredths_eq (-0.6) (-60)) by lra.
  rewrite (round_to_hundredths_eq (-0.9) (-90)) by lra.
  reflexivity.
Qed.

(** C6, amended: the colour of every basket node is that of the first
    band its [cluster_score] attribute falls in, and that attribute is
    the cluster score of its basket rounded to two digits, not the score
    itself; the bands are tested from the highest down with the
    thresholds 0.75, 0.5, 0.25, 0, -0.25, -0.5, -0.75; the cluster
    scores 0.8, 0.6, 0.3, 0.1, -0.1, -0.3, -0.6, -0.9 get, rounded or
    not, the eight colours in the order of the bands, and these are
    pairwise distinct. *)
Theorem basket_node_color_bands :
  (∀ set_iter baskets scores G k b t r d c,
     py_result (create_association_network set_iter baskets scores) = Ok G →
     (k, BasketAttrs b t r d c) ∈ nodes G →
     c = node_color (Basket.cluster_score b) ∧
     ∃ sc, scores !! Basket.id b = Some sc ∧
           Basket.cluster_score b = Np.round_to (cluster sc) 2) ∧
  (∀ x : R,
     ((0.75 < x)%R → node_color x = "rgb(165,0,38)") ∧
     ((0.5 < x <= 0.75)%R → node_color x = "rgb(215,48,39)") ∧
     ((0.25 < x <= 0.5)%R → node_color x = "rgb(244,109,67)") ∧
     ((0 < x <= 0.25)%R → node_color x = "rgb(253,174,97)") ∧
     ((-0.25 < x <= 0)%R → node_color x = "rgb(171,217,233)") ∧
     ((-0.5 < x <= -0.25)%R → node_color x = "rbg(116,173,209)") ∧
     ((-0.75 < x <= -0.5)%R → node_color x = "rgb(69,117,180)") ∧
     ((x <= -0.75)%R → node_color x = "rgb(49,54,149)")) ∧
  map node_color scenario_cluster_scores = band_colors ∧
  map (fun x => node_color (Np.round_to x 2)) scenario_cluster_scores = band_colors ∧
  NoDup band_colors.
Proof.
  split; [|split; [|split; [|split]]].
  - intros set_iter baskets scores G k b t r d c HG Hin.
    pose proof (network_nodes_ok set_iter baskets scores G HG) as Hall.
    eapply Forall_forall in Hall; [|exact Hin].
    destruct Hall as ([Hlt (sc & Hsc & Hact & Hclu)] & _ & _ & _ & _ & Hc).
    split; [done|]. by exists sc.
  - apply node_color_bands.
  - apply scenario_colors.
  - rewrite <- (map_map (fun x => Np.round_to x 2) node_color).
    rewrite scenario_scores_rounded. apply scenario_colors.
  - unfold band_colors. compute_done.
Qed.

Lemma basket_node_color_bands_witness :
  (∃ G b t r d c,
     py_result (create_association_network elements two_baskets scores_1_2) = Ok G ∧
     (BasketKey 0, BasketAttrs b t r d c) ∈ nodes G ∧ c = "rgb(165,0,38)") ∧
  node_color 0.6 = "rgb(215,48,39)".
Proof.
  destruct basket_node_color_bands as (Hnode & Hband & _).
  split.
  - destruct (network_total elements two_baskets scores_1_2 (Rmin 1 2) (Rmax 1 2))
      as [G HG]; [simpl; lia|reflexivity|reflexivity|exact Rmin_Rmax_1_2|].
    destruct (network_has_basket_nodes elements two_baskets scores_1_2 G 0%nat basket_A
                HG eq_refl has_basket_keys_A) as (b & t & r & d & c & Hin & Hid).
    exists G, b, t, r, d, c. split; [exact HG|]. split; [exact Hin|].
    destruct (Hnode elements two_baskets scores_1_2 G _ b t r d c HG Hin)
      as (-> & sc & Hsc & ->).
    rewrite Hid in Hsc. injection Hsc as <-. cbn [cluster].
    rewrite (round_to_hundredths_eq 0.8 80) by lra.
    apply (Hband 0.8%R). lra.
  - apply (Hband 0.6%R). lra.
Defined.

(** ** The output table *)

Lemma insert_sorted_perm x l : Builtin.insert_sorted x l ≡ₚ x :: l.
Proof.
  induction l as [|y l IH]; [done|]. simpl.
  destruct (String.leb x y); [done|]. rewrite IH. apply Permutation_swap.
Qed.

Lemma sorted_perm l : Builtin.sorted l ≡ₚ l.
Proof.
  induction l as [|x l IH]; [done|]. simpl.
  by rewrite insert_sorted_perm, IH.
Qed.

Lemma insert_sorted_Sorted x l :
  Sorted str_le l → Sorted str_le (Builtin.insert_sorted x l).
Proof.
  induction 1 as [|y l Hl IH Hhd]; simpl.
  - by repeat constructor.
  - destruct (String.leb x y) eqn:Hxy.
    + constructor; [by constructor|]. by constructor.
    + assert (Hyx : str_le y x).
      { destruct (String.leb_total x y) as [H|H]; [congruence|done]. }
      constructor; [done|].
      destruct l as [|z l]; simpl in *.
      * by constructor.
      * destruct (String.leb x z); constructor; [done|].
        by inversion Hhd.
Qed.

Lemma sorted_Sorted l : Sorted str_le (Builtin.sorted l).
Proof.
  induction l as [|x l IH]; simpl; [constructor|]. by apply insert_sorted_Sorted.
Qed.

Section OutputTableFacts.

Variable set_iter : gset string → list string.
Hypothesis set_iter_perm : ∀ S, set_iter S ≡ₚ elements S.

Lemma output_row_ok i bask scores sc :
  scores !! i = Some sc → has_basket_keys bask →
  ∃ row, output_row set_iter i bask scores = Ok row ∧ row_of i bask sc row.
Proof.
  intros Hsc (H1 & H2 & H3). unfold output_row, scores_get, bask_get.
  rewrite Hsc. destruct H1 as [mz Hmz], H2 as [rt Hrt], H3 as [inten Hin].
  rewrite Hmz, Hrt, Hin. cbn. eexists. split; [reflexivity|].
  unfold row_of. cbn. repeat (split; [done|]). split; [|done].
  eexists. split; [reflexivity|]. split; [apply sorted_Sorted|].
  by rewrite sorted_perm.
Qed.

Lemma output_rows_ok baskets i scores :
  Forall has_basket_keys baskets →
  (i + length baskets ≤ length scores)%nat →
  ∃ data,
    output_rows set_iter i baskets scores = Ok data ∧
    length data = length baskets ∧
    ∀ j bask sc, baskets !! j = Some bask → scores !! (i + j)%nat = Some sc →
      ∃ row, data !! j = Some row ∧ row_of (i + j) bask sc row.
Proof.
  intros Hkeys. revert i. induction Hkeys as [|bask rest Hk _ IH]; intros i Hlen.
  - exists []. by repeat split.
  - cbn [length] in Hlen.
    destruct (lookup_lt_is_Some_2 scores i) as [sc Hsc]; [lia|].
    destruct (output_row_ok i bask scores sc Hsc Hk) as (row & Hrow & Hof).
    destruct (IH (S i)) as (data & Hdata & Hlen' & Hrows); [lia|].
    exists (row :: data). cbn [output_rows]. rewrite Hrow, Hdata. cbn.
    split; [done|]. split; [by rewrite Hlen'|].
    intros [|j] bask' sc' Hb Hs; cbn in Hb.
    + injection Hb as <-. rewrite Nat.add_0_r in *.
      rewrite Hsc in Hs. injection Hs as <-. by exists row.
    + replace (i + S j)%nat with (S i + j)%nat in * by lia.
      by apply Hrows.
Qed.

End OutputTableFacts.

(** ** Replicate processing *)

Section Replicates.

Variable rtree_index : Type.
Variable hyperrectangle : Type.
Variable mzml_to_df : string → config → result Frame.
Variable add_error_cols :
  Frame → list string → list (string * (option string * option R)) → Frame.
Variable build_rtree : Frame → list string → rtree_index.
Variable get_hyperrectangles : Frame → list string → list hyperrectangle.
Variable generate_connected_components :
  rtree_index → list hyperrectangle → list (list nat).
Variable collapse_connected_components :
  list (list nat) → Frame → config → nat → Frame.
Variable generate_rep_df_paths : string → list (string * list string).

Local Abbreviation table_of :=
  (replicated_table rtree_index hyperrectangle mzml_to_df add_error_cols
     build_rtree get_hyperrectangles generate_connected_components
     collapse_connected_components).
Local Abbreviation compare_sample :=
  (replicate_compare_sample rtree_index hyperrectangle mzml_to_df
     add_error_cols build_rtree get_hyperrectangles generate_connected_components
     collapse_connected_components).
Local Abbreviation run_tasks :=
  (run_replicate_tasks rtree_index hyperrectangle mzml_to_df
     add_error_cols build_rtree get_hyperrectangles generate_connected_components
     collapse_connected_components).

Lemma replicate_compare_sample_eq sample paths configd outputdir fs :
  ∃ log,
    compare_sample sample paths configd outputdir fs
    = match table_of paths configd with
      | Ok ndf => (<[replicated_path outputdir sample := ndf]> fs, log, Ok tt)
      | Raise e => (fs, log, Raise e)
      end.
Proof.
  unfold replicate_compare_sample, replicated_table.
  unfold mbind, Io_bind, io_log, io_lift, to_csv, replicated_path.
  destruct (load_all mzml_to_df paths configd) as [dfs|e]; cbn; [|by eexists].
  destruct (pd_concat dfs) as [df|e]; cbn; by eexists.
Qed.

Lemma run_tasks_cons sample paths rest configd outputdir fs :
  ∃ log,
    run_tasks ((sample, paths) :: rest) configd outputdir fs
    = match table_of paths configd with
      | Ok ndf =>
          let out := run_tasks rest configd outputdir
                       (<[replicated_path outputdir sample := ndf]> fs) in
          (io_files out, log, io_result out)
      | Raise e => (fs, log, Raise e)
      end.
Proof.
  cbn [run_replicate_tasks]. unfold mbind, Io_bind.
  destruct (replicate_compare_sample_eq sample paths configd outputdir fs) as [log ->].
  destruct (table_of paths configd) as [ndf|e]; [|by eexists].
  destruct (run_tasks rest configd outputdir
              (<[replicated_path outputdir sample := ndf]> fs)) as [[fs2 log2] r2].
  by eexists.
Qed.

(** A task that raises ends the run: the files are those the tasks
    before it wrote, and the tasks after it are not run. *)
Lemma run_tasks_stops pre sample paths post configd outputdir fs e :
  Forall (fun t => ∃ ndf, table_of t.2 configd = Ok ndf) pre →
  table_of paths configd = Raise e →
  io_result (run_tasks (pre ++ (sample, paths) :: post) configd outputdir fs) = Raise e ∧
  io_files (run_tasks (pre ++ (sample, paths) :: post) configd outputdir fs)
  = io_files (run_tasks pre configd outputdir fs).
Proof.
  intros Hpre Hfail. revert fs. induction Hpre as [|[s ps] pre [ndf Hndf] _ IH]; intros fs.
  - cbn [app]. destruct (run_tasks_cons sample paths post configd outputdir fs) as [log ->].
    by rewrite Hfail.
  - cbn [app].
    destruct (run_tasks_cons s ps (pre ++ (sample, paths) :: post) configd outputdir fs)
      as [log ->].
    destruct (run_tasks_cons s ps pre configd outputdir fs) as [log' ->].
    cbn [snd] in Hndf. rewrite Hndf. cbn [io_files io_result fst snd]. apply IH.
Qed.

(** The files of a run are the old files and the tables of the tasks. *)
Lemma run_tasks_files tasks configd outputdir fs p :
  Forall (fun t => ∃ ndf, table_of t.2 configd = Ok ndf) tasks →
  io_result (run_tasks tasks configd outputdir fs) = Ok tt ∧
  (is_Some (fs !! p) ∨ (∃ t, t ∈ tasks ∧ p = replicated_path outputdir t.1) →
   is_Some (io_files (run_tasks tasks configd outputdir fs) !! p)) ∧
  (io_files (run_tasks tasks configd outputdir fs) !! p ≠ fs !! p →
   ∃ t, t ∈ tasks ∧ p = replicated_path outputdir t.1).
Proof.
  intros Hall. revert fs. induction Hall as [|[s ps] tasks [ndf Hndf] _ IH]; intros fs.
  - cbn. split; [done|]. split; [|done].
    intros [H|(t & Ht & _)]; [done|]. by apply elem_of_nil in Ht.
  - destruct (run_tasks_cons s ps tasks configd outputdir fs) as [log ->].
    cbn [snd] in Hndf. rewrite Hndf. cbn [io_files io_result fst snd].
    destruct (IH (<[replicated_path outputdir s := ndf]> fs)) as (Hr & Hin & Hout).
    split; [done|]. split.
    + intros [Hfs|(t & Ht & ->)].
      * apply Hin. left. rewrite lookup_insert. case_decide; [by eexists|done].
      * apply elem_of_cons in Ht as [->|Ht].
        -- apply Hin. left. cbn. rewrite lookup_insert_eq. by eexists.
        -- apply Hin. right. by exists t.
    + intros Hne.
      destruct (decide (p = replicated_path outputdir s)) as [->|Hp].
      * exists (s, ps). split; [apply list_elem_of_here|done].
      * destruct Hout as (t & Ht & ->).
        { by rewrite lookup_insert_ne in * by done. }
        exists t. split; [by apply list_elem_of_further|done].
Qed.

(** C8, amended: [process_replicates] has no handler for the exception of
    a sample.  With the samples processed one after the other, in the
    order of [paths_iter], the first sample whose processing raises ends
    the whole call with that exception: the samples before it have
    written their tables, that sample and all samples after it write
    nothing.  When no sample raises, the call returns and every sample
    has its consolidated table in the output directory. *)
Theorem process_replicates_first_failure datadir outputdir configd fs :
  let run := process_replicates rtree_index hyperrectangle mzml_to_df add_error_cols
               build_rtree get_hyperrectangles generate_connected_components
               collapse_connected_components generate_rep_df_paths
               datadir outputdir configd fs in
  (∀ pre sample paths post e,
     generate_rep_df_paths datadir = (pre ++ (sample, paths) :: post)%list →
     Forall (fun t => ∃ ndf, table_of t.2 configd = Ok ndf) pre →
     table_of paths configd = Raise e →
     io_result run = Raise e ∧
     io_files run = io_files (run_tasks pre configd outputdir fs) ∧
     ∀ p, io_files run !! p ≠ fs !! p →
          ∃ t, t ∈ pre ∧ p = replicated_path outputdir t.1) ∧
  (Forall (fun t => ∃ ndf, table_of t.2 configd = Ok ndf)
          (generate_rep_df_paths datadir) →
   io_result run = Ok tt ∧
   ∀ t, t ∈ generate_rep_df_paths datadir →
        is_Some (io_files run !! replicated_path outputdir t.1)).
Proof.
  cbn zeta. unfold process_replicates. split.
  - intros pre sample paths post e -> Hpre Hfail.
    destruct (run_tasks_stops pre sample paths post configd outputdir fs e Hpre Hfail)
      as [Hr Hf].
    split; [done|]. split; [done|].
    intros p. rewrite Hf. intros Hne.
    by apply (run_tasks_files pre configd outputdir fs p Hpre).
  - intros Hall. split.
    + by apply (run_tasks_files _ configd outputdir fs EmptyString Hall).
    + intros t Ht.
      apply (run_tasks_files _ configd outputdir fs (replicated_path outputdir t.1) Hall).
      right. by exists t.
Qed.

End Replicates.

(** C8, as stated, fails: with one worker, when the file of the first
    sample cannot be read, the call raises the error of that file and the
    second sample, which is processed without error when it is alone,
    has no output. *)
Lemma process_replicates_aborts_siblings :
  io_result (process_replicates unit unit loader keep_cols no_index no_rectangles
               no_components keep_table bad_then_good "data" "out" example_config ∅)
  = Raise (OSError "bad.mzml") ∧
  io_files (process_replicates unit unit loader keep_cols no_index no_rectangles
              no_components keep_table bad_then_good "data" "out" example_config ∅)
    !! replicated_path "out" "S2" = None ∧
  io_files (process_replicates unit unit loader keep_cols no_index no_rectangles
              no_components keep_table good_only "data" "out" example_config ∅)
    !! replicated_path "out" "S2" = Some (one_row "good.mzml").
Proof. split; [|split]; vm_compute; reflexivity. Qed.

Lemma process_replicates_first_failure_witness :
  (io_result (process_replicates unit unit loader keep_cols no_index no_rectangles
                no_components keep_table bad_then_good "data" "out" example_config ∅)
   = Raise (OSError "bad.mzml")) ∧
  (io_result (process_replicates unit unit loader keep_cols no_index no_rectangles
                no_components keep_table good_only "data" "out" example_config ∅)
   = Ok tt).
Proof.
  split.
  - pose proof (process_replicates_first_failure unit unit loader keep_cols no_index
                  no_rectangles no_components keep_table bad_then_good
                  "data" "out" example_config ∅) as H.
    cbn zeta in H. destruct H as [H _].
    apply (H [] "S1" ["bad.mzml"] [("S2", ["good.mzml"])]).
    + reflexivity.
    + constructor.
    + vm_compute. reflexivity.
  - pose proof (process_replicates_first_failure unit unit loader keep_cols no_index
                  no_rectangles no_components keep_table good_only
                  "data" "out" example_config ∅) as H.
    cbn zeta in H. destruct H as [_ H]. apply H.
    constructor; [|constructor]. eexists. vm_compute. reflexivity.
Defined.

(** ** Basketing *)

Lemma frame_get_in df col :
  col ∈ f_columns df → frame_get df col = Ok (map (fun r => r !! col) (f_rows df)).
Proof. intros H. unfold frame_get. by rewrite bool_decide_eq_true_2. Qed.

Lemma fill_dropna_rows fcol (rows : list (gmap string cell)) :
  filter (fun r => is_Some (r !! fcol))
    (zip_with (set_cell fcol) rows
       (np_where (isnull (map (fun r => r !! fcol) rows))
                 (map (fun r => r !! "Sample") rows)
                 (map (fun r => r !! fcol) rows)))
  = repaired_rows fcol rows.
Proof.
  induction rows as [|r rows IH]; [done|].
  cbn [map isnull np_where zip_with]. fold (isnull (map (fun r => r !! fcol) rows)).
  rewrite filter_cons, IH. unfold repaired_rows. cbn [omap list_omap].
  fold (omap (repair_row fcol) rows).
  destruct (r !! fcol) as [c|] eqn:Hf.
  - assert (repair_row fcol r = Some r) as -> by (unfold repair_row; by rewrite Hf).
    cbn [set_cell]. rewrite decide_True by (rewrite lookup_insert_eq; by eexists).
    by rewrite insert_id.
  - destruct (r !! "Sample") as [w|] eqn:Hs; cbn [set_cell].
    + assert (repair_row fcol r = Some (<[fcol := w]> r)) as ->
        by (unfold repair_row; by rewrite Hf, Hs).
      rewrite decide_True by (rewrite lookup_insert_eq; by eexists). done.
    + assert (repair_row fcol r = None) as ->
        by (unfold repair_row; by rewrite Hf, Hs).
      rewrite decide_False; [done|]. rewrite lookup_delete_eq. by intros [? ?].
Qed.



Lemma fill_dropna_frame df0 fcol :
  fcol ∈ f_columns df0 →
  dropna (frame_set df0 fcol
            (np_where (isnull (map (fun r => r !! fcol) (f_rows df0)))
                      (map (fun r => r !! "Sample") (f_rows df0))
                      (map (fun r => r !! fcol) (f_rows df0))))
         fcol
  = mkFrame (f_columns df0) (repaired_rows fcol (f_rows df0)).
Proof.
  intros Hcol. unfold dropna, frame_set. cbn [f_columns f_rows].
  rewrite bool_decide_eq_true_2 by done. f_equal. apply fill_dropna_rows.
Qed.

Section Basketing.

Variable rtree_index : Type.
Variable hyperrectangle : Type.
Variable add_error_cols :
  Frame → list string → list (string * (option string * option R)) → Frame.
Variable build_rtree : Frame → list string → rtree_index.
Variable get_hyperrectangles : Frame → list string → list hyperrectangle.
Variable generate_connected_components :
  rtree_index → list hyperrectangle → list (list nat).
Variable collapse_connected_components :
  list (list nat) → Frame → config → nat → Frame.
Variable read_replicated : string → list Frame.


End Basketing.


Example json_dumps_two :
  Builtin.json_dumps ["A"; "B"]
  = "[" ++ String Builtin.quote "A" ++ String Builtin.quote ", "
        ++ String Builtin.quote "B" ++ String Builtin.quote "]".
Proof. reflexivity. Qed.

Example sorted_three : Builtin.sorted ["Z"; "B"; "A"] = ["A"; "B"; "Z"].
Proof. reflexivity. Qed.

Lemma has_basket_keys_two : Forall has_basket_keys two_baskets.
Proof. repeat constructor; by eexists. Qed.


(** * Further properties *)

(** ** File names and samples *)

Lemma split_length sep s : length (Str.split sep s) = S (count_char sep s).
Proof.
  induction s as [|c s IH]; [done|]. cbn [Str.split count_char].
  destruct (Ascii.eqb c sep); cbn [length].
  - by rewrite IH.
  - destruct (Str.split sep s); cbn in *; lia.
Qed.

(** X1: the [freq] of a row is one more than the number of ['|']
    characters of its file name string, so it is at least one, also for
    the empty string; a cell that is not a string raises. *)
Theorem count_files_counts_delimiters :
  (∀ x, count_files (Some (CStr x))
        = Ok (Some (CNum (INR (S (count_char delim x)))))) ∧
  (∀ v, (∀ x, v ≠ Some (CStr x)) → ∃ msg, count_files v = Raise (AttributeError msg)).
Proof.
  split.
  - intros x. unfold count_files. by rewrite split_length.
  - intros [[x|x]|] Hv; cbn; eauto. by destruct (Hv x).
Qed.

Lemma count_files_counts_delimiters_witness :
  ∃ msg, count_files (Some (CNum 1)) = Raise (AttributeError msg).
Proof.
  apply count_files_counts_delimiters. intros x. discriminate.
Defined.

Lemma foldl_f2s_size (l : list string) (acc : gset string) :
  (size acc ≤ size (foldl filenames2samples_step acc l) ≤ size acc + length l)%nat.
Proof.
  revert acc. induction l as [|e l IH]; intros acc; [simpl; lia|].
  cbn [foldl length].
  assert (Hstep : (size acc ≤ size (filenames2samples_step acc e) ≤ size acc + 1)%nat).
  { unfold filenames2samples_step.
    destruct (Str.search_underscore_digit e); rewrite size_union_alt;
      (split; [lia|]);
      match goal with
      | |- context [size (?Y ∖ acc)] =>
          assert (size (Y ∖ acc) ≤ size Y)%nat by (apply subseteq_size, subseteq_difference_l; reflexivity);
          rewrite size_singleton in *; lia
      end. }
  specialize (IH (filenames2samples_step acc e)). lia.
Qed.

(** X2: the sample set of a file name string is never empty and has at
    most as many members as the string has entries: the [Frequency] of a
    basket loaded from a row lies between 1 and the [freq] of that row. *)
Theorem filenames2samples_size filenames :
  (1 ≤ size (filenames2samples filenames) ≤ file_count filenames)%nat.
Proof.
  unfold filenames2samples, file_count.
  pose proof (split_head delim filenames) as [rest Hs]. rewrite Hs.
  cbn [foldl length].
  pose proof (foldl_f2s_size rest (filenames2samples_step ∅ (Str.before_first delim filenames)))
    as [Hlo Hhi].
  assert (Hone : size (filenames2samples_step ∅ (Str.before_first delim filenames)) = 1).
  { unfold filenames2samples_step.
    destruct (Str.search_underscore_digit _);
      by rewrite union_empty_l_L, size_singleton. }
  lia.
Qed.

(** X3: the sample set depends only on which entries the file name
    string has, not on their order or on how often one occurs. *)
Theorem filenames2samples_same_entries s s' :
  (∀ e, e ∈ Str.split delim s ↔ e ∈ Str.split delim s') →
  filenames2samples s = filenames2samples s'.
Proof.
  intros H. apply set_eq. intros x. rewrite !filenames2samples_elem.
  split; intros (e & He & Hx); exists e; (split; [by apply H|done]).
Qed.

Lemma filenames2samples_same_entries_witness :
  filenames2samples "A_1|B" = filenames2samples "B|A_1|B".
Proof.
  apply filenames2samples_same_entries. intros e.
  change (Str.split delim "A_1|B") with ["A_1"; "B"].
  change (Str.split delim "B|A_1|B") with ["B"; "A_1"; "B"].
  rewrite !elem_of_cons. tauto.
Defined.

(** ** Fingerprints and scores *)

(** X4: [get_samples_fps] accounts for every sample once: a returned
    list is not empty and its length plus the number of warnings is the
    number of samples; the only exception is the one for no fingerprint
    at all, raised after a warning for each sample, in their order. *)
Theorem get_samples_fps_accounting fpd samples :
  (∀ fps, py_result (get_samples_fps fpd samples) = Ok fps →
     fps ≠ [] ∧
     (length fps + length (py_log (get_samples_fps fpd samples)) = length samples)%nat) ∧
  (∀ e, py_result (get_samples_fps fpd samples) = Raise e →
     e = no_fingerprints ∧
     py_log (get_samples_fps fpd samples)
     = map (fun s => Warning (KeyError s)) samples).
Proof.
  rewrite get_samples_fps_eq. unfold py_result, py_log. cbn [fst snd].
  split.
  - intros fps Hfps.
    assert (Hom : omap (fun s => fpd !! s) samples = fps ∧ fps ≠ []).
    { destruct (omap _ samples) eqn:E; [discriminate|]. by inversion Hfps. }
    destruct Hom as [<- Hne]. split; [done|].
    rewrite omap_lookup_filter, !length_map.
    rewrite <- (length_app (filter _ samples) (filter _ samples)).
    apply Permutation_length, filter_app_complement.
  - intros e He.
    destruct (omap _ samples) eqn:E; [|discriminate].
    split; [congruence|]. f_equal.
    apply filter_all. intros s Hs.
    rewrite (proj1 (omap_lookup_nil fpd samples) E s Hs). by intros [? ?].
Qed.

Lemma get_samples_fps_accounting_witness :
  (∃ fps, py_result (get_samples_fps table_AB ["Z"; "A"]) = Ok fps ∧ fps ≠ [] ∧
     (length fps + length (py_log (get_samples_fps table_AB ["Z"; "A"])) = 2)%nat) ∧
  py_log (get_samples_fps table_AB ["Z"; "Y"])
  = [Warning (KeyError "Z"); Warning (KeyError "Y")].
Proof.
  split.
  - exists [[1; 2]%R]. split; [reflexivity|].
    apply (proj1 (get_samples_fps_accounting table_AB ["Z"; "A"])). reflexivity.
  - apply (proj2 (get_samples_fps_accounting table_AB ["Z"; "Y"]) no_fingerprints).
    reflexivity.
Defined.

Section ScoringFacts.

Open Scope R_scope.





Lemma map_nth_seq {A} (d : A) (l : list A) :
  map (fun k => nth k l d) (seq 0 (length l)) = l.
Proof.
  induction l as [|x l IH]; [done|].
  cbn [length seq map nth]. f_equal.
  rewrite <- seq_shift, map_map. exact IH.
Qed.

Lemma upper_sum_S (f : nat → nat → R) n :
  upper_sum f (S n)
  = Np.sum (map (f 0%nat) (seq 1 n)) + upper_sum (fun i k => f (S i) (S k)) n.
Proof.
  unfold upper_sum. cbn [seq map Np.sum foldr].
  fold (Np.sum (map (fun i => Np.sum (map (f i) (seq (S i) (S n - S i)))) (seq 1 n))).
  f_equal.
  - cbn. rewrite Nat.sub_0_r. reflexivity.
  - rewrite <- seq_shift, map_map. apply sum_map_ext. intros i _.
    rewrite <- (seq_shift _ (S i)), map_map.
    replace (S n - S (S i))%nat with (n - S i)%nat by lia. reflexivity.
Qed.

Lemma upper_sum_pairs (g : Np.vec → Np.vec → R) (l : list Np.vec) :
  upper_sum (fun i k => g (nth i l []) (nth k l [])) (length l) = upper_pairs g l.
Proof.
  induction l as [|x l IH]; [unfold upper_sum; cbn; reflexivity|].
  cbn [length]. rewrite upper_sum_S. cbn [upper_pairs nth]. f_equal.
  - rewrite <- seq_shift, map_map. cbn [nth].
    rewrite <- (map_nth_seq [] l) at 2. by rewrite map_map.
  - exact IH.
Qed.

Lemma upper_pairs_perm (g : Np.vec → Np.vec → R) (l l' : list Np.vec) :
  (∀ x y, g x y = g y x) → l ≡ₚ l' → upper_pairs g l = upper_pairs g l'.
Proof.
  intros Hg. induction 1 as [|x l l' Hp IH|x y l|l l' l'' _ IH1 _ IH2].
  - reflexivity.
  - cbn [upper_pairs]. rewrite IH. f_equal. by apply sum_map_perm.
  - cbn [upper_pairs map Np.sum foldr].
    fold (Np.sum (map (g x) l)). fold (Np.sum (map (g y) l)).
    rewrite (Hg y x). lra.
  - congruence.
Qed.

Lemma pearson_or_zero_comm x y : pearson_or_zero x y = pearson_or_zero y x.
Proof. unfold pearson_or_zero. by rewrite pearson_comm. Qed.

Lemma triu_corr_pairs fps :
  Np.sum (map (corr_or_zero fps) (Np.triu_indices (length fps)))
  = upper_pairs pearson_or_zero fps.
Proof.
  rewrite <- upper_sum_pairs, <- sum_triu_upper. reflexivity.
Qed.

Lemma cluster_of_fps_perm fps fps' :
  fps ≡ₚ fps' → cluster_of_fps fps = cluster_of_fps fps'.
Proof.
  intros Hp. unfold cluster_of_fps.
  rewrite !nansum_take_at_corr, !triu_corr_pairs.
  rewrite (upper_pairs_perm _ _ _ pearson_or_zero_comm Hp).
  by rewrite (Permutation_length Hp).
Qed.

Lemma mean_axis0_perm fps fps' ncols :
  Forall (fun row => length row = ncols) fps →
  fps ≡ₚ fps' → Np.mean_axis0 fps = Np.mean_axis0 fps'.
Proof.
  intros Hrows Hp.
  destruct (decide (fps = [])) as [->|Hne].
  { by rewrite (proj1 (Permutation_nil_iff _ _ Hp) eq_refl). }
  assert (Hne' : fps' ≠ []).
  { intros E. apply Hne. by apply (Permutation_nil_iff _ _ Hp). }
  assert (Hrows' : Forall (fun row => length row = ncols) fps').
  { by rewrite <- Hp. }
  rewrite (mean_axis0_cols fps ncols Hne Hrows), (mean_axis0_cols fps' ncols Hne' Hrows').
  apply map_ext. intros c.
  by rewrite (sum_map_perm _ _ _ Hp), (Permutation_length Hp).
Qed.

Lemma score_of_fps_perm fps fps' ncols :
  Forall (fun row => length row = ncols) fps →
  fps ≡ₚ fps' → score_of_fps fps = score_of_fps fps'.
Proof.
  intros Hrows Hp. unfold score_of_fps.
  by rewrite (mean_axis0_perm _ _ _ Hrows Hp), (cluster_of_fps_perm _ _ Hp).
Qed.

Lemma found_rows_perm set_iter (fpd : gmap string Np.vec) (S : gset string) :
  set_iter S ≡ₚ elements S →
  omap (fun s => fpd !! s) (set_iter S)
  ≡ₚ map (fun s => default [] (fpd !! s)) (found_samples fpd S).
Proof.
  intros Hp. rewrite omap_lookup_filter.
  apply Permutation_map. by apply filter_found_perm.
Qed.

(** X6: the result of [score_basket] depends neither on the order in
    which the sample set is iterated nor on the samples the activity
    table lacks: two baskets with the same samples found in the table
    get the same scores, or both fail, whatever the two orders. *)
Theorem score_basket_order_independent set_iter set_iter' bask bask'
    activity_df ncols :
  (∀ S, set_iter S ≡ₚ elements S) →
  (∀ S, set_iter' S ≡ₚ elements S) →
  rectangular activity_df ncols →
  found_samples activity_df (samples bask)
  = found_samples activity_df (samples bask') →
  py_result (score_basket set_iter bask activity_df)
  = py_result (score_basket set_iter' bask' activity_df).
Proof.
  intros Hit Hit' Hrect Hfound. rewrite !score_basket_result.
  pose proof (found_rows_perm set_iter activity_df (samples bask) (Hit _)) as Hp.
  pose proof (found_rows_perm set_iter' activity_df (samples bask') (Hit' _)) as Hp'.
  rewrite <- Hfound in Hp'. rewrite <- Hp' in Hp.
  pose proof (omap_lookup_rectangular activity_df (set_iter (samples bask)) ncols Hrect)
    as Hrows.
  pose proof (score_of_fps_perm _ _ _ Hrows Hp) as Hsc.
  destruct (omap _ (set_iter (samples bask))) as [|r rs] eqn:E.
  - by rewrite (proj1 (Permutation_nil_iff _ _ Hp) eq_refl).
  - destruct (omap _ (set_iter' (samples bask'))) as [|r' rs'] eqn:E'.
    + by pose proof (proj2 (Permutation_nil_iff _ _ Hp) eq_refl).
    + by rewrite Hsc.
Qed.

Lemma elements_rev_perm (S : gset string) : elements_rev S ≡ₚ elements S.
Proof. unfold elements_rev. by rewrite reverse_Permutation. Qed.

Lemma score_basket_order_independent_witness :
  py_result (score_basket elements basket_ABZ table_AB)
  = py_result (score_basket elements_rev basket_AB table_AB).
Proof.
  apply (score_basket_order_independent elements elements_rev basket_ABZ basket_AB
           table_AB 2).
  - intros S. reflexivity.
  - apply elements_rev_perm.
  - apply rectangular_table_AB.
  - vm_compute. reflexivity.
Defined.

Lemma sum_map_zero {A} (l : list A) : Np.sum (map (fun _ => 0) l) = 0.
Proof. induction l as [|x l IH]; cbn [map Np.sum foldr]; [done|]. fold (Np.sum (map (fun _ : A => 0) l)). lra. Qed.

Lemma sum_replicate n c : Np.sum (replicate n c) = INR n * c.
Proof.
  induction n as [|n IH]; [cbn; lra|].
  rewrite S_INR. cbn [replicate Np.sum foldr]. fold (Np.sum (replicate n c)). lra.
Qed.

Lemma dev_replicate n c : Np.dev (replicate n c) = replicate n 0.
Proof.
  unfold Np.dev, Np.mean. rewrite sum_replicate, length_replicate.
  destruct n as [|n]; [done|].
  replace (INR (S n) * c / INR (S n)) with c
    by (field; apply not_0_INR; lia).
  generalize (S n). intros m. induction m as [|m IH]; [done|].
  cbn [replicate map]. rewrite IH. f_equal. lra.
Qed.

Lemma dot_replicate_zero n : Np.dot (replicate n 0) (replicate n 0) = 0.
Proof.
  induction n as [|n IH]; [done|].
  cbn [replicate]. rewrite dot_cons, IH. lra.
Qed.

Lemma pearson_constant_l x y : constant_row x → Np.pearson x y = None.
Proof.
  intros (c & n & ->). unfold Np.pearson.
  rewrite dev_replicate, dot_replicate_zero, Rmult_0_l, sqrt_0.
  by destruct (Req_dec_T 0 0).
Qed.

Lemma constant_row_nth fps i :
  (∀ row, row ∈ fps → constant_row row) → constant_row (nth i fps []).
Proof.
  intros H. destruct (nth_in_or_default i fps []) as [Hin | ->].
  - apply H. by apply list_elem_of_In.
  - by exists 0, 0%nat.
Qed.

Lemma cluster_of_fps_constant fps :
  (∀ row, row ∈ fps → constant_row row) → cluster_of_fps fps = 0.
Proof.
  intros H. unfold cluster_of_fps. destruct (decide _); [done|].
  rewrite nansum_take_at_corr.
  rewrite (sum_map_ext (corr_or_zero fps) (fun _ => 0)).
  - rewrite sum_map_zero. unfold Rdiv. by rewrite Rmult_0_l.
  - intros [i k] _. unfold corr_or_zero. cbn [fst snd].
    by rewrite pearson_constant_l by by apply constant_row_nth.
Qed.

Lemma found_rows_elem set_iter (fpd : gmap string Np.vec) (S : gset string) row :
  set_iter S ≡ₚ elements S →
  row ∈ omap (fun s => fpd !! s) (set_iter S) →
  ∃ s, s ∈ S ∧ fpd !! s = Some row.
Proof.
  intros Hp (s & Hs & Hrow)%list_elem_of_omap.
  exists s. split; [|done]. rewrite Hp in Hs. by apply elem_of_elements in Hs.
Qed.

(** X7: when the fingerprint of every sample of the basket is flat (all
    its entries equal), every correlation is [NaN], [nansum] counts each
    as zero, and the cluster score of the basket is [0]. *)
Theorem cluster_score_flat_fingerprints set_iter bask activity_df sc :
  (∀ S, set_iter S ≡ₚ elements S) →
  (∀ s row, s ∈ samples bask → activity_df !! s = Some row → constant_row row) →
  py_result (score_basket set_iter bask activity_df) = Ok sc →
  cluster sc = 0.
Proof.
  intros Hit Hflat. rewrite score_basket_result.
  destruct (omap _ _) as [|r rs] eqn:E; [discriminate|].
  intros [= <-]. unfold score_of_fps. cbn [cluster].
  apply cluster_of_fps_constant. intros row Hrow. rewrite <- E in Hrow.
  destruct (found_rows_elem _ _ _ _ (Hit _) Hrow) as (s & Hs & Hlook).
  by apply (Hflat s).
Qed.

Lemma cluster_score_flat_fingerprints_witness :
  cluster (score_of_fps [[2; 2]; [5; 5]]) = 0.
Proof.
  apply (cluster_score_flat_fingerprints elements basket_AB table_flat).
  - intros S. reflexivity.
  - intros s row Hs Hrow.
    assert (Hcases : s = "A" ∨ s = "B") by (unfold basket_AB in Hs; set_solver).
    destruct Hcases as [-> | ->].
    + assert (E : table_flat !! "A" = Some [2; 2]) by reflexivity.
      rewrite E in Hrow. injection Hrow as <-. by exists 2, 2%nat.
    + assert (E : table_flat !! "B" = Some [5; 5]) by reflexivity.
      rewrite E in Hrow. injection Hrow as <-. by exists 5, 2%nat.
  - rewrite score_basket_result. vm_compute. reflexivity.
Defined.








End ScoringFacts.

(** ** The output table *)

Section OutputTableMore.

Variable set_iter : gset string → list string.

Lemma bask_get_keys bask :
  has_basket_keys bask →
  ∃ mz inten rt, bask_get bask "PrecMz" = Ok mz ∧
                 bask_get bask "PrecIntensity" = Ok inten ∧
                 bask_get bask "RetTime" = Ok rt.
Proof.
  intros ([mz Hmz] & [rt Hrt] & [inten Hin]). exists mz, inten, rt.
  unfold bask_get. by rewrite Hmz, Hrt, Hin.
Qed.

Lemma bask_get_no_keys bask :
  ¬ has_basket_keys bask →
  ∃ k, (mz ← bask_get bask "PrecMz";
        inten ← bask_get bask "PrecIntensity";
        rt ← bask_get bask "RetTime";
        mret (mz, inten, rt)) = Raise (KeyError k).
Proof.
  intros Hno. unfold has_basket_keys, bask_get in *.
  destruct (ms1 bask !! "PrecMz") as [mz|] eqn:Hmz; [|by eexists].
  destruct (ms1 bask !! "PrecIntensity") as [inten|] eqn:Hin; [|by eexists].
  destruct (ms1 bask !! "RetTime") as [rt|] eqn:Hrt; [|by eexists].
  destruct Hno. eauto.
Qed.

Lemma output_row_cases i bask scores :
  match output_row set_iter i bask scores with
  | Ok row => row_BasketID row = i ∧ has_basket_keys bask ∧ (i < length scores)%nat
  | Raise e =>
      (e = IndexError ∧ (length scores ≤ i)%nat) ∨
      (∃ k, e = KeyError k ∧ (i < length scores)%nat ∧ ¬ has_basket_keys bask)
  end.
Proof.
  unfold output_row, scores_get.
  destruct (scores !! i) as [sc|] eqn:Hsc.
  - apply lookup_lt_Some in Hsc. cbn.
    destruct (decide (has_basket_keys bask)) as [Hk|Hk].
    + destruct (bask_get_keys bask Hk) as (mz & inten & rt & -> & -> & ->).
      cbn. done.
    + destruct (bask_get_no_keys bask Hk) as [k Hraise].
      destruct (bask_get bask "PrecMz") as [mz|e1]; cbn in *;
        [|injection Hraise as ->; right; eauto].
      destruct (bask_get bask "PrecIntensity") as [inten|e2]; cbn in *;
        [|injection Hraise as ->; right; eauto].
      destruct (bask_get bask "RetTime") as [rt|e3]; cbn in *;
        [discriminate|injection Hraise as ->; right; eauto].
  - apply lookup_ge_None in Hsc. cbn. by left.
Qed.

Lemma output_rows_short baskets i scores :
  baskets ≠ [] → (length scores < i + length baskets)%nat →
  output_rows set_iter i baskets scores = Raise IndexError.
Proof.
  revert i. induction baskets as [|bask rest IH]; intros i Hne Hlen; [done|].
  cbn [length] in Hlen.
  assert (Hrest : (i < length scores)%nat →
                  output_rows set_iter (S i) rest scores = Raise IndexError).
  { intros Hi. apply IH; [|lia]. intros ->. cbn in Hlen. lia. }
  cbn [output_rows]. pose proof (output_row_cases i bask scores) as Hrow.
  destruct (output_row set_iter i bask scores) as [row|e].
  - destruct Hrow as (_ & _ & Hi). by rewrite Hrest.
  - destruct Hrow as [[-> _]|(k & -> & Hi & _)]; [done|]. by apply Hrest.
Qed.

Lemma output_rows_ids baskets i scores :
  (i + length baskets ≤ length scores)%nat →
  ∃ data, output_rows set_iter i baskets scores = Ok data ∧
          map row_BasketID data = keyed_ids i baskets.
Proof.
  revert i. induction baskets as [|bask rest IH]; intros i Hlen; cbn [length] in Hlen.
  - by exists [].
  - cbn [output_rows keyed_ids]. pose proof (output_row_cases i bask scores) as Hrow.
    destruct (IH (S i)) as (data & Hdata & Hids); [lia|].
    destruct (output_row set_iter i bask scores) as [row|e].
    + destruct Hrow as (Hid & Hk & _). rewrite Hdata. cbn.
      rewrite decide_True by done. eexists. split; [done|]. cbn. by rewrite Hid, Hids.
    + destruct Hrow as [[_ Hi]|(k & -> & _ & Hk)]; [lia|].
      rewrite decide_False by done. eauto.
Qed.

(** X9: [create_output_table] raises [IndexError] exactly when there are
    fewer scores than baskets, whatever columns the baskets have; it
    raises nothing else, and scores beyond the last basket are not
    read. *)
Theorem create_output_table_index_error baskets scores :
  ((length scores < length baskets)%nat ↔
   create_output_table set_iter baskets scores = Raise IndexError) ∧
  (∀ e, create_output_table set_iter baskets scores = Raise e → e = IndexError) ∧
  ((length baskets ≤ length scores)%nat →
   create_output_table set_iter baskets scores
   = create_output_table set_iter baskets (take (length baskets) scores)).
Proof.
  assert (Hcases : (length scores < length baskets)%nat ∧
                   create_output_table set_iter baskets scores = Raise IndexError ∨
                   (length baskets ≤ length scores)%nat ∧
                   ∃ data, output_rows set_iter 0 baskets scores = Ok data).
  { destruct (decide (length scores < length baskets)%nat) as [Hlt|Hge].
    - left. split; [done|]. unfold create_output_table.
      rewrite output_rows_short; [done| |simpl; lia].
      intros ->. cbn in Hlt. lia.
    - right. split; [lia|].
      destruct (output_rows_ids baskets 0 scores) as (data & Hdata & _); [simpl; lia|].
      eauto. }
  unfold create_output_table in *. split; [|split].
  - destruct Hcases as [[Hlt Hr]|[Hge [data Hdata]]]; [done|].
    rewrite Hdata. cbn. split; [lia|discriminate].
  - intros e. destruct Hcases as [[_ ->]|[_ [data ->]]]; intros He.
    + by injection He as <-.
    + discriminate He.
  - intros Hge. f_equal.
    assert (Hgen : ∀ bs i, (i + length bs ≤ length baskets)%nat →
              output_rows set_iter i bs scores
              = output_rows set_iter i bs (take (length baskets) scores)).
    { induction bs as [|b bs IH]; intros i Hi; [done|].
      cbn [length] in Hi. cbn [output_rows].
      unfold output_row, scores_get.
      rewrite lookup_take_lt by lia. by rewrite IH by lia. }
    apply Hgen. simpl. lia.
Qed.

End OutputTableMore.

Lemma create_output_table_index_error_witness :
  create_output_table elements [basket_A; basket_Z] [mkScore 1 0.8] = Raise IndexError.
Proof.
  apply (proj1 (proj1 (create_output_table_index_error elements
                         [basket_A; basket_Z] [mkScore 1 0.8]))).
  cbn [length]. lia.
Defined.

(** X10: given at least one score per basket, [create_output_table]
    returns a table whose rows are those of the baskets that have the
    columns [PrecMz], [RetTime] and [PrecIntensity], in order, each under
    the position of its basket in the input: a basket without one of the
    columns is left out and its number is not used again. *)
Theorem create_output_table_skips_unkeyed set_iter baskets scores :
  (length baskets ≤ length scores)%nat →
  ∃ table,
    create_output_table set_iter baskets scores = Ok table ∧
    map row_BasketID (data table) = keyed_ids 0 baskets.
Proof.
  intros Hlen.
  destruct (output_rows_ids set_iter baskets 0 scores) as (data & Hdata & Hids);
    [simpl; lia|].
  exists (mkOutputTable output_columns data).
  unfold create_output_table. by rewrite Hdata.
Qed.

Lemma create_output_table_skips_unkeyed_witness :
  ∃ table,
    create_output_table elements [basket_no_rt; basket_A] scores_1_2 = Ok table ∧
    map row_BasketID (data table) = [1%nat].
Proof.
  apply (create_output_table_skips_unkeyed elements [basket_no_rt; basket_A] scores_1_2).
  simpl. lia.
Defined.

(** *** The order of [sorted] *)

Lemma ascii_compare_lt_trans a b c :
  Ascii.compare a b = Lt → Ascii.compare b c = Lt → Ascii.compare a c = Lt.
Proof.
  unfold Ascii.compare. rewrite !N.compare_lt_iff. apply N.lt_trans.
Qed.

Lemma string_compare_lt_trans a b c :
  String.compare a b = Lt → String.compare b c = Lt → String.compare a c = Lt.
Proof.
  revert b c. induction a as [|x a IH]; intros [|y b] [|z c]; cbn; try done.
  destruct (Ascii.compare x y) eqn:Exy; try done;
    destruct (Ascii.compare y z) eqn:Eyz; try done.
  - apply Ascii.compare_eq_iff in Exy as ->. rewrite Eyz. apply IH.
  - apply Ascii.compare_eq_iff in Exy as ->. by rewrite Eyz.
  - apply Ascii.compare_eq_iff in Eyz as ->. by rewrite Exy.
  - by rewrite (ascii_compare_lt_trans _ _ _ Exy Eyz).
Qed.

Lemma string_leb_trans a b c :
  String.leb a b = true → String.leb b c = true → String.leb a c = true.
Proof.
  unfold String.leb.
  destruct (String.compare a b) eqn:Eab; try done;
    destruct (String.compare b c) eqn:Ebc; try done; intros _ _.
  - apply String.compare_eq_iff in Eab as ->. by rewrite Ebc.
  - apply String.compare_eq_iff in Eab as ->. by rewrite Ebc.
  - apply String.compare_eq_iff in Ebc as ->. by rewrite Eab.
  - by rewrite (string_compare_lt_trans _ _ _ Eab Ebc).
Qed.

Lemma insert_sorted_comm x y l :
  Builtin.insert_sorted x (Builtin.insert_sorted y l)
  = Builtin.insert_sorted y (Builtin.insert_sorted x l).
Proof.
  induction l as [|z l IH]; cbn [Builtin.insert_sorted].
  - destruct (String.leb x y) eqn:Exy, (String.leb y x) eqn:Eyx; try done.
    + by rewrite (String.leb_antisym _ _ Exy Eyx).
    + destruct (String.leb_total x y); congruence.
  - destruct (String.leb y z) eqn:Eyz, (String.leb x z) eqn:Exz;
      cbn [Builtin.insert_sorted]; rewrite ?Eyz, ?Exz.
    + destruct (String.leb x y) eqn:Exy, (String.leb y x) eqn:Eyx; try done.
      * by rewrite (String.leb_antisym _ _ Exy Eyx).
      * destruct (String.leb_total x y); congruence.
    + destruct (String.leb x y) eqn:Exy; [|done].
      by rewrite (string_leb_trans _ _ _ Exy Eyz) in Exz.
    + destruct (String.leb y x) eqn:Eyx; [|done].
      by rewrite (string_leb_trans _ _ _ Eyx Exz) in Eyz.
    + by rewrite IH.
Qed.

Lemma sorted_of_perm l l' : l ≡ₚ l' → Builtin.sorted l = Builtin.sorted l'.
Proof.
  unfold Builtin.sorted.
  induction 1 as [|x l l' _ IH|x y l|l l' l'' _ IH1 _ IH2]; cbn [foldr].
  - done.
  - by rewrite IH.
  - apply insert_sorted_comm.
  - congruence.
Qed.

(** X11: the output table does not depend on the order in which Python
    iterates the sample sets: the sample list of a row is sorted before
    it is written. *)
Theorem create_output_table_order_independent set_iter set_iter' baskets scores :
  (∀ S, set_iter S ≡ₚ elements S) →
  (∀ S, set_iter' S ≡ₚ elements S) →
  create_output_table set_iter baskets scores
  = create_output_table set_iter' baskets scores.
Proof.
  intros Hit Hit'. unfold create_output_table. f_equal.
  generalize 0%nat. induction baskets as [|bask rest IH]; intros i; [done|].
  cbn [output_rows]. rewrite IH.
  replace (output_row set_iter i bask scores) with (output_row set_iter' i bask scores);
    [done|].
  unfold output_row.
  by rewrite (sorted_of_perm (set_iter' (samples bask)) (set_iter (samples bask)))
    by (by rewrite Hit, Hit').
Qed.

Lemma create_output_table_order_independent_witness :
  create_output_table elements [basket_ABZ] scores_1_2
  = create_output_table elements_rev [basket_ABZ] scores_1_2.
Proof.
  apply create_output_table_order_independent.
  - intros S. reflexivity.
  - apply elements_rev_perm.
Defined.

(** ** The association network *)

Section NetworkMore.

Variable set_iter : gset string → list string.

Lemma first_missing_key_None bask :
  first_missing_key bask = None ↔ has_basket_keys bask.
Proof.
  unfold first_missing_key, has_basket_keys, _BASKET_KEYS. cbn [find].
  destruct (ms1 bask !! "PrecMz"), (ms1 bask !! "RetTime"),
    (ms1 bask !! "PrecIntensity"); cbn; split; try done;
    intros (H1 & H2 & H3); try by destruct H1; try by destruct H2;
    try by destruct H3.
Qed.

Lemma first_missing_key_Some bask k :
  first_missing_key bask = Some k → k ∈ _BASKET_KEYS ∧ ms1 bask !! k = None.
Proof.
  unfold first_missing_key. intros H. apply find_some in H as [Hin Hk].
  split; [by apply list_elem_of_In|]. by apply bool_decide_eq_true in Hk.
Qed.

Lemma collect_basket_spec i bask scores c sc :
  scores !! i = Some sc →
  ∃ new,
    collect_basket set_iter i bask scores c
    = (key_warning bask,
       Ok (mkCollected
             (c_edges c ++ map (fun samp => (BasketKey i, SampleKey samp))
                               (set_iter (samples bask)))
             (c_basket_info c ++ new)
             (c_samples c ∪ samples bask)
             (c_activity_scores c ++ [activity sc]))) ∧
    map Basket.id new = (if decide (has_basket_keys bask) then [i] else []).
Proof.
  intros Hsc. unfold collect_basket, scores_get. rewrite Hsc.
  unfold key_warning.
  destruct (decide (has_basket_keys bask)) as [Hk|Hk].
  - rewrite (proj2 (first_missing_key_None bask) Hk).
    destruct Hk as ([mz Hmz] & [rt Hrt] & [inten Hin]).
    unfold basket_keys_rounded, rounded_values, _BASKET_KEYS, bask_get.
    rewrite Hmz, Hrt, Hin. cbn. eexists [_]. split; [reflexivity|done].
  - exists []. split; [|done]. rewrite app_nil_r.
    unfold first_missing_key, has_basket_keys, basket_keys_rounded, rounded_values,
      _BASKET_KEYS, bask_get in *. cbn [find].
    destruct (ms1 bask !! "PrecMz") as [mz|]; cbn; [|done].
    destruct (ms1 bask !! "RetTime") as [rt|]; cbn; [|done].
    destruct (ms1 bask !! "PrecIntensity") as [inten|]; cbn; [|done].
    destruct Hk. eauto.
Qed.

Lemma collect_basket_short i bask scores c :
  (length scores ≤ i)%nat →
  collect_basket set_iter i bask scores c = ([], Raise IndexError).
Proof.
  intros Hi. unfold collect_basket, scores_get.
  by rewrite (proj2 (lookup_ge_None scores i) Hi).
Qed.

Lemma collect_baskets_spec baskets i scores c :
  (i + length baskets ≤ length scores)%nat →
  ∃ new,
    collect_baskets set_iter i baskets scores c
    = (flat_map key_warning baskets,
       Ok (mkCollected
             (c_edges c ++ membership_edges set_iter i baskets)
             (c_basket_info c ++ new)
             (c_samples c ∪ all_samples baskets)
             (c_activity_scores c
              ++ map activity (take (length baskets) (drop i scores))))) ∧
    map Basket.id new = keyed_ids i baskets.
Proof.
  revert i c. induction baskets as [|bask rest IH]; intros i c Hlen.
  - exists []. split; [|done]. cbn [collect_baskets length membership_edges flat_map].
    rewrite take_0. unfold all_samples. cbn [map union_list foldr].
    rewrite !app_nil_r, union_empty_r_L. by destruct c.
  - cbn [length] in Hlen.
    destruct (lookup_lt_is_Some_2 scores i) as [sc Hsc]; [lia|].
    destruct (collect_basket_spec i bask scores c sc Hsc) as (new1 & H1 & Hid1).
    destruct (IH (S i) (mkCollected
             (c_edges c ++ map (fun samp => (BasketKey i, SampleKey samp))
                               (set_iter (samples bask)))
             (c_basket_info c ++ new1)
             (c_samples c ∪ samples bask)
             (c_activity_scores c ++ [activity sc]))) as (new2 & H2 & Hid2); [lia|].
    exists (new1 ++ new2)%list. split.
    + cbn [collect_baskets]. rewrite H1. unfold mbind, Py_bind. rewrite H2.
      cbn [c_edges c_basket_info c_samples c_activity_scores flat_map
           membership_edges length].
      rewrite <- !app_assoc. rewrite (drop_S _ _ _ Hsc). cbn [take map app].
      unfold all_samples. cbn [map union_list foldr].
      by rewrite (assoc_L (∪)).
    + rewrite map_app, Hid1, Hid2. cbn [keyed_ids]. by destruct (decide _).
Qed.

Lemma collect_baskets_short baskets i scores c :
  baskets ≠ [] → (length scores < i + length baskets)%nat →
  py_result (collect_baskets set_iter i baskets scores c) = Raise IndexError.
Proof.
  revert i c. induction baskets as [|bask rest IH]; intros i c Hne Hlen; [done|].
  cbn [length] in Hlen. cbn [collect_baskets]. rewrite py_result_bind.
  destruct (decide (length scores ≤ i)%nat) as [Hi|Hi].
  - by rewrite collect_basket_short.
  - destruct (lookup_lt_is_Some_2 scores i) as [sc Hsc]; [lia|].
    destruct (collect_basket_spec i bask scores c sc Hsc) as (new1 & -> & _).
    cbn [py_result snd]. apply IH; [|lia]. intros ->. cbn in Hlen. lia.
Qed.

(** *** Keys and edges under the graph operations *)

Lemma has_node_keys G k : has_node G k = true ↔ k ∈ node_keys G.
Proof.
  unfold has_node, node_keys. rewrite existsb_exists, list_elem_of_fmap.
  split.
  - intros (n & Hn & Hk). apply bool_decide_eq_true in Hk.
    exists n. split; [done|]. by apply list_elem_of_In.
  - intros (n & -> & Hn). exists n. split; [by apply list_elem_of_In|].
    by apply bool_decide_eq_true.
Qed.

Lemma has_node_false G k : has_node G k = false ↔ k ∉ node_keys G.
Proof.
  rewrite <- has_node_keys. by destruct (has_node G k).
Qed.

Lemma add_node_keys G k a :
  node_keys (add_node G k a)
  = if has_node G k then node_keys G else (node_keys G ++ [k])%list.
Proof.
  unfold add_node, node_keys. destruct (has_node G k); cbn [nodes].
  - rewrite map_map. apply map_ext. intros n. by case_bool_decide.
  - by rewrite map_app.
Qed.

Lemma ensure_node_keys G k :
  node_keys (ensure_node G k)
  = if has_node G k then node_keys G else (node_keys G ++ [k])%list.
Proof.
  unfold ensure_node, node_keys. destruct (has_node G k); [done|].
  cbn [nodes]. by rewrite map_app.
Qed.

Lemma keys_step_NoDup G k :
  NoDup (node_keys G) →
  NoDup (if has_node G k then node_keys G else (node_keys G ++ [k])%list).
Proof.
  intros Hnd. destruct (has_node G k) eqn:Hk; [done|].
  apply has_node_false in Hk. apply NoDup_app. split; [done|].
  split; [|apply NoDup_singleton].
  intros x Hx ->%list_elem_of_singleton. done.
Qed.

Lemma keys_step_elem G k x :
  x ∈ (if has_node G k then node_keys G else (node_keys G ++ [k])%list)
  ↔ x ∈ node_keys G ∨ x = k.
Proof.
  destruct (has_node G k) eqn:Hk.
  - apply has_node_keys in Hk. split; [by left|]. by intros [?| ->].
  - rewrite elem_of_app, list_elem_of_singleton. done.
Qed.

Lemma add_node_elem G k a x : x ∈ node_keys (add_node G k a) ↔ x ∈ node_keys G ∨ x = k.
Proof. rewrite add_node_keys. apply keys_step_elem. Qed.

Lemma ensure_node_elem G k x : x ∈ node_keys (ensure_node G k) ↔ x ∈ node_keys G ∨ x = k.
Proof. rewrite ensure_node_keys. apply keys_step_elem. Qed.

Lemma add_node_edges G k a : edges (add_node G k a) = edges G.
Proof. unfold add_node. by destruct (has_node G k). Qed.

Lemma ensure_node_edges G k : edges (ensure_node G k) = edges G.
Proof. unfold ensure_node. by destruct (has_node G k). Qed.

Lemma add_edge_elem G e x :
  x ∈ node_keys (add_edge G e) ↔ x ∈ node_keys G ∨ x = e.1 ∨ x = e.2.
Proof.
  unfold add_edge. change (node_keys (mkGraph ?n ?es)) with (map fst n).
  change (map fst (nodes ?G0)) with (node_keys G0).
  rewrite !ensure_node_elem. tauto.
Qed.

Lemma add_edge_NoDup G e :
  NoDup (node_keys G) → NoDup (node_keys (add_edge G e)).
Proof.
  intros Hnd. unfold add_edge. change (node_keys (mkGraph ?n ?es)) with (map fst n).
  change (map fst (nodes ?G0)) with (node_keys G0).
  rewrite ensure_node_keys. apply keys_step_NoDup.
  rewrite ensure_node_keys. by apply keys_step_NoDup.
Qed.

Lemma add_edges_edges es G : edges (foldl add_edge G es) = (edges G ++ es)%list.
Proof.
  revert G. induction es as [|e es IH]; intros G; cbn [foldl].
  - by rewrite app_nil_r.
  - rewrite IH. unfold add_edge. cbn [edges]. rewrite !ensure_node_edges.
    by rewrite <- app_assoc.
Qed.

Lemma add_edges_elem es G x :
  x ∈ node_keys (foldl add_edge G es)
  ↔ x ∈ node_keys G ∨ ∃ e, e ∈ es ∧ (x = e.1 ∨ x = e.2).
Proof.
  revert G. induction es as [|e es IH]; intros G; cbn [foldl].
  - split; [by left|]. intros [?|(e & He & _)]; [done|]. by apply elem_of_nil in He.
  - rewrite IH, add_edge_elem. split.
    + intros [[?|?]|(e' & He' & ?)]; [by left| |].
      * right. exists e. split; [left|done].
      * right. exists e'. split; [by right|done].
    + intros [?|(e' & He' & ?)]; [by left; left|].
      apply elem_of_cons in He' as [->|He']; [by left; right|].
      right. by exists e'.
Qed.

Lemma add_edges_NoDup es G :
  NoDup (node_keys G) → NoDup (node_keys (foldl add_edge G es)).
Proof.
  revert G. induction es as [|e es IH]; intros G Hnd; [done|].
  cbn [foldl]. by apply IH, add_edge_NoDup.
Qed.

Lemma add_sample_nodes_edges samps G :
  edges (foldl add_sample_node G samps) = edges G.
Proof.
  revert G. induction samps as [|s samps IH]; intros G; [done|].
  cbn [foldl]. rewrite IH. apply add_node_edges.
Qed.

Lemma add_sample_nodes_elem samps G x :
  x ∈ node_keys (foldl add_sample_node G samps)
  ↔ x ∈ node_keys G ∨ ∃ s, s ∈ samps ∧ x = SampleKey s.
Proof.
  revert G. induction samps as [|s samps IH]; intros G; cbn [foldl].
  - split; [by left|]. intros [?|(s & Hs & _)]; [done|]. by apply elem_of_nil in Hs.
  - rewrite IH. unfold add_sample_node. rewrite add_node_elem. split.
    + intros [[?|?]|(s' & Hs' & ?)]; [by left| |].
      * right. exists s. split; [left|done].
      * right. exists s'. split; [by right|done].
    + intros [?|(s' & Hs' & ?)]; [by left; left|].
      apply elem_of_cons in Hs' as [->|Hs']; [by left; right|].
      right. by exists s'.
Qed.

Lemma add_sample_nodes_NoDup samps G :
  NoDup (node_keys G) → NoDup (node_keys (foldl add_sample_node G samps)).
Proof.
  revert G. induction samps as [|s samps IH]; intros G Hnd; [done|].
  cbn [foldl]. apply IH. unfold add_sample_node. rewrite add_node_keys.
  by apply keys_step_NoDup.
Qed.

Lemma add_basket_nodes_shape acts infos G G' :
  add_basket_nodes acts G infos = Ok G' →
  edges G' = edges G ∧
  (NoDup (node_keys G) → NoDup (node_keys G')) ∧
  ∀ x, x ∈ node_keys G' ↔ x ∈ node_keys G ∨ ∃ b, b ∈ infos ∧ x = BasketKey (Basket.id b).
Proof.
  revert G. induction infos as [|b infos IH]; intros G.
  - intros [= <-]. split; [done|]. split; [done|]. intros x.
    split; [by left|]. intros [?|(b & Hb & _)]; [done|]. by apply elem_of_nil in Hb.
  - cbn [add_basket_nodes]. unfold add_basket_node.
    destruct (node_size (Basket.activity_score b) acts) as [r|e]; [|done].
    cbn. intros H. apply IH in H as (He & Hnd & Hel).
    split; [by rewrite He, add_node_edges|]. split.
    + intros HG. apply Hnd. rewrite add_node_keys. by apply keys_step_NoDup.
    + intros x. rewrite Hel, add_node_elem. split.
      * intros [[?|?]|(b' & Hb' & ?)]; [by left| |].
        -- right. exists b. split; [left|done].
        -- right. exists b'. split; [by right|done].
      * intros [?|(b' & Hb' & ?)]; [by left; left|].
        apply elem_of_cons in Hb' as [->|Hb']; [by left; right|].
        right. by exists b'.
Qed.

Lemma add_basket_nodes_error acts infos G e :
  add_basket_nodes acts G infos = Raise e →
  ∃ msg, e = ValueError msg ∨ e = OverflowError msg.
Proof.
  revert G. induction infos as [|b infos IH]; intros G; [done|].
  cbn [add_basket_nodes]. unfold add_basket_node.
  destruct (node_size (Basket.activity_score b) acts) as [r|e'] eqn:Hr.
  - cbn. apply IH.
  - cbn. intros [= <-]. unfold node_size in Hr.
    destruct (Np.list_min acts), (Np.list_max acts);
      repeat (destruct (Req_dec_T _ _) in Hr); try discriminate;
      injection Hr as <-; eauto.
Qed.

(** The steps of a run that returns a graph. *)
Lemma network_shape baskets scores G :
  py_result (create_association_network set_iter baskets scores) = Ok G →
  (length baskets ≤ length scores)%nat ∧
  ∃ infos G1,
    map Basket.id infos = keyed_ids 0 baskets ∧
    add_basket_nodes (map activity (take (length baskets) scores))
      (foldl add_sample_node (mkGraph [] []) (set_iter (all_samples baskets))) infos
    = Ok G1 ∧
    G = foldl add_edge G1 (membership_edges set_iter 0 baskets).
Proof.
  rewrite network_result.
  destruct (decide (length scores < length baskets)%nat) as [Hlt|Hge].
  - rewrite collect_baskets_short; [done| |simpl; lia].
    intros ->. cbn in Hlt. lia.
  - destruct (collect_baskets_spec baskets 0 scores (mkCollected [] [] ∅ []))
      as (infos & -> & Hids); [simpl; lia|].
    cbn [py_result snd c_edges c_basket_info c_samples c_activity_scores app].
    rewrite drop_0, union_empty_l_L.
    destruct (add_basket_nodes _ _ infos) as [G1|e] eqn:H1; [|done].
    cbn. intros [= <-]. split; [lia|]. by exists infos, G1.
Qed.

Lemma keyed_ids_elem baskets i j :
  j ∈ keyed_ids i baskets
  ↔ ∃ n bask, baskets !! n = Some bask ∧ has_basket_keys bask ∧ j = (i + n)%nat.
Proof.
  revert i. induction baskets as [|b rest IH]; intros i; cbn [keyed_ids].
  - split; [by intros ?%elem_of_nil|]. by intros (n & bask & ? & _).
  - assert (Hrest : j ∈ keyed_ids (S i) rest ↔
              ∃ n bask, (b :: rest) !! S n = Some bask ∧ has_basket_keys bask
                        ∧ j = (i + S n)%nat).
    { rewrite IH. split; intros (n & bask & Hn & Hk & ->); exists n, bask;
        (split; [done|split; [done|lia]]). }
    destruct (decide (has_basket_keys b)) as [Hb|Hb].
    + rewrite elem_of_cons, Hrest. split.
      * intros [->|(n & bask & ?)]; [|by exists (S n), bask].
        exists 0%nat, b. split; [done|]. split; [done|lia].
      * intros ([|n] & bask & Hn & Hk & ->); [left; lia|].
        right. by exists n, bask.
    + rewrite Hrest. split.
      * intros (n & bask & ?). by exists (S n), bask.
      * intros ([|n] & bask & Hn & Hk & ->); [|by exists n, bask].
        cbn in Hn. by injection Hn as ->.
Qed.


Lemma all_samples_elem baskets s :
  s ∈ all_samples baskets ↔ ∃ bask, bask ∈ baskets ∧ s ∈ samples bask.
Proof.
  unfold all_samples. rewrite elem_of_union_list. split.
  - intros (X & (bask & -> & Hb)%list_elem_of_fmap & Hs). by exists bask.
  - intros (bask & Hb & Hs). exists (samples bask). split; [|done].
    apply list_elem_of_fmap. by exists bask.
Qed.

Lemma membership_edges_elem baskets i u v :
  (∀ S, set_iter S ≡ₚ elements S) →
  (u, v) ∈ membership_edges set_iter i baskets
  ↔ ∃ n bask s, baskets !! n = Some bask ∧ s ∈ samples bask ∧
                u = BasketKey (i + n) ∧ v = SampleKey s.
Proof.
  intros Hit. revert i. induction baskets as [|b rest IH]; intros i;
    cbn [membership_edges].
  - split; [by intros ?%elem_of_nil|]. by intros (n & bask & s & ? & _).
  - rewrite elem_of_app, IH, list_elem_of_fmap. split.
    + intros [(s & [= -> ->] & Hs)|(n & bask & s & Hn & Hs & -> & ->)].
      * exists 0%nat, b, s. rewrite Hit in Hs. apply elem_of_elements in Hs.
        split; [done|]. split; [done|]. split; [f_equal; lia|done].
      * exists (S n), bask, s. split; [done|]. split; [done|].
        split; [f_equal; lia|done].
    + intros ([|n] & bask & s & Hn & Hs & -> & ->).
      * left. cbn in Hn. injection Hn as ->. exists s.
        split; [do 2 f_equal; lia|]. rewrite Hit. by apply elem_of_elements.
      * right. exists n, bask, s. split; [done|]. split; [done|].
        split; [f_equal; lia|done].
Qed.

Lemma membership_edges_NoDup baskets i :
  (∀ S, set_iter S ≡ₚ elements S) →
  NoDup (membership_edges set_iter i baskets).
Proof.
  intros Hit. revert i. induction baskets as [|b rest IH]; intros i;
    cbn [membership_edges]; [constructor|].
  apply NoDup_app. split; [|split; [|apply IH]].
  - apply NoDup_fmap_2; [by intros s s' [= ->]|].
    rewrite Hit. apply NoDup_elements.
  - intros [u v] (s & [= -> ->] & _)%list_elem_of_fmap
      (n & bask & s' & _ & _ & [= Hi] & _)%membership_edges_elem; [lia|done].
Qed.

(** X12: [create_association_network] raises [IndexError] exactly when
    there are fewer scores than baskets. *)
Theorem create_association_network_index_error baskets scores :
  (length scores < length baskets)%nat ↔
  py_result (create_association_network set_iter baskets scores) = Raise IndexError.
Proof.
  rewrite network_result. split.
  - intros Hlt. rewrite collect_baskets_short; [done| |simpl; lia].
    intros ->. cbn in Hlt. lia.
  - intros H. destruct (decide (length scores < length baskets)%nat) as [|Hge]; [done|].
    destruct (collect_baskets_spec baskets 0 scores (mkCollected [] [] ∅ []))
      as (infos & Hc & _); [simpl; lia|].
    rewrite Hc in H. cbn [py_result snd] in H.
    destruct (add_basket_nodes _ _ _) as [G1|e] eqn:H1; [done|].
    apply add_basket_nodes_error in H1 as [msg [-> | ->]]; discriminate H.
Qed.


(** X14: the edges of the network are the pairs of a basket and one of
    its samples, each once, whatever columns the basket has: the edge
    joins the position of the basket with the name of the sample. *)
Theorem network_edges baskets scores G :
  (∀ S, set_iter S ≡ₚ elements S) →
  py_result (create_association_network set_iter baskets scores) = Ok G →
  NoDup (edges G) ∧
  ∀ u v, (u, v) ∈ edges G ↔
         ∃ i bask s, baskets !! i = Some bask ∧ s ∈ samples bask ∧
                     u = BasketKey i ∧ v = SampleKey s.
Proof.
  intros Hit (_ & infos & G1 & _ & H1 & ->)%network_shape.
  apply add_basket_nodes_shape in H1 as (He & _ & _).
  rewrite add_edges_edges, He, add_sample_nodes_edges. cbn [edges app].
  split; [by apply membership_edges_NoDup|].
  intros u v. by rewrite membership_edges_elem.
Qed.

Lemma network_keys baskets scores G x :
  (∀ S, set_iter S ≡ₚ elements S) →
  py_result (create_association_network set_iter baskets scores) = Ok G →
  x ∈ node_keys G ↔
  (∃ s, s ∈ all_samples baskets ∧ x = SampleKey s) ∨
  (∃ i bask, baskets !! i = Some bask ∧
             (has_basket_keys bask ∨ samples bask ≠ ∅) ∧ x = BasketKey i).
Proof.
  intros Hit (_ & infos & G1 & Hids & H1 & ->)%network_shape.
  apply add_basket_nodes_shape in H1 as (_ & _ & Hel).
  rewrite add_edges_elem, Hel, add_sample_nodes_elem.
  assert (Hinfo : (∃ b, b ∈ infos ∧ x = BasketKey (Basket.id b)) ↔
                  ∃ i bask, baskets !! i = Some bask ∧ has_basket_keys bask ∧
                            x = BasketKey i).
  { split.
    - intros (b & Hb & ->).
      assert (Hin : Basket.id b ∈ keyed_ids 0 baskets).
      { rewrite <- Hids. apply list_elem_of_fmap. by exists b. }
      apply keyed_ids_elem in Hin as (n & bask & Hn & Hk & ->). by exists n, bask.
    - intros (i & bask & Hi & Hk & ->).
      assert (Hin : i ∈ keyed_ids 0 baskets).
      { apply keyed_ids_elem. by exists i, bask. }
      rewrite <- Hids in Hin. apply list_elem_of_fmap in Hin as (b & -> & Hb).
      by exists b. }
  rewrite Hinfo. split.
  - intros [[[Hnil|(s & Hs & ->)]|(i & bask & Hi & Hk & ->)]|([u v] & He & Hx)].
    + by apply elem_of_nil in Hnil.
    + left. exists s. split; [|done]. rewrite Hit in Hs. by apply elem_of_elements.
    + right. exists i, bask. eauto.
    + apply (membership_edges_elem _ _ _ _ Hit) in He
        as (i & bask & s & Hi & Hs & -> & ->).
      cbn [fst snd] in Hx. destruct Hx as [-> | ->].
      * right. exists i, bask. split; [done|]. split; [|done].
        right. intros E. rewrite E in Hs. by apply not_elem_of_empty in Hs.
      * left. exists s. split; [|done]. apply all_samples_elem. exists bask.
        split; [|done]. by eapply list_elem_of_lookup_2.
  - intros [(s & Hs & ->)|(i & bask & Hi & [Hk|Hne] & ->)].
    + left. left. right. exists s. split; [|done].
      rewrite Hit. by apply elem_of_elements.
    + left. right. by exists i, bask.
    + apply set_choose_L in Hne as [s Hs]. right.
      exists (BasketKey i, SampleKey s). split; [|by left].
      apply (membership_edges_elem _ _ _ _ Hit). by exists i, bask, s.
Qed.

Lemma network_keys_NoDup baskets scores G :
  py_result (create_association_network set_iter baskets scores) = Ok G →
  NoDup (node_keys G).
Proof.
  intros (_ & infos & G1 & _ & H1 & ->)%network_shape.
  apply add_basket_nodes_shape in H1 as (_ & Hnd & _).
  apply add_edges_NoDup, Hnd, add_sample_nodes_NoDup. constructor.
Qed.

(** X15: the network is a well-formed graph: no two nodes have the same
    key, both ends of every edge are nodes, and the nodes are the
    samples of the baskets and the positions of the baskets that have
    the three columns or at least one sample. *)
Theorem network_well_formed baskets scores G :
  (∀ S, set_iter S ≡ₚ elements S) →
  py_result (create_association_network set_iter baskets scores) = Ok G →
  NoDup (node_keys G) ∧
  (∀ u v, (u, v) ∈ edges G → u ∈ node_keys G ∧ v ∈ node_keys G) ∧
  (∀ x, x ∈ node_keys G ↔
        (∃ s, s ∈ all_samples baskets ∧ x = SampleKey s) ∨
        (∃ i bask, baskets !! i = Some bask ∧
                   (has_basket_keys bask ∨ samples bask ≠ ∅) ∧ x = BasketKey i)).
Proof.
  intros Hit HG. split; [|split].
  - by apply (network_keys_NoDup baskets scores).
  - intros u v Huv.
    pose proof HG as (_ & infos & G1 & _ & H1 & ->)%network_shape.
    apply add_basket_nodes_shape in H1 as (He & _ & _).
    rewrite add_edges_edges, He, add_sample_nodes_edges in Huv. cbn [edges app] in Huv.
    split; apply add_edges_elem; right; exists (u, v); (split; [done|]); [by left|by right].
  - intros x. apply (network_keys baskets scores G x Hit HG).
Qed.

(** *** Attributes of the nodes *)

Lemma add_node_keep G k a n :
  n ∈ nodes G → n.1 ≠ k ∨ n = (k, a) → n ∈ nodes (add_node G k a).
Proof.
  intros Hn Hcase. unfold add_node. destruct (has_node G k); cbn [nodes].
  - apply list_elem_of_fmap. exists n. split; [|done].
    case_bool_decide as Hk; [|done]. by destruct Hcase.
  - apply elem_of_app. by left.
Qed.

Lemma add_node_new G k a : (k, a) ∈ nodes (add_node G k a).
Proof.
  unfold add_node. destruct (has_node G k) eqn:E; cbn [nodes].
  - unfold has_node in E. apply existsb_exists in E as (n & Hn & Hk).
    apply bool_decide_eq_true in Hk. apply list_elem_of_fmap. exists n.
    split; [by rewrite bool_decide_eq_true_2|]. by apply list_elem_of_In.
  - apply elem_of_app. right. apply list_elem_of_here.
Qed.

Lemma ensure_node_keep G k n : n ∈ nodes G → n ∈ nodes (ensure_node G k).
Proof.
  intros Hn. unfold ensure_node. destruct (has_node G k); [done|].
  cbn [nodes]. apply elem_of_app. by left.
Qed.

Lemma add_edges_keep_node es G n :
  n ∈ nodes G → n ∈ nodes (foldl add_edge G es).
Proof.
  revert G. induction es as [|e es IH]; intros G Hn; [done|].
  cbn [foldl]. apply IH. unfold add_edge. cbn [nodes].
  by do 2 apply ensure_node_keep.
Qed.

Lemma add_basket_nodes_keep_sample acts infos G G' s a :
  add_basket_nodes acts G infos = Ok G' →
  (SampleKey s, a) ∈ nodes G → (SampleKey s, a) ∈ nodes G'.
Proof.
  revert G. induction infos as [|b infos IH]; intros G; [by intros [= <-]|].
  cbn [add_basket_nodes]. unfold add_basket_node.
  destruct (node_size (Basket.activity_score b) acts) as [r|e]; [|done].
  cbn. intros H Hn. apply (IH _ H). apply add_node_keep; [done|]. by left.
Qed.

Lemma add_sample_nodes_attrs samps G s :
  s ∈ samps ∨ (SampleKey s, sample_attrs) ∈ nodes G →
  (SampleKey s, sample_attrs) ∈ nodes (foldl add_sample_node G samps).
Proof.
  revert G. induction samps as [|s' samps IH]; intros G; cbn [foldl].
  - intros [Hs|?]; [|done]. by apply elem_of_nil in Hs.
  - intros Hcase. apply IH. unfold add_sample_node.
    destruct (decide (s = s')) as [->|Hne].
    + right. apply add_node_new.
    + destruct Hcase as [[->|Hs]%elem_of_cons|Hn]; [done|by left|].
      right. apply add_node_keep; [done|]. left. cbn. congruence.
Qed.

Lemma add_sample_nodes_Forall_gen (P : node_key * node_attrs → Prop) samps G :
  (∀ s, P (SampleKey s, sample_attrs)) →
  Forall P (nodes G) → Forall P (nodes (foldl add_sample_node G samps)).
Proof.
  intros HP. revert G. induction samps as [|s samps IH]; intros G HG; [done|].
  cbn [foldl]. apply IH. unfold add_sample_node. by apply add_node_Forall.
Qed.

Lemma add_basket_nodes_Forall_gen (P : node_key * node_attrs → Prop) acts infos G G' :
  (∀ b r c, b ∈ infos → P (BasketKey (Basket.id b), BasketAttrs b "basket" r 1 c)) →
  Forall P (nodes G) →
  add_basket_nodes acts G infos = Ok G' → Forall P (nodes G').
Proof.
  revert G. induction infos as [|b infos IH]; intros G HP HG.
  - by intros [= <-].
  - cbn [add_basket_nodes]. unfold add_basket_node.
    destruct (node_size (Basket.activity_score b) acts) as [r|e]; [|done].
    cbn. apply IH.
    + intros b' r' c' Hb'. apply HP. by apply list_elem_of_further.
    + apply add_node_Forall; [done|]. apply HP, list_elem_of_here.
Qed.

Lemma keys_functional (l : list (node_key * node_attrs)) k a a' :
  NoDup (map fst l) → (k, a) ∈ l → (k, a') ∈ l → a = a'.
Proof.
  induction l as [|n l IH]; [by intros _ ?%elem_of_nil|].
  cbn [map]. intros [Hn Hnd]%NoDup_cons Ha Ha'.
  assert (Hk : ∀ x, (k, x) ∈ l → k ∈ map fst l).
  { intros x Hx. apply list_elem_of_fmap. by exists (k, x). }
  apply elem_of_cons in Ha as [Heq|Ha]; apply elem_of_cons in Ha' as [Heq'|Ha'].
  - congruence.
  - subst n. destruct Hn. cbn. by apply (Hk a').
  - subst n. destruct Hn. cbn. by apply (Hk a).
  - by apply IH.
Qed.

Lemma node_key_attr G k : k ∈ node_keys G → ∃ a, (k, a) ∈ nodes G.
Proof.
  unfold node_keys. intros ([k' a] & -> & Hn)%list_elem_of_fmap. by exists a.
Qed.

Lemma node_attr_key G k a : (k, a) ∈ nodes G → k ∈ node_keys G.
Proof. intros Hn. apply list_elem_of_fmap. by exists (k, a). Qed.

(** X16: every sample of a basket is a node with the attributes of a
    sample node (type [sample], radius 6, depth 0, colour
    [rgb(51,51,51)]), nothing else has a sample key, and no later step
    changes the attributes of a sample node. *)
Theorem network_sample_nodes baskets scores G s :
  (∀ S, set_iter S ≡ₚ elements S) →
  py_result (create_association_network set_iter baskets scores) = Ok G →
  ((∃ bask, bask ∈ baskets ∧ s ∈ samples bask) ↔
   (SampleKey s, SampleAttrs "sample" 6 0 "rgb(51,51,51)") ∈ nodes G) ∧
  (∀ a, (SampleKey s, a) ∈ nodes G → a = SampleAttrs "sample" 6 0 "rgb(51,51,51)").
Proof.
  intros Hit HG. rewrite <- all_samples_elem.
  fold sample_attrs.
  assert (Hthere : s ∈ all_samples baskets → (SampleKey s, sample_attrs) ∈ nodes G).
  { intros Hs. pose proof HG as (_ & infos & G1 & _ & H1 & ->)%network_shape.
    apply add_edges_keep_node. eapply add_basket_nodes_keep_sample; [exact H1|].
    apply add_sample_nodes_attrs. left. rewrite Hit. by apply elem_of_elements. }
  assert (Hback : ∀ a, (SampleKey s, a) ∈ nodes G → s ∈ all_samples baskets).
  { intros a Ha%node_attr_key.
    apply (network_keys baskets scores G _ Hit HG) in Ha
      as [(s' & Hs' & [= ->])|(i & bask & _ & _ & [=])]. done. }
  split; [split; [done|apply Hback]|].
  intros a Ha.
  pose proof (network_keys_NoDup baskets scores G HG) as Hnd.
  apply (keys_functional (nodes G) (SampleKey s)); [done|done|].
  apply Hthere. by apply (Hback a).
Qed.

Lemma network_log baskets scores :
  (length baskets ≤ length scores)%nat →
  py_log (create_association_network set_iter baskets scores)
  = Info "Generating association network..." :: flat_map key_warning baskets.
Proof.
  intros Hlen. unfold create_association_network.
  destruct (collect_baskets_spec baskets 0 scores (mkCollected [] [] ∅ []))
    as (infos & Hc & _); [simpl; lia|].
  unfold mbind, Py_bind, py_info, py_lift, py_log. rewrite Hc.
  cbn [fst app]. by rewrite app_nil_r.
Qed.

Lemma network_attrs_match baskets scores G :
  py_result (create_association_network set_iter baskets scores) = Ok G →
  Forall (attrs_match_key baskets) (nodes G).
Proof.
  intros (_ & infos & G1 & Hids & H1 & ->)%network_shape.
  apply add_edges_Forall; [done|].
  eapply add_basket_nodes_Forall_gen; [| |exact H1].
  - intros b r c Hb. exists (Basket.id b). split; [done|].
    rewrite <- Hids. apply list_elem_of_fmap. by exists b.
  - apply add_sample_nodes_Forall_gen; [|constructor].
    intros s. by exists s.
Qed.

(** X17: a basket that lacks one of the columns [PrecMz], [RetTime] and
    [PrecIntensity] does not stop the network: a warning with the name
    of the first missing column is logged, and the node of the basket,
    which exists exactly when the basket has a sample, carries no
    attribute at all. *)
Theorem network_unkeyed_basket baskets scores G i bask :
  (∀ S, set_iter S ≡ₚ elements S) →
  py_result (create_association_network set_iter baskets scores) = Ok G →
  baskets !! i = Some bask → ¬ has_basket_keys bask →
  (∃ k, k ∈ _BASKET_KEYS ∧ ms1 bask !! k = None ∧
        Warning (KeyError k)
        ∈ py_log (create_association_network set_iter baskets scores)) ∧
  (∀ a, (BasketKey i, a) ∈ nodes G → a = NoAttrs) ∧
  (samples bask ≠ ∅ ↔ (BasketKey i, NoAttrs) ∈ nodes G).
Proof.
  intros Hit HG Hi Hk.
  assert (Hattr : ∀ a, (BasketKey i, a) ∈ nodes G → a = NoAttrs).
  { intros a Ha.
    pose proof (network_attrs_match baskets scores G HG) as Hall.
    eapply Forall_forall in Hall; [|exact Ha].
    unfold attrs_match_key in Hall. cbn [fst snd] in Hall.
    destruct a as [t r d c|b t r d c|]; [by destruct Hall as [s [=]]| |done].
    destruct Hall as (j & [= <-] & Hj).
    apply keyed_ids_elem in Hj as (n & bask' & Hn & Hk' & ->).
    cbn in Hi. rewrite Hi in Hn. by injection Hn as <-. }
  split; [|split; [exact Hattr|]].
  - destruct (first_missing_key bask) as [k|] eqn:Hfirst;
      [|by apply first_missing_key_None in Hfirst].
    exists k. destruct (first_missing_key_Some bask k Hfirst) as [Hin Hnone].
    split; [done|]. split; [done|].
    pose proof HG as [Hlen _]%network_shape. rewrite network_log by done.
    apply list_elem_of_further, list_elem_of_In, in_flat_map. exists bask.
    split; [by eapply list_elem_of_In, list_elem_of_lookup_2|].
    unfold key_warning. rewrite Hfirst. by left.
  - split.
    + intros Hne.
      assert (Hkey : BasketKey i ∈ node_keys G).
      { apply (network_keys baskets scores G _ Hit HG). right. exists i, bask. eauto. }
      apply node_key_attr in Hkey as [a Ha]. by rewrite <- (Hattr a Ha).
    + intros Hn%node_attr_key.
      apply (network_keys baskets scores G _ Hit HG) in Hn
        as [(s & _ & [=])|(j & bask' & Hj & Hcase & [= <-])].
      rewrite Hi in Hj. injection Hj as <-. by destruct Hcase.
Qed.

End NetworkMore.

Section RadiusOrder.

Open Scope R_scope.

Lemma round_mono x y : x <= y → (Np.round x ≤ Np.round y)%Z.
Proof.
  intros Hxy. unfold Np.round.
  pose proof (Zfloor_bound x) as [Hx1 Hx2].
  pose proof (Zfloor_bound y) as [Hy1 Hy2].
  assert (Hf : (Zfloor x ≤ Zfloor y)%Z) by (apply Zfloor_lub; lra).
  destruct (Z.eq_dec (Zfloor x) (Zfloor y)) as [E|N].
  - rewrite <- E in *.
    destruct (Rlt_dec (x - IZR (Zfloor x)) (1 / 2)),
      (Rlt_dec (y - IZR (Zfloor x)) (1 / 2)),
      (Rlt_dec (1 / 2) (x - IZR (Zfloor x))),
      (Rlt_dec (1 / 2) (y - IZR (Zfloor x)));
      try lra; try lia; destruct (Z.even (Zfloor x)); lia.
  - assert (Hlt : (Zfloor x + 1 ≤ Zfloor y)%Z) by lia.
    destruct (Rlt_dec (x - IZR (Zfloor x)) (1 / 2)),
      (Rlt_dec (y - IZR (Zfloor y)) (1 / 2)),
      (Rlt_dec (1 / 2) (x - IZR (Zfloor x))),
      (Rlt_dec (1 / 2) (y - IZR (Zfloor y)));
      try lia; destruct (Z.even (Zfloor x)), (Z.even (Zfloor y)); lia.
Qed.

Lemma node_size_mono a a' acts r r' :
  node_size a acts = Ok r → node_size a' acts = Ok r' → a <= a' → (r ≤ r')%Z.
Proof.
  intros (lo & hi & Hlo & Hhi & Hne & ->)%node_size_ok
         (lo' & hi' & Hlo' & Hhi' & _ & ->)%node_size_ok Ha.
  rewrite Hlo in Hlo'. rewrite Hhi in Hhi'.
  injection Hlo' as <-. injection Hhi' as <-.
  destruct (list_min_spec _ _ Hlo) as [Hin _].
  destruct (list_max_spec _ _ Hhi) as [_ Hle].
  pose proof (Hle lo Hin) as Hlohi.
  apply round_mono.
  assert (Hpos : 0 < / (hi - lo)) by (apply Rinv_0_lt_compat; lra).
  unfold Rdiv. nra.
Qed.

(** X18: of two basket nodes of the network, the one whose stored
    activity score is not larger has the radius that is not larger. *)
Theorem network_radius_monotone set_iter baskets scores G k b t r d c k' b' t' r' d' c' :
  py_result (create_association_network set_iter baskets scores) = Ok G →
  (k, BasketAttrs b t r d c) ∈ nodes G →
  (k', BasketAttrs b' t' r' d' c') ∈ nodes G →
  Basket.activity_score b <= Basket.activity_score b' →
  (r ≤ r')%Z.
Proof.
  intros HG Hn Hn' Hle.
  pose proof (network_nodes_ok set_iter baskets scores G HG) as Hall.
  rewrite Forall_forall in Hall.
  destruct (Hall _ Hn) as (_ & _ & _ & _ & Hr & _).
  destruct (Hall _ Hn') as (_ & _ & _ & _ & Hr' & _).
  by apply (node_size_mono _ _ _ _ _ Hr Hr').
Qed.

End RadiusOrder.

(** *** The network of three baskets *)

Lemma Rmin_Rmax_5_1_2 : Rmin (Rmin 5 1) 2 ≠ Rmax (Rmax 5 1) 2.
Proof.
  unfold Rmin, Rmax. repeat destruct (Rle_dec _ _); lra.
Qed.

Lemma three_baskets_network :
  ∃ G, py_result (create_association_network elements three_baskets scores_5_1_2) = Ok G.
Proof.
  apply (network_total elements three_baskets scores_5_1_2
           (Rmin (Rmin 5 1) 2) (Rmax (Rmax 5 1) 2));
    [simpl; lia|reflexivity|reflexivity|exact Rmin_Rmax_5_1_2].
Qed.

Lemma not_keys_no_rt : ¬ has_basket_keys basket_no_rt.
Proof. intros (_ & [rt Hrt] & _). vm_compute in Hrt. discriminate. Qed.

Lemma create_association_network_index_error_witness :
  py_result (create_association_network elements three_baskets scores_1_2)
  = Raise IndexError.
Proof.
  apply (proj1 (create_association_network_index_error elements three_baskets scores_1_2)).
  cbn [length three_baskets scores_1_2]. lia.
Defined.


Lemma network_edges_witness :
  ∃ G, py_result (create_association_network elements three_baskets scores_5_1_2) = Ok G ∧
       NoDup (edges G) ∧
       ∀ u v, (u, v) ∈ edges G ↔
              ∃ i bask s, three_baskets !! i = Some bask ∧ s ∈ samples bask ∧
                          u = BasketKey i ∧ v = SampleKey s.
Proof.
  destruct three_baskets_network as [G HG]. exists G. split; [exact HG|].
  apply (network_edges elements three_baskets scores_5_1_2 G); [|exact HG].
  intros S. reflexivity.
Defined.

Lemma network_well_formed_witness :
  ∃ G, py_result (create_association_network elements three_baskets scores_5_1_2) = Ok G ∧
       NoDup (node_keys G) ∧
       ∀ u v, (u, v) ∈ edges G → u ∈ node_keys G ∧ v ∈ node_keys G.
Proof.
  destruct three_baskets_network as [G HG]. exists G. split; [exact HG|].
  destruct (network_well_formed elements three_baskets scores_5_1_2 G) as (Hnd & He & _);
    [intros S; reflexivity|exact HG|].
  by split.
Defined.

Lemma network_sample_nodes_witness :
  ∃ G, py_result (create_association_network elements three_baskets scores_5_1_2) = Ok G ∧
       (SampleKey "Z", SampleAttrs "sample" 6 0 "rgb(51,51,51)") ∈ nodes G.
Proof.
  destruct three_baskets_network as [G HG]. exists G. split; [exact HG|].
  destruct (network_sample_nodes elements three_baskets scores_5_1_2 G "Z") as [[H _] _];
    [intros S; reflexivity|exact HG|].
  apply H. exists basket_ABZ. split.
  - unfold three_baskets. do 2 apply list_elem_of_further. apply list_elem_of_here.
  - unfold basket_ABZ. cbn [samples]. set_solver.
Defined.

Lemma network_unkeyed_basket_witness :
  ∃ G, py_result (create_association_network elements three_baskets scores_5_1_2) = Ok G ∧
       (BasketKey 0, NoAttrs) ∈ nodes G ∧
       Warning (KeyError "RetTime")
       ∈ py_log (create_association_network elements three_baskets scores_5_1_2).
Proof.
  destruct three_baskets_network as [G HG]. exists G. split; [exact HG|].
  destruct (network_unkeyed_basket elements three_baskets scores_5_1_2 G 0 basket_no_rt)
    as ((k & Hk & Hnone & Hlog) & _ & Hnode);
    [intros S; reflexivity|exact HG|reflexivity|exact not_keys_no_rt|].
  split.
  - apply Hnode. unfold basket_no_rt. cbn [samples]. intros E.
    assert (H : "B" ∈ ({[ "B" ]} : gset string)) by set_solver.
    rewrite E in H. by apply not_elem_of_empty in H.
  - assert (k = "RetTime") as <-; [|exact Hlog].
    unfold _BASKET_KEYS in Hk.
    apply elem_of_cons in Hk as [->|Hk]; [vm_compute in Hnone; discriminate|].
    apply elem_of_cons in Hk as [->|Hk]; [done|].
    apply elem_of_cons in Hk as [->|Hk]; [vm_compute in Hnone; discriminate|].
    by apply elem_of_nil in Hk.
Defined.

Lemma network_radius_monotone_witness :
  ∃ G b t r d c b' t' r' d' c',
    py_result (create_association_network elements three_baskets scores_5_1_2) = Ok G ∧
    (BasketKey 1, BasketAttrs b t r d c) ∈ nodes G ∧
    (BasketKey 2, BasketAttrs b' t' r' d' c') ∈ nodes G ∧
    (r ≤ r')%Z.
Proof.
  destruct three_baskets_network as [G HG].
  destruct (network_has_basket_nodes elements three_baskets scores_5_1_2 G 1%nat basket_A
              HG eq_refl has_basket_keys_A) as (b & t & r & d & c & Hin & Hid).
  destruct (network_has_basket_nodes elements three_baskets scores_5_1_2 G 2%nat basket_ABZ
              HG eq_refl has_basket_keys_example) as (b' & t' & r' & d' & c' & Hin' & Hid').
  exists G, b, t, r, d, c, b', t', r', d', c'.
  split; [exact HG|]. split; [exact Hin|]. split; [exact Hin'|].
  apply (network_radius_monotone elements three_baskets scores_5_1_2 G
           _ b t r d c _ b' t' r' d' c' HG Hin Hin').
  pose proof (network_nodes_ok elements three_baskets scores_5_1_2 G HG) as Hall.
  rewrite Forall_forall in Hall.
  destruct (Hall _ Hin) as ((_ & sc & Hsc & Hact & _) & _).
  destruct (Hall _ Hin') as ((_ & sc' & Hsc' & Hact' & _) & _).
  rewrite Hid in Hsc. rewrite Hid' in Hsc'.
  injection Hsc as <-. injection Hsc' as <-. cbn [activity] in Hact, Hact'.
  rewrite Hact, Hact', round_to_one.
  rewrite (round_to_hundredths_eq 2 200) by lra. lra.
Defined.

(** ** Replicate comparison and basketing *)

Section CoreMore.

Variable rtree_index : Type.
Variable hyperrectangle : Type.
Variable mzml_to_df : string → config → result Frame.
Variable add_error_cols :
  Frame → list string → list (string * (option string * option R)) → Frame.
Variable build_rtree : Frame → list string → rtree_index.
Variable get_hyperrectangles : Frame → list string → list hyperrectangle.
Variable generate_connected_components :
  rtree_index → list hyperrectangle → list (list nat).
Variable collapse_connected_components :
  list (list nat) → Frame → config → nat → Frame.
Variable read_replicated : string → list Frame.

Local Abbreviation table_of :=
  (replicated_table rtree_index hyperrectangle mzml_to_df add_error_cols
     build_rtree get_hyperrectangles generate_connected_components
     collapse_connected_components).
Local Abbreviation compare_sample :=
  (replicate_compare_sample rtree_index hyperrectangle mzml_to_df
     add_error_cols build_rtree get_hyperrectangles generate_connected_components
     collapse_connected_components).
Local Abbreviation basket_all :=
  (basket_replicated rtree_index hyperrectangle add_error_cols build_rtree
     get_hyperrectangles generate_connected_components
     collapse_connected_components read_replicated).

Lemma load_all_first_failure pre p post configd e :
  Forall (fun q => ∃ df, mzml_to_df q configd = Ok df) pre →
  mzml_to_df p configd = Raise e →
  load_all mzml_to_df (pre ++ p :: post) configd = Raise e.
Proof.
  intros Hpre Hp. induction Hpre as [|q pre [df Hq] _ IH]; cbn [app load_all].
  - by rewrite Hp.
  - by rewrite Hq, IH.
Qed.

(** X19: [replicate_compare_sample] writes its one file last: when it
    raises, no file has changed, and when it returns, only the file of
    the sample has.  With no data path it raises the [ValueError] of
    [pd.concat], and the exception of the first file that cannot be
    loaded is the exception of the call. *)
Theorem replicate_compare_sample_all_or_nothing sample data_paths configd outputdir fs :
  let out := compare_sample sample data_paths configd outputdir fs in
  (data_paths = [] →
   io_result out = Raise (ValueError "No objects to concatenate")) ∧
  (∀ e, io_result out = Raise e → io_files out = fs) ∧
  (io_result out = Ok tt →
   ∃ ndf, io_files out = <[replicated_path outputdir sample := ndf]> fs) ∧
  (∀ pre p post e,
     data_paths = (pre ++ p :: post)%list →
     Forall (fun q => ∃ df, mzml_to_df q configd = Ok df) pre →
     mzml_to_df p configd = Raise e →
     io_result out = Raise e).
Proof.
  intros out. subst out.
  destruct (replicate_compare_sample_eq rtree_index hyperrectangle mzml_to_df
              add_error_cols build_rtree get_hyperrectangles
              generate_connected_components collapse_connected_components
              sample data_paths configd outputdir fs) as [log ->].
  split; [|split; [|split]].
  - intros ->. reflexivity.
  - intros e. by destruct (table_of data_paths configd).
  - destruct (table_of data_paths configd) as [ndf|e]; [by exists ndf|done].
  - intros pre p post e -> Hpre Hp. unfold replicated_table.
    by rewrite (load_all_first_failure pre p post configd e Hpre Hp).
Qed.

(** X20: [basket_replicated] writes [basketed.csv] last: when it raises,
    no file has changed; when it returns, only that file has, and the
    table in it has a [freq] column. *)
Theorem basket_replicated_all_or_nothing datadir configd fs :
  let out := basket_all datadir configd fs in
  (∀ e, io_result out = Raise e → io_files out = fs) ∧
  (io_result out = Ok tt →
   ∃ ndf, io_files out = <[joinpath datadir "basketed.csv" := ndf]> fs ∧
          "freq" ∈ f_columns ndf).
Proof.
  intros out. subst out.
  unfold basket_replicated, make_repdf, mbind, Io_bind, io_lift, io_log, to_csv.
  cbn beta iota zeta.
  destruct (pd_concat (read_replicated datadir)) as [df0|e0]; cbn beta iota zeta;
    [|split; [done|discriminate]].
  destruct (frame_get df0 (FILENAMECOL configd)) as [fcol|e1]; cbn beta iota zeta;
    [|split; [done|discriminate]].
  destruct (frame_get df0 "Sample") as [scol|e2]; cbn beta iota zeta;
    [|split; [done|discriminate]].
  destruct (frame_get _ (FILENAMECOL configd)) as [ncol|e3]; cbn beta iota zeta;
    [|split; [done|discriminate]].
  destruct (apply_count_files ncol) as [freq|e4]; cbn beta iota zeta;
    [|split; [done|discriminate]].
  split; [discriminate|]. intros _. eexists. split; [reflexivity|].
  unfold frame_set. cbn [f_columns]. case_bool_decide; [done|].
  apply elem_of_app. right. apply list_elem_of_here.
Qed.

Lemma frame_get_missing df col :
  col ∉ f_columns df → frame_get df col = Raise (KeyError col).
Proof. intros H. unfold frame_get. by rewrite bool_decide_eq_false_2. Qed.

(** X21: [basket_replicated] needs both the file name column and the
    column [Sample] in the concatenated table: without the first it
    raises its [KeyError]; with the first but without [Sample] it raises
    [KeyError('Sample')], even when no row lacks a file name. *)
Theorem basket_replicated_missing_columns datadir configd fs df0 :
  pd_concat (read_replicated datadir) = Ok df0 →
  (FILENAMECOL configd ∉ f_columns df0 →
   io_result (basket_all datadir configd fs) = Raise (KeyError (FILENAMECOL configd))) ∧
  (FILENAMECOL configd ∈ f_columns df0 → "Sample" ∉ f_columns df0 →
   io_result (basket_all datadir configd fs) = Raise (KeyError "Sample")).
Proof.
  intros Hcat.
  unfold basket_replicated, make_repdf, mbind, Io_bind, io_lift, io_log, to_csv.
  rewrite Hcat. cbn beta iota zeta. split.
  - intros Hf. by rewrite (frame_get_missing df0 _ Hf).
  - intros Hf Hs. by rewrite (frame_get_in df0 _ Hf), (frame_get_missing df0 _ Hs).
Qed.

End CoreMore.

Lemma replicate_compare_sample_all_or_nothing_witness :
  io_result (replicate_compare_sample unit unit loader keep_cols no_index no_rectangles
               no_components keep_table "S1" [] example_config "out" ∅)
  = Raise (ValueError "No objects to concatenate").
Proof.
  apply (replicate_compare_sample_all_or_nothing unit unit loader keep_cols no_index
           no_rectangles no_components keep_table "S1" [] example_config "out" ∅).
  reflexivity.
Defined.

Lemma basket_replicated_all_or_nothing_witness :
  io_files (basket_replicated unit unit keep_cols no_index no_rectangles no_components
              keep_table tables_no_sample "data" filename_config ∅) = ∅.
Proof.
  apply (proj1 (basket_replicated_all_or_nothing unit unit keep_cols no_index
                  no_rectangles no_components keep_table tables_no_sample
                  "data" filename_config ∅) (KeyError "Sample")).
  reflexivity.
Defined.

Lemma basket_replicated_missing_columns_witness :
  io_result (basket_replicated unit unit keep_cols no_index no_rectangles no_components
               keep_table tables_no_sample "data" filename_config ∅)
  = Raise (KeyError "Sample").
Proof.
  apply (proj2 (basket_replicated_missing_columns unit unit keep_cols no_index
                  no_rectangles no_components keep_table tables_no_sample
                  "data" filename_config ∅ _ eq_refl)).
  - cbn. apply list_elem_of_here.
  - cbn. intros H. repeat (apply elem_of_cons in H as [H|H]; [discriminate|]).
    by apply elem_of_nil in H.
Defined.

Lemma repair_row_has_name fcol r r' :
  repair_row fcol r = Some r' → is_Some (r' !! fcol).
Proof.
  unfold repair_row. destruct (r !! fcol) as [v|] eqn:Hf.
  - intros [= <-]. by rewrite Hf.
  - destruct (r !! "Sample") as [v|]; [|done]. intros [= <-].
    rewrite lookup_insert_eq. by eexists.
Qed.

Lemma repair_row_fixed fcol r : is_Some (r !! fcol) → repair_row fcol r = Some r.
Proof. intros [v Hv]. unfold repair_row. by rewrite Hv. Qed.

Lemma repaired_rows_names fcol rows :
  Forall (fun r => is_Some (r !! fcol)) (repaired_rows fcol rows).
Proof.
  apply Forall_forall. intros r' (r & _ & Hr)%list_elem_of_omap.
  by apply (repair_row_has_name fcol r).
Qed.

Lemma repaired_rows_fixed fcol rows :
  Forall (fun r => is_Some (r !! fcol)) rows → repaired_rows fcol rows = rows.
Proof.
  unfold repaired_rows. induction 1 as [|r rows Hr _ IH]; [done|].
  cbn [omap list_omap]. rewrite (repair_row_fixed fcol r Hr). cbn. f_equal. exact IH.
Qed.

Lemma repaired_rows_length fcol rows :
  (length (repaired_rows fcol rows) ≤ length rows)%nat.
Proof.
  unfold repaired_rows. induction rows as [|r rows IH]; [done|].
  cbn [omap list_omap length]. destruct (repair_row fcol r); cbn [length]; lia.
Qed.

(** X22: the repair of the file name column in [basket_replicated] (the
    fill from [Sample] followed by [dropna]) leaves no row without a
    file name, never adds a row or a column, keeps every row that had a
    file name as it was, and changes nothing when it is done again. *)
Theorem fill_and_dropna_repairs df fcol :
  fcol ∈ f_columns df →
  Forall (fun r => is_Some (r !! fcol)) (f_rows (fill_and_dropna df fcol)) ∧
  (frame_len (fill_and_dropna df fcol) ≤ frame_len df)%nat ∧
  f_columns (fill_and_dropna df fcol) = f_columns df ∧
  (∀ r, r ∈ f_rows df → is_Some (r !! fcol) → r ∈ f_rows (fill_and_dropna df fcol)) ∧
  fill_and_dropna (fill_and_dropna df fcol) fcol = fill_and_dropna df fcol.
Proof.
  intros Hcol.
  assert (Heq : fill_and_dropna df fcol
                = mkFrame (f_columns df) (repaired_rows fcol (f_rows df))).
  { unfold fill_and_dropna. by rewrite (fill_dropna_frame df fcol Hcol). }
  rewrite Heq. cbn [f_rows f_columns frame_len].
  split; [apply repaired_rows_names|]. split; [|split; [done|split]].
  - apply repaired_rows_length.
  - intros r Hr Hname. apply list_elem_of_omap. exists r.
    split; [done|]. by apply repair_row_fixed.
  - unfold fill_and_dropna.
    rewrite (fill_dropna_frame (mkFrame _ _) fcol) by done.
    cbn [f_rows f_columns]. f_equal.
    apply repaired_rows_fixed, repaired_rows_names.
Qed.

Lemma fill_and_dropna_repairs_witness :
  fill_and_dropna (fill_and_dropna stored_concat "FileName") "FileName"
  = fill_and_dropna stored_concat "FileName".
Proof.
  apply (fill_and_dropna_repairs stored_concat "FileName").
  cbn. apply list_elem_of_here.
Defined.

(** ** The tolerances of the configuration *)

Section TolerancesFacts.

Variable py_float : string → result R.

Lemma tolerance_entry_ok tup r :
  tolerance_entry py_float tup = Ok r → count_char "," tup = 1%nat.
Proof.
  unfold tolerance_entry. pose proof (split_length "," tup) as Hlen.
  destruct (Str.split "," tup) as [|etype [|ev [|x rest]]]; try done.
  cbn in Hlen. intros _. lia.
Qed.

Lemma tolerance_entry_error tup :
  count_char "," tup ≠ 1%nat →
  ∃ msg, tolerance_entry py_float tup = Raise (ValueError msg).
Proof.
  unfold tolerance_entry. pose proof (split_length "," tup) as Hlen.
  destruct (Str.split "," tup) as [|etype [|ev [|x rest]]]; try by eexists.
  cbn in Hlen. intros Hne. lia.
Qed.

(** X23: the tolerance loop of [load_config] accepts an entry only if
    its text has exactly one comma: the first entry with none or with
    more than one makes the call raise [ValueError], if the entries
    before it are accepted.  When the loop ends, [ERRORINFO] has one
    entry for each tolerance, under the same names and in their order. *)
Theorem load_tolerances_one_comma items :
  (∀ l, load_tolerances py_float items = Ok l →
     map fst l = map fst items ∧
     Forall (fun it => count_char "," it.2 = 1%nat) items) ∧
  (∀ pre name tup post,
     items = (pre ++ (name, tup) :: post)%list →
     Forall (fun it => ∃ r, tolerance_entry py_float it.2 = Ok r) pre →
     count_char "," tup ≠ 1%nat →
     ∃ msg, load_tolerances py_float items = Raise (ValueError msg)).
Proof.
  split.
  - induction items as [|[name tup] rest IH]; intros l; cbn [load_tolerances].
    + intros [= <-]. by split.
    + destruct (tolerance_entry py_float tup) as [r|e] eqn:Hr; [|done]. cbn.
      destruct (load_tolerances py_float rest) as [es|e]; [|done]. cbn.
      intros [= <-]. destruct (IH es eq_refl) as [Hn Hall]. cbn. split.
      * by rewrite Hn.
      * constructor; [|done]. by apply (tolerance_entry_ok tup r).
  - intros pre name tup post -> Hpre Hne.
    induction Hpre as [|[n t] pre [r Hr] _ IH]; cbn [app load_tolerances].
    + destruct (tolerance_entry_error tup Hne) as [msg ->]. by exists msg.
    + cbn in Hr. rewrite Hr. cbn. destruct IH as [msg ->]. by exists msg.
Qed.

End TolerancesFacts.

Lemma load_tolerances_one_comma_witness :
  (∃ msg, load_tolerances float_of_two [("PrecMz", "ppm,10"); ("RetTime", "window")]
          = Raise (ValueError msg)) ∧
  map fst [("PrecMz", (Some "ppm", Some 10%R)); ("RetTime", (None, Some 0.03%R))]
  = ["PrecMz"; "RetTime"].
Proof.
  split.
  - apply (proj2 (load_tolerances_one_comma float_of_two
                    [("PrecMz", "ppm,10"); ("RetTime", "window")])
             [("PrecMz", "ppm,10")] "RetTime" "window" []).
    + reflexivity.
    + constructor; [|constructor]. by eexists.
    + cbn. lia.
  - apply (proj1 (load_tolerances_one_comma float_of_two
                    [("PrecMz", "ppm,10"); ("RetTime", "None,0.03")])
             [("PrecMz", (Some "ppm", Some 10%R)); ("RetTime", (None, Some 0.03%R))]).
    reflexivity.
Defined.

(** ** The command line *)

Section CliFacts.

Import Cli.

Lemma main_calls_cases args :
  let p := Path (path args) in
  let mp := call_mp_proc_folder p (filename_col args) (workers args) (basket_info args) in
  let bk q := call_basket q (filename_col args) (ms2 args) (basket_info args) in
  let msg := call_print "path argument must be path to basketed data file" in
  let act := if truthy (activity_data args)
             then [msg; call_load_and_generate_act_outputs p
                          (default EmptyString (activity_data args))]
             else [] in
  main_calls args
  = match task args with
    | task_replicate => mp :: (if truthy (activity_data args) then [msg] else [])
    | task_basket => [bk p]
    | task_both => [mp; bk (Joinpath p "Replicated")]
    | task_activity => act
    | task_full_pipeline => (mp :: bk p :: act)%list
    end.
Proof.
  destruct args as [pa ta wo fc bi ms ad]. cbn [path task workers filename_col
    basket_info ms2 activity_data].
  unfold main_calls, main, when, seq, record, skip.
  cbn [path task workers filename_col basket_info ms2 activity_data].
  destruct ta, (truthy ad); reflexivity.
Qed.

(** X24: [main] calls [load_and_generate_act_outputs] exactly when
    [--activity_data] is given with a non-empty value and the task is
    [activity] or [full_pipeline]; the call gets the path argument as it
    was given, and it is always the last call, made right after the
    message [path argument must be path to basketed data file] is
    printed. *)
Theorem main_activity_step args p a :
  call_load_and_generate_act_outputs p a ∈ main_calls args ↔
  truthy (activity_data args) = true ∧
  (task args = task_activity ∨ task args = task_full_pipeline) ∧
  p = Path (path args) ∧ activity_data args = Some a ∧
  ∃ pre, main_calls args
         = (pre ++ [call_print "path argument must be path to basketed data file";
                    call_load_and_generate_act_outputs p a])%list.
Proof.
  rewrite (main_calls_cases args). cbn zeta.
  assert (Htruthy : ∀ s, truthy (Some s) = negb (String.eqb s EmptyString)) by done.
  destruct (task args) eqn:Ht;
    (destruct (activity_data args) as [s|] eqn:Ha;
     [rewrite Htruthy; destruct (String.eqb s EmptyString); cbn [negb default]
     |cbn [truthy default]]);
    (split;
     [intros Hin;
      repeat (apply elem_of_cons in Hin as [Hin|Hin]; [try discriminate Hin|]);
      try (by apply elem_of_nil in Hin)
     |intros (Htr & [Htask|Htask] & -> & Hsome & _);
      try discriminate Htr; try discriminate Htask; try discriminate Hsome;
      injection Hsome as ->;
      repeat first [apply list_elem_of_here | apply list_elem_of_further]]).
  - injection Hin as -> ->. repeat (split; [done || by left|]). by exists [].
  - injection Hin as -> ->. repeat (split; [done || by right|]). by eexists [_; _].
Qed.

Lemma main_activity_step_witness :
  call_load_and_generate_act_outputs (Path "data/basketed.csv") "act.csv"
  ∈ main_calls (mkArgs "data/basketed.csv" task_activity 0 "Sample" false false
                  (Some "act.csv")).
Proof.
  apply (proj2 (main_activity_step _ _ _)).
  split; [reflexivity|]. split; [by left|]. split; [reflexivity|].
  split; [reflexivity|]. by exists [].
Defined.

(** X25: when [main] runs both the replicate step and the basket step,
    the basket step reads the folder [Replicated] inside the path of the
    replicate step if the task is [both], and the very same path if the
    task is [full_pipeline]. *)
Theorem main_basket_path args p f w b p' f' m b' :
  call_mp_proc_folder p f w b ∈ main_calls args →
  call_basket p' f' m b' ∈ main_calls args →
  p = Path (path args) ∧
  ((task args = task_both ∧ p' = Joinpath p "Replicated") ∨
   (task args = task_full_pipeline ∧ p' = p)).
Proof.
  rewrite (main_calls_cases args). cbn zeta.
  destruct (task args), (truthy (activity_data args));
    rewrite ?elem_of_cons, ?elem_of_nil;
    intros H1 H2; decompose [or] H1; decompose [or] H2; try discriminate; try done;
    repeat match goal with
           | H : call_mp_proc_folder _ _ _ _ = _ |- _ => injection H as -> -> -> ->
           | H : call_basket _ _ _ _ = _ |- _ => injection H as -> -> -> ->
           end;
    (split; [done|]); (by left) || (by right).
Qed.

Lemma main_basket_path_witness :
  Path "data" = Path "data" ∧
  ((task_both = task_both ∧
    Joinpath (Path "data") "Replicated" = Joinpath (Path "data") "Replicated") ∨
   (task_both = task_full_pipeline ∧
    Joinpath (Path "data") "Replicated" = Path "data")).
Proof.
  apply (main_basket_path (mkArgs "data" task_both 0 "Sample" false false None)
           (Path "data") "Sample" 0%Z false
           (Joinpath (Path "data") "Replicated") "Sample" false false).
  - vm_compute. apply list_elem_of_here.
  - vm_compute. apply list_elem_of_further, list_elem_of_here.
Defined.

(** X26: [main] has no handler: when the replicate step raises, [main]
    raises the same exception from the state that step left, and no
    later step runs; when it returns and the task is [both], the basket
    step runs next, on the folder [Replicated], and its exception ends
    [main] as well. *)
Theorem main_stops_at_failure (world : Type)
    (mp_proc_folder : PurePath → string → Z → bool → Cmd world)
    (basket : PurePath → string → bool → bool → Cmd world)
    (load_and_generate_act_outputs : PurePath → string → Cmd world)
    (print : string → Cmd world) args w w1 :
  task args ∈ [task_replicate; task_both; task_full_pipeline] →
  (∀ e,
     mp_proc_folder (Path (path args)) (filename_col args) (workers args)
       (basket_info args) w = (w1, Raise e) →
     main world mp_proc_folder basket load_and_generate_act_outputs print args w
     = (w1, Raise e)) ∧
  (∀ w2 e,
     task args = task_both →
     mp_proc_folder (Path (path args)) (filename_col args) (workers args)
       (basket_info args) w = (w1, Ok tt) →
     basket (Joinpath (Path (path args)) "Replicated") (filename_col args) (ms2 args)
       (basket_info args) w1 = (w2, Raise e) →
     main world mp_proc_folder basket load_and_generate_act_outputs print args w
     = (w2, Raise e)).
Proof.
  intros Ht. split.
  - intros e Hmp. unfold main, seq, when.
    rewrite (bool_decide_eq_true_2 _ Ht). by rewrite Hmp.
  - intros w2 e Hboth Hmp Hbk. unfold main, seq, when.
    rewrite (bool_decide_eq_true_2 _ Ht), Hmp.
    assert (Hb : task args ∈ [task_basket; task_both; task_full_pipeline]).
    { rewrite Hboth. apply list_elem_of_further, list_elem_of_here. }
    rewrite (bool_decide_eq_true_2 _ Hb), (bool_decide_eq_true_2 _ Hboth).
    by rewrite Hbk.
Qed.

End CliFacts.

Lemma main_stops_at_failure_witness :
  Cli.main (list Cli.call)
    (fun _ _ _ _ w => (w, Raise (OSError "data")))
    (fun p f m b => Cli.record (Cli.call_basket p f m b))
    (fun p a => Cli.record (Cli.call_load_and_generate_act_outputs p a))
    (fun msg => Cli.record (Cli.call_print msg))
    (Cli.mkArgs "data" Cli.task_both 0 "Sample" false false None) []
  = ([], Raise (OSError "data")).
Proof.
  apply (proj1 (main_stops_at_failure (list Cli.call) _ _ _ _
                  (Cli.mkArgs "data" Cli.task_both 0 "Sample" false false None) [] []
                  ltac:(vm_compute; apply list_elem_of_further, list_elem_of_here))).
  reflexivity.
Defined.

(** ** Warnings of the scoring *)

Lemma warned_samples_warnings l :
  warned_samples (map (fun s => Warning (KeyError s)) l) = l.
Proof.
  unfold warned_samples. induction l as [|s l IH]; [done|].
  cbn [map omap list_omap]. cbn. f_equal. exact IH.
Qed.

Lemma filter_missing_perm set_iter (fpd : gmap string Np.vec) (S : gset string) :
  set_iter S ≡ₚ elements S →
  filter (fun s => ¬ is_Some (fpd !! s)) (set_iter S) ≡ₚ missing_samples fpd S.
Proof.
  intros Hperm. unfold missing_samples. apply NoDup_Permutation.
  - apply NoDup_filter. rewrite Hperm. apply NoDup_elements.
  - apply NoDup_elements.
  - intros x. rewrite list_elem_of_filter, elem_of_elements, elem_of_filter.
    by rewrite Hperm, elem_of_elements.
Qed.

(** X27: [score_basket] looks the samples up twice, once for each score:
    when it returns, the log holds two warnings for each sample of the
    basket that the activity table lacks and nothing else; when it
    raises, the second lookup is not reached and the log holds one
    warning for each sample of the basket. *)
Theorem score_basket_warns_twice set_iter bask activity_df :
  (∀ S, set_iter S ≡ₚ elements S) →
  (∀ sc, py_result (score_basket set_iter bask activity_df) = Ok sc →
     warned_samples (py_log (score_basket set_iter bask activity_df))
     ≡ₚ (missing_samples activity_df (samples bask)
         ++ missing_samples activity_df (samples bask))%list) ∧
  (∀ e, py_result (score_basket set_iter bask activity_df) = Raise e →
     warned_samples (py_log (score_basket set_iter bask activity_df))
     ≡ₚ elements (samples bask)).
Proof.
  intros Hit. rewrite score_basket_eq. unfold missing_warnings.
  destruct (omap _ _) as [|r rs] eqn:E; unfold py_result, py_log; cbn [fst snd].
  - split; [done|]. intros e _. rewrite warned_samples_warnings.
    rewrite filter_all; [apply Hit|].
    intros s Hs. rewrite (proj1 (omap_lookup_nil activity_df _) E s Hs). by intros [? ?].
  - split; [|done]. intros sc _. unfold warned_samples. rewrite omap_app.
    fold (warned_samples (map (fun s => Warning (KeyError s))
            (filter (fun s => ¬ is_Some (activity_df !! s)) (set_iter (samples bask))))).
    rewrite warned_samples_warnings.
    by rewrite (filter_missing_perm set_iter activity_df (samples bask) (Hit _)).
Qed.

Lemma score_basket_warns_twice_witness :
  warned_samples (py_log (score_basket elements basket_ABZ table_AB))
  ≡ₚ (missing_samples table_AB (samples basket_ABZ)
      ++ missing_samples table_AB (samples basket_ABZ))%list.
Proof.
  apply (proj1 (score_basket_warns_twice elements basket_ABZ table_AB
                  (fun S => elements_perm_refl S))
           (score_of_fps [[1; 2]; [3; 4]]%R)).
  rewrite score_basket_result. vm_compute. reflexivity.
Defined.

(** ** The order of the replicate tasks *)

Lemma string_app_inv_head (a x y : string) : a ++ x = a ++ y → x = y.
Proof.
  induction a as [|c a IH]; [by rewrite !append_nil_l|].
  rewrite !append_cons_l. intros [= H]. by apply IH.
Qed.

Lemma string_app_inv_tail (x y b : string) : x ++ b = y ++ b → x = y.
Proof.
  revert y. induction x as [|c x IH]; intros [|d y].
  - done.
  - rewrite append_nil_l. intros H.
    assert (Hl : String.length b = String.length (String d y ++ b)) by by rewrite <- H.
    rewrite length_append in Hl. cbn in Hl. lia.
  - rewrite append_nil_l. intros H.
    assert (Hl : String.length (String c x ++ b) = String.length b) by by rewrite H.
    rewrite length_append in Hl. cbn in Hl. lia.
  - rewrite !append_cons_l. intros [= -> H]. f_equal. by apply IH.
Qed.

Lemma replicated_path_inj outputdir s s' :
  replicated_path outputdir s = replicated_path outputdir s' → s = s'.
Proof.
  unfold replicated_path, joinpath. intros H.
  apply string_app_inv_head, string_app_inv_head in H.
  by apply string_app_inv_tail in H.
Qed.

Section ReplicateOrder.

Variable rtree_index : Type.
Variable hyperrectangle : Type.
Variable mzml_to_df : string → config → result Frame.
Variable add_error_cols :
  Frame → list string → list (string * (option string * option R)) → Frame.
Variable build_rtree : Frame → list string → rtree_index.
Variable get_hyperrectangles : Frame → list string → list hyperrectangle.
Variable generate_connected_components :
  rtree_index → list hyperrectangle → list (list nat).
Variable collapse_connected_components :
  list (list nat) → Frame → config → nat → Frame.

Local Abbreviation table_of :=
  (replicated_table rtree_index hyperrectangle mzml_to_df add_error_cols
     build_rtree get_hyperrectangles generate_connected_components
     collapse_connected_components).
Local Abbreviation run_tasks :=
  (run_replicate_tasks rtree_index hyperrectangle mzml_to_df
     add_error_cols build_rtree get_hyperrectangles generate_connected_components
     collapse_connected_components).
Local Abbreviation process :=
  (process_replicates rtree_index hyperrectangle mzml_to_df
     add_error_cols build_rtree get_hyperrectangles generate_connected_components
     collapse_connected_components).

Lemma run_tasks_written tasks configd outputdir fs :
  Forall (fun t => ∃ ndf, table_of t.2 configd = Ok ndf) tasks →
  io_result (run_tasks tasks configd outputdir fs) = Ok tt ∧
  io_files (run_tasks tasks configd outputdir fs)
  = foldl (write_table table_of configd outputdir) fs tasks.
Proof.
  intros Hall. revert fs. induction Hall as [|[s ps] tasks [ndf Hndf] _ IH]; intros fs.
  - by cbn.
  - destruct (run_tasks_cons rtree_index hyperrectangle mzml_to_df add_error_cols
                build_rtree get_hyperrectangles generate_connected_components
                collapse_connected_components s ps tasks configd outputdir fs)
      as [log ->].
    cbn [snd] in Hndf. rewrite Hndf. cbn [io_files io_result fst snd foldl].
    destruct (IH (<[replicated_path outputdir s := ndf]> fs)) as [Hr Hf].
    split; [done|]. rewrite Hf. unfold write_table at 3. cbn [fst snd].
    by rewrite Hndf.
Qed.

Lemma written_perm tasks tasks' configd outputdir fs :
  tasks ≡ₚ tasks' → NoDup (map fst tasks) →
  foldl (write_table table_of configd outputdir) fs tasks
  = foldl (write_table table_of configd outputdir) fs tasks'.
Proof.
  intros Hperm. revert fs.
  induction Hperm as [|t l l' _ IH|t t' l|l l' l'' H1 IH1 _ IH2]; intros fs Hnd.
  - done.
  - cbn [foldl]. apply IH. cbn in Hnd. by apply NoDup_cons in Hnd as [_ ?].
  - cbn [foldl]. f_equal. cbn [map] in Hnd.
    apply NoDup_cons in Hnd as [Hne _].
    assert (Hp : replicated_path outputdir t'.1 ≠ replicated_path outputdir t.1).
    { intros E%replicated_path_inj. apply Hne. rewrite E. apply list_elem_of_here. }
    unfold write_table.
    destruct (table_of t.2 configd), (table_of t'.2 configd); try done.
    by apply insert_insert_ne.
  - rewrite IH1 by done. apply IH2. by rewrite <- H1.
Qed.

(** X28: when every sample can be processed and no sample name occurs
    twice, the files [process_replicates] leaves do not depend on the
    order in which the samples are taken: any two orders give the same
    files, and the file of a sample holds the table of that sample. *)
Theorem process_replicates_order_independent
    (generate_rep_df_paths generate_rep_df_paths' : string → list (string * list string))
    datadir outputdir configd fs :
  generate_rep_df_paths datadir ≡ₚ generate_rep_df_paths' datadir →
  NoDup (map fst (generate_rep_df_paths datadir)) →
  Forall (fun t => ∃ ndf, table_of t.2 configd = Ok ndf)
         (generate_rep_df_paths datadir) →
  io_result (process generate_rep_df_paths datadir outputdir configd fs) = Ok tt ∧
  io_result (process generate_rep_df_paths' datadir outputdir configd fs) = Ok tt ∧
  io_files (process generate_rep_df_paths datadir outputdir configd fs)
  = io_files (process generate_rep_df_paths' datadir outputdir configd fs) ∧
  ∀ sample paths ndf,
    (sample, paths) ∈ generate_rep_df_paths datadir →
    table_of paths configd = Ok ndf →
    io_files (process generate_rep_df_paths datadir outputdir configd fs)
      !! replicated_path outputdir sample = Some ndf.
Proof.
  intros Hperm Hnd Hall. unfold process_replicates.
  assert (Hall' : Forall (fun t => ∃ ndf, table_of t.2 configd = Ok ndf)
                    (generate_rep_df_paths' datadir)) by by rewrite <- Hperm.
  destruct (run_tasks_written _ configd outputdir fs Hall) as [Hr Hf].
  destruct (run_tasks_written _ configd outputdir fs Hall') as [Hr' Hf'].
  split; [done|]. split; [done|]. split.
  - rewrite Hf, Hf'. by apply written_perm.
  - intros sample paths ndf Hin Hndf. rewrite Hf.
    apply elem_of_Permutation in Hin as [rest Hrest].
    rewrite (written_perm _ (rest ++ [(sample, paths)]) configd outputdir fs);
      [|by rewrite Hrest, Permutation_cons_append|done].
    rewrite foldl_snoc. unfold write_table at 1. cbn [fst snd].
    rewrite Hndf. apply lookup_insert_eq.
Qed.

End ReplicateOrder.

Lemma process_replicates_order_independent_witness :
  io_files (process_replicates unit unit loader keep_cols no_index no_rectangles
              no_components keep_table two_samples "data" "out" example_config ∅)
  = io_files (process_replicates unit unit loader keep_cols no_index no_rectangles
                no_components keep_table two_samples_rev "data" "out" example_config ∅).
Proof.
  apply (process_replicates_order_independent unit unit loader keep_cols no_index
           no_rectangles no_components keep_table two_samples two_samples_rev
           "data" "out" example_config ∅).
  - apply perm_swap.
  - cbn. apply NoDup_cons. split; [|apply NoDup_singleton].
    intros H%list_elem_of_singleton. discriminate.
  - repeat constructor; by eexists.
Defined.

(** ** The cluster score in binary64 *)


Lemma pearson_multiples : Np.pearson [1; 3; 7]%R [5; 15; 35]%R = Some 1%R.
Proof.
  unfold Np.pearson.
  assert (Hx : Np.dot (Np.dev [1; 3; 7]%R) (Np.dev [1; 3; 7]%R) = (56 / 3)%R)
    by (unfold Np.dot, Np.dev, Np.mean; cbn; lra).
  assert (Hy : Np.dot (Np.dev [5; 15; 35]%R) (Np.dev [5; 15; 35]%R)
               = (25 * (56 / 3))%R)
    by (unfold Np.dot, Np.dev, Np.mean; cbn; lra).
  assert (Hxy : Np.dot (Np.dev [1; 3; 7]%R) (Np.dev [5; 15; 35]%R) = (5 * (56 / 3))%R)
    by (unfold Np.dot, Np.dev, Np.mean; cbn; lra).
  rewrite Hx, Hy, Hxy.
  replace (56 / 3 * (25 * (56 / 3)))%R with ((5 * (56 / 3)) * (5 * (56 / 3)))%R by lra.
  rewrite sqrt_square by lra.
  destruct (Req_dec_T (5 * (56 / 3)) 0); [lra|]. f_equal. field.
Qed.

Lemma cluster_multiples : cluster_of_fps [[1; 3; 7]; [5; 15; 35]]%R = 1%R.
Proof.
  unfold cluster_of_fps. rewrite decide_False by (simpl; lia).
  rewrite nansum_take_at_corr. cbn -[Np.pearson INR].
  unfold corr_or_zero. cbn [fst snd nth]. rewrite pearson_multiples.
  simpl. lra.
Qed.

Lemma F64_collect_fps_rows (fpd : gmap string (list PrimFloat.float)) l :
  (F64.collect_fps fpd l).2 = omap (fun s => fpd !! s) l.
Proof.
  induction l as [|s l IH]; [done|]. simpl.
  destruct (F64.collect_fps fpd l) as [log to_cat]. simpl in IH. subst to_cat.
  by destruct (fpd !! s).
Qed.

(** With one fingerprint found, the binary64 computation returns [0.0]
    as well, before any correlation is computed. *)
Lemma F64_cluster_score_one entry (fpd : gmap string (list PrimFloat.float)) l :
  length (omap (fun s => fpd !! s) l) = 1%nat →
  py_result (F64.cluster_score entry fpd l) = Ok (Some PrimFloat.zero).
Proof.
  intros Hone. unfold F64.cluster_score, F64.get_samples_fps.
  rewrite <- F64_collect_fps_rows in Hone.
  destruct (F64.collect_fps fpd l) as [log [|r [|r' rs]]]; try discriminate Hone.
  reflexivity.
Qed.

(** C3, as stated, fails: for the fingerprints [1, 3, 7] and
    [5, 15, 35] the cluster score is [1] in exact arithmetic, but the
    binary64 computation of the code returns the next number above [1],
    [1.0000000000000002], with the correlation routine of pandas 1.1 to
    2.1 and with that of the versions before. *)
Lemma cluster_score_exceeds_one :
  py_result (F64.cluster_score F64.pearson F64.table_multiples ["A"; "B"])
  = Ok (Some F64.above_one) ∧
  py_result (F64.cluster_score F64.pearson_two_pass F64.table_multiples ["A"; "B"])
  = Ok (Some F64.above_one) ∧
  PrimFloat.ltb PrimFloat.one F64.above_one = true ∧
  py_result (cluster_score table_multiples ["A"; "B"]) = Ok 1%R.
Proof.
  split; [vm_compute; reflexivity|].
  split; [vm_compute; reflexivity|].
  split; [vm_compute; reflexivity|].
  rewrite cluster_score_result.
  assert (Hrows : omap (fun s => table_multiples !! s) ["A"; "B"]
                  = [[1; 3; 7]; [5; 15; 35]]%R) by reflexivity.
  rewrite Hrows. f_equal. apply cluster_multiples.
Qed.

(** ** The colour of a score near a threshold *)

Lemma round_to_752 : Np.round_to 0.752 2 = 0.75%R.
Proof.
  unfold Np.round_to.
  rewrite (round_near 75 (0.752 * 10 ^ 2)) by (simpl; lra).
  simpl. lra.
Qed.

(** C6, as stated, fails: the cluster score [0.752] lies in the first
    band, above [0.75], whose colour is [rgb(165,0,38)], but the node of
    a basket with that score gets the colour of the second band: the
    score is rounded to [0.75] before it is compared. *)
Lemma basket_color_of_rounded_score :
  (0.75 < 0.752)%R ∧
  node_color 0.752 = "rgb(165,0,38)" ∧
  ∃ G b t r d c,
    py_result (create_association_network elements two_baskets scores_752) = Ok G ∧
    (BasketKey 0, BasketAttrs b t r d c) ∈ nodes G ∧
    scores_752 !! Basket.id b = Some (mkScore 1 0.752) ∧
    c = "rgb(215,48,39)".
Proof.
  split; [lra|]. split.
  { apply (node_color_bands 0.752). lra. }
  destruct (network_total elements two_baskets scores_752 (Rmin 1 2) (Rmax 1 2))
    as [G HG]; [simpl; lia|reflexivity|reflexivity|exact Rmin_Rmax_1_2|].
  destruct (network_has_basket_nodes elements two_baskets scores_752 G 0%nat basket_A
              HG eq_refl has_basket_keys_A) as (b & t & r & d & c & Hin & Hid).
  exists G, b, t, r, d, c. split; [exact HG|]. split; [exact Hin|].
  pose proof (network_nodes_ok elements two_baskets scores_752 G HG) as Hall.
  rewrite Forall_forall in Hall.
  destruct (Hall _ Hin) as ((_ & sc & Hsc & _ & Hclu) & _ & _ & _ & _ & Hc).
  rewrite Hid in Hsc |- *. injection Hsc as <-. split; [reflexivity|].
  cbn [cluster] in Hclu. rewrite Hc, Hclu, round_to_752.
  apply (node_color_bands 0.75). lra.
Qed.

(** ** The rows of the output table *)

Section OutputTableRows.

Variable set_iter : gset string → list string.
Hypothesis set_iter_perm : ∀ S, set_iter S ≡ₚ elements S.

Lemma output_rows_members baskets i scores :
  (i + length baskets ≤ length scores)%nat →
  ∃ data,
    output_rows set_iter i baskets scores = Ok data ∧
    map row_BasketID data = keyed_ids i baskets ∧
    ∀ row, row ∈ data →
      ∃ j bask sc,
        row_BasketID row = (i + j)%nat ∧ baskets !! j = Some bask ∧
        scores !! (i + j)%nat = Some sc ∧ has_basket_keys bask ∧
        row_of (i + j) bask sc row.
Proof.
  revert i. induction baskets as [|bask rest IH]; intros i Hlen; cbn [length] in Hlen.
  - exists []. split; [done|]. split; [done|]. by intros row ?%elem_of_nil.
  - cbn [output_rows keyed_ids].
    destruct (IH (S i)) as (data & Hdata & Hids & Hrows); [lia|].
    assert (Hrest : ∀ row, row ∈ data →
              ∃ j bask' sc,
                row_BasketID row = (i + j)%nat ∧ (bask :: rest) !! j = Some bask' ∧
                scores !! (i + j)%nat = Some sc ∧ has_basket_keys bask' ∧
                row_of (i + j) bask' sc row).
    { intros row Hrow. destruct (Hrows row Hrow) as (j & b & sc & Hid & Hb & Hsc & Hk & Hof).
      exists (S j), b, sc. replace (i + S j)%nat with (S i + j)%nat by lia. done. }
    destruct (decide (has_basket_keys bask)) as [Hk|Hk].
    + destruct (lookup_lt_is_Some_2 scores i) as [sc Hsc]; [lia|].
      destruct (output_row_ok set_iter set_iter_perm i bask scores sc Hsc Hk)
        as (row & -> & Hof).
      rewrite Hdata. cbn. eexists. split; [reflexivity|]. split.
      * cbn [map]. destruct Hof as [-> _]. by rewrite Hids.
      * intros row' [->|Hrow']%elem_of_cons; [|by apply Hrest].
        exists 0%nat, bask, sc. rewrite Nat.add_0_r.
        split; [exact (proj1 Hof)|done].
    + pose proof (output_row_cases set_iter i bask scores) as Hcase.
      destruct (output_row set_iter i bask scores) as [row|e].
      * by destruct Hcase as (_ & ? & _).
      * destruct Hcase as [[_ Hi]|(k & -> & _ & _)]; [lia|].
        exists data. done.
Qed.

(** C9, amended: with one score per basket, the output table has the
    eight columns in the stated order and exactly one row for each
    basket that has the columns [PrecMz], [PrecIntensity] and [RetTime],
    in the order of the baskets; a basket that lacks one of them has no
    row, although it has a score.  The row of basket [i] holds [i], the
    number of distinct samples of the basket, the three columns of the
    basket, the JSON text of the list of its samples in sorted order,
    and the two scores of the basket.  When every basket has the three
    columns there is one row per basket. *)
Theorem output_table_rows baskets scores :
  length scores = length baskets →
  ∃ table,
    create_output_table set_iter baskets scores = Ok table ∧
    columns table = ["BasketID"; "Frequency"; "PrecMz"; "PrecIntensity"; "RetTime";
                     "SampleList"; "ACTIVITY_SCORE"; "CLUSTER_SCORE"] ∧
    map row_BasketID (data table) = keyed_ids 0 baskets ∧
    (∀ row, row ∈ data table →
       ∃ bask sc,
         baskets !! row_BasketID row = Some bask ∧
         scores !! row_BasketID row = Some sc ∧
         has_basket_keys bask ∧ row_of (row_BasketID row) bask sc row) ∧
    (Forall has_basket_keys baskets →
     length (data table) = length baskets ∧
     ∀ i bask sc, baskets !! i = Some bask → scores !! i = Some sc →
       ∃ row, data table !! i = Some row ∧ row_of i bask sc row).
Proof.
  intros Hlen.
  destruct (output_rows_members baskets 0 scores) as (rows & Hdata & Hids & Hrows);
    [simpl; lia|].
  exists (mkOutputTable output_columns rows).
  unfold create_output_table. rewrite Hdata. cbn [columns data].
  split; [done|]. split; [done|]. split; [done|]. split.
  - intros row Hrow.
    destruct (Hrows row Hrow) as (j & bask & sc & Hid & Hb & Hsc & Hk & Hof).
    cbn in Hid, Hsc, Hof. rewrite Hid. by exists bask, sc.
  - intros Hkeys.
    destruct (output_rows_ok set_iter set_iter_perm baskets 0 scores Hkeys)
      as (data' & Hdata' & Hl & Hall); [simpl; lia|].
    rewrite Hdata in Hdata'. injection Hdata' as <-.
    split; [done|]. intros i bask sc Hb Hsc. by apply (Hall i bask sc).
Qed.

End OutputTableRows.

Lemma three_baskets_scored :
  ∃ scores,
    py_result (score_baskets elements three_baskets table_AB) = Ok scores ∧
    length scores = length three_baskets.
Proof.
  eexists. split.
  - apply score_baskets_ok. repeat constructor; vm_compute; discriminate.
  - by rewrite length_map.
Qed.

Lemma output_table_rows_witness :
  ∃ scores table,
    py_result (score_baskets elements three_baskets table_AB) = Ok scores ∧
    create_output_table elements three_baskets scores = Ok table ∧
    map row_BasketID (data table) = [1; 2]%nat ∧
    ∃ row, row ∈ data table ∧ row_BasketID row = 2%nat ∧ row_Frequency row = 3%nat.
Proof.
  destruct three_baskets_scored as (scores & Hs & Hlen).
  destruct (output_table_rows elements elements_perm_refl three_baskets scores Hlen)
    as (table & Ht & _ & Hids & Hrows & _).
  exists scores, table. split; [exact Hs|]. split; [exact Ht|]. split; [exact Hids|].
  destruct table as [cols rows]. cbn [data] in *.
  destruct rows as [|r1 [|r2 [|r3 rows]]]; try discriminate Hids.
  injection Hids as H1 H2. exists r2. split.
  - apply list_elem_of_further, list_elem_of_here.
  - split; [exact H2|].
    destruct (Hrows r2) as (bask & sc & Hb & _ & _ & Hof).
    + apply list_elem_of_further, list_elem_of_here.
    + rewrite H2 in Hb. injection Hb as <-.
      destruct Hof as (_ & -> & _). vm_compute. reflexivity.
Defined.

(** C9, as stated, fails: a basket without the column [RetTime], seen
    in a sample of the activity table, is scored, but the output table
    made from its score has no row. *)
Lemma output_table_skips_scored_basket :
  ∃ scores,
    py_result (score_baskets elements [basket_no_rt] table_AB) = Ok scores ∧
    length scores = 1%nat ∧
    create_output_table elements [basket_no_rt] scores
    = Ok (mkOutputTable output_columns []).
Proof.
  eexists. split; [|split].
  - apply score_baskets_ok. repeat constructor; vm_compute; discriminate.
  - reflexivity.
  - unfold create_output_table.
    destruct (output_rows_ids elements [basket_no_rt] 0
                (map (fun bask => score_of_fps
                        (omap (fun s => table_AB !! s) (elements (samples bask))))
                     [basket_no_rt]))
      as (data & -> & Hids); [simpl; lia|].
    cbn [keyed_ids] in Hids. rewrite decide_False in Hids by exact not_keys_no_rt.
    by apply map_eq_nil in Hids as ->.
Qed.
